(** * BiliOutils: the live lottery and red-packet services

    A shallow embedding of [src/service/live-lottery.service.ts]: the two
    crawl-filter-join pipelines [liveLotteryService] and
    [liveRedPackService], with the remote platform as an oracle, the
    outbound operations as a trace, the logger as a log and the
    module-level accumulator [newFollowUp] as a reference into a heap of
    arrays. *)

From Equations Require Import Equations.
From Equations.Prop Require Import Logic.
From stdpp Require Import gmap strings list.
From Stdlib Require Import ZArith NArith Lia.

Local Open Scope Z_scope.

(** ** JavaScript strings *)

(** A JavaScript string is a sequence of UTF-16 code units. *)
Abbreviation jsstring := (list N).

(** The code units of an ASCII literal. *)
Definition js (s : string) : jsstring :=
  map Ascii.N_of_ascii (String.list_ascii_of_string s).

(** The literal '关注主播' (U+5173 U+6CE8 U+4E3B U+64AD). *)
Definition follow_marker : jsstring := [0x5173; 0x6CE8; 0x4E3B; 0x64AD]%N.

(** The class [\s] of a regular expression without the unicode flag:
    WhiteSpace and LineTerminator code units. *)
Definition is_space (c : N) : bool :=
  ((9 <=? c) && (c <=? 13) || (c =? 0x20) || (c =? 0xA0) || (c =? 0x1680)
   || (0x2000 <=? c) && (c <=? 0x200A) || (c =? 0x2028) || (c =? 0x2029)
   || (c =? 0x202F) || (c =? 0x205F) || (c =? 0x3000) || (c =? 0xFEFF))%N.

Definition plus_sign : N := 0x2B%N.

(** [strip_prefix p s]: the rest of [s] after the prefix [p], if [s] starts
    with [p]. *)
Fixpoint strip_prefix (p s : jsstring) : option jsstring :=
  match p, s with
  | [], _ => Some s
  | a :: p', b :: s' => if (a =? b)%N then strip_prefix p' s' else None
  | _ :: _, [] => None
  end.

(** [String.prototype.replace] with a string pattern and a replacement free
    of [$]: only the first occurrence is replaced. *)
Fixpoint replace (pat rep s : jsstring) : jsstring :=
  match strip_prefix pat s with
  | Some rest => rep ++ rest
  | None =>
      match s with
      | [] => []
      | c :: s' => c :: replace pat rep s'
      end
  end.

(** Greedy [\s*]. *)
Fixpoint skip_spaces (s : jsstring) : jsstring :=
  match s with
  | c :: s' => if is_space c then skip_spaces s' else s
  | [] => []
  end.

(** The separator [/\s*\+\s*/] matched at the head of [s]: the rest of the
    string after the match. The two classes are disjoint, so the greedy
    match is the only one. *)
Definition match_sep (s : jsstring) : option jsstring :=
  match skip_spaces s with
  | c :: s' => if (c =? plus_sign)%N then Some (skip_spaces s') else None
  | [] => None
  end.

Lemma skip_spaces_length s : (length (skip_spaces s) <= length s)%nat.
Proof.
  induction s as [|c s IH]; simpl; [lia|].
  destruct (is_space c); simpl; lia.
Qed.

Lemma match_sep_length s rest :
  match_sep s = Some rest -> (length rest < length s)%nat.
Proof.
  unfold match_sep. intros H.
  pose proof (skip_spaces_length s) as Hs.
  destruct (skip_spaces s) as [|c s'] eqn:E; [discriminate|].
  destruct (c =? plus_sign)%N; [|discriminate].
  injection H as <-. pose proof (skip_spaces_length s'). simpl in Hs. lia.
Qed.

(** [String.prototype.split] with the separator [/\s*\+\s*/] and no limit:
    [tok] is the text since the end of the last match (positions p..q of the
    standard's loop), [s] the text from q on. A match is never empty, so the
    loop's "empty match at p" branch does not arise. *)
Equations? split_sep (tok s : jsstring) : list jsstring by wf (length s) lt :=
  split_sep tok [] := [tok];
  split_sep tok (c :: s') with inspect (match_sep (c :: s')) := {
    | exist _ (Some rest) Hm := tok :: split_sep [] rest;
    | exist _ None _ := split_sep (tok ++ [c]) s' }.
Proof.
  - exact (match_sep_length _ _ Hm).
  - simpl; lia.
Qed.

(** ** getRequireUp *)

Definition getRequireUp (requireText : jsstring) : list jsstring :=
  let requireText := replace follow_marker [] requireText in
  let requireTextList := split_sep [] requireText in
  (* shift() *)
  tail requireTextList.

Example getRequireUp_ABC :
  getRequireUp (follow_marker ++ js " A + B + C") = [js "B"; js "C"].
Proof. reflexivity. Qed.

(** ** Data model

    The DTOs of [dto/live.dto] and the enums of [enums/live-lottery.enum] are
    declared outside the service file; they are given here with the fields
    the service reads. Each record lives in a module of its own, as several
    of them share field names. *)

(** Modelled from the spec: the enum [RequireType] of
    [enums/live-lottery.enum] ("none, follow-the-streamer, minimum platform
    level"); [Other] stands for every further member. *)
Module RequireType.
Inductive t := None | Follow | Level | Other.
#[global] Instance eq_dec : EqDecision t.
Proof. solve_decision. Defined.
End RequireType.

(** Modelled from the spec: the enum [TianXuanStatus] of
    [enums/live-lottery.enum] (draw status "enabled", or anything else). *)
Module TianXuanStatus.
Inductive t := Enabled | Other.
#[global] Instance eq_dec : EqDecision t.
Proof. solve_decision. Defined.
End TianXuanStatus.

(** Modelled from the spec: the badge markers [PendentID] of
    [enums/live-lottery.enum] (time-lottery marker, red-packet marker, or any
    other value). *)
Module PendentID.
Inductive t := Time | RedPacket | Other.
#[global] Instance eq_dec : EqDecision t.
Proof. solve_decision. Defined.
End PendentID.

Module Pendant.
Record t := { pendent_id : PendentID.t }.
End Pendant.

Module LiveRoomList.
Record t := {
  roomid : Z;
  uid : Z;
  uname : jsstring;
  pendant_info : gmap string Pendant.t;
}.
End LiveRoomList.

Module LiveCheckLotteryDto.
Record t := {
  id : Z;
  gift_id : Z;
  gift_num : Z;
  award_name : jsstring;
  status : TianXuanStatus.t;
  gift_price : Z;
  require_type : RequireType.t;
  require_value : Z;
  require_text : jsstring;
}.
End LiveCheckLotteryDto.

(** [type CheckedLottery = LiveCheckLotteryDto & { uid; uname }] *)
Module CheckedLottery.
Record t := {
  dto : LiveCheckLotteryDto.t;
  uid : Z;
  uname : jsstring;
}.
End CheckedLottery.

Module LiveAreaType.
Record t := { areaId : jsstring; parentId : jsstring }.
End LiveAreaType.

(** One sub-category of the directory response. *)
Module Area.
Record t := { id : jsstring; parent_id : jsstring }.
End Area.

(** One major category of the directory response. *)
Module AreaItem.
Record t := { list : list Area.t }.
End AreaItem.

(** The payload of the directory response: [data.data]. *)
Module AreaData.
Record t := { data : list AreaItem.t }.
End AreaData.

(** The payload of a room page: [data.list]. *)
Module RoomPage.
Record t := { list : list LiveRoomList.t }.
End RoomPage.

(** One entry of [popularity_red_pocket]. *)
Module RedPocket.
Record t := { lot_id : Z; lot_status : Z }.
End RedPocket.

(** The payload of the red-packet check; [popularity_red_pocket] is null or
    an array. *)
Module RedPacketData.
Record t := { popularity_red_pocket : option (list RedPocket.t) }.
End RedPacketData.

Module RedPacket.
Record t := {
  uid : Z;
  uname : jsstring;
  lot_id : Z;
  room_id : Z;
}.
End RedPacket.

(** The envelope [{ code, message, data }] of every remote answer. *)
Module Res.
Record t (A : Type) := { code : Z; message : jsstring; data : A }.
Arguments code {A} _.
Arguments message {A} _.
Arguments data {A} _.
End Res.

(** The [data] of an answer that the service reads: the platform leaves it
    out of an answer (undefined), sets it to null, or fills it in. When it is
    filled in, it is as its DTO describes it. *)
Inductive Field (A : Type) :=
  | Undefined
  | Null
  | Value (a : A).
Arguments Undefined {A}.
Arguments Null {A}.
Arguments Value {A} _.

(** An entry of the accumulator: [(number | string)]. *)
Inductive IdOrName :=
  | Uid (n : Z)
  | Name (s : jsstring).

#[export] Instance IdOrName_eq_dec : EqDecision IdOrName.
Proof. solve_decision. Defined.

(** A thrown value: what a remote call raised, the TypeError of the runtime
    (reading a property of undefined or null), or the SyntaxError of
    [String.prototype.match] on a pattern that is not a regular
    expression. *)
Inductive JsError :=
  | RemoteError (message : jsstring)
  | TypeError
  | SyntaxError.

(** ** Configuration *)

(** [TaskConfig] and [TaskModule.userLevel]. *)
Record Config := {
  LOTTERY_UP_BLACKLIST : list Z;
  LOTTERY_EXCLUDE : list jsstring;
  LOTTERY_INCLUDE : list jsstring;
  LOTTERY_PAGE_NUM : Z;
  userLevel : Z;
}.

(** ** Outbound operations *)

Inductive Request :=
  | GetArea
  | GetLiveRoom (parentId areaId : jsstring) (page : Z)
  | CheckLottery (roomid : Z)
  | JoinLottery (id gift_id gift_num : Z)
  | CheckRedPacket (roomId : Z)
  | JoinRedPacket (room_id lot_id ruid : Z).

(** An outbound operation: a fixed delay or a request. *)
Inductive Event :=
  | Delay (ms : Z)
  | Call (r : Request).

(** What a remote call does: it answers or it throws. *)
Inductive Outcome (A : Type) :=
  | Answer (a : A)
  | Raise (e : JsError).
Arguments Answer {A} _.
Arguments Raise {A} _.

(** The remote platform ([net/live.request]). Each operation sees the
    outbound operations made so far, so its answers may change over time. *)
Record Remote := {
  getArea : list Event -> Outcome (Res.t (Field AreaData.t));
  getLiveRoom :
    list Event -> jsstring -> jsstring -> Z -> Outcome (Res.t (Field RoomPage.t));
  checkLottery :
    list Event -> Z -> Outcome (Res.t (Field LiveCheckLotteryDto.t));
  joinLottery : list Event -> Z -> Z -> Z -> Outcome (Res.t unit);
  checkRedPacket : list Event -> Z -> Outcome (Res.t (Field RedPacketData.t));
  joinRedPacket : list Event -> Z -> Z -> Z -> Outcome (Res.t unit);
}.

(** ** Log *)

Inductive LogMsg :=
  | AreaFailed (code : Z) (message : jsstring)
  | AreaException (e : JsError)
  | RoomListFailed (code : Z) (message : jsstring)
  | RoomListException (e : JsError)
  | SkipBlacklist (uname : jsstring)
  | CheckException (roomid : Z) (e : JsError)
  | CheckFailed (roomid : Z) (code : Z) (message : jsstring)
  | SkipAward (award_name : jsstring)
  | LotteryUp (uname : jsstring)
  | LotteryAward (award_name : jsstring)
  | LotteryFailed (code : Z) (message : jsstring)
  | LotterySuccess
  | LotteryException (e : JsError)
  | RedPacketUp (uname : jsstring)
  | RedPacketFailed (code : Z) (message : jsstring)
  | RedPacketSuccess
  | RedPacketException (e : JsError).

Inductive LogEntry :=
  | Info (m : LogMsg)
  | Debug (m : LogMsg)
  | Error (m : LogMsg).

(** ** The world and the monad of the service *)

(** Arrays live in a heap and are passed by reference; [newFollowUp] is the
    module-level variable, undefined until a pipeline assigns it. *)
Record World := {
  heap : list (list IdOrName);
  newFollowUp : option nat;
  trace : list Event;
  log : list LogEntry;
}.

Definition set_heap (h : list (list IdOrName)) (w : World) : World :=
  {| heap := h; newFollowUp := newFollowUp w; trace := trace w; log := log w |}.
Definition set_newFollowUp (r : option nat) (w : World) : World :=
  {| heap := heap w; newFollowUp := r; trace := trace w; log := log w |}.
Definition add_event (e : Event) (w : World) : World :=
  {| heap := heap w; newFollowUp := newFollowUp w;
     trace := trace w ++ [e]; log := log w |}.
Definition add_log (e : LogEntry) (w : World) : World :=
  {| heap := heap w; newFollowUp := newFollowUp w;
     trace := trace w; log := log w ++ [e] |}.

Inductive Result (A : Type) :=
  | Ok (a : A)
  | Thrown (e : JsError).
Arguments Ok {A} _.
Arguments Thrown {A} _.

Definition M (A : Type) : Type := World -> Result A * World.

#[export] Instance M_ret : MRet M := fun A a w => (Ok a, w).
#[export] Instance M_bind : MBind M := fun A B f m w =>
  match m w with
  | (Ok a, w') => f a w'
  | (Thrown e, w') => (Thrown e, w')
  end.

Definition throw {A} (e : JsError) : M A := fun w => (Thrown e, w).

(** [try { m } catch (error) { h error }] *)
Definition try_catch {A} (m : M A) (h : JsError -> M A) : M A := fun w =>
  match m w with
  | (Ok a, w') => (Ok a, w')
  | (Thrown e, w') => h e w'
  end.

Definition logger (e : LogEntry) : M unit := fun w => (Ok tt, add_log e w).
Definition logger_info (m : LogMsg) : M unit := logger (Info m).
Definition logger_debug (m : LogMsg) : M unit := logger (Debug m).
Definition logger_error (m : LogMsg) : M unit := logger (Error m).

(** Modelled from the spec: [apiDelay] of [utils], called with one argument,
    is "a fixed delay" of that many milliseconds. *)
Definition apiDelay (ms : Z) : M unit := fun w => (Ok tt, add_event (Delay ms) w).

(** An awaited request: the request goes out, then the remote answers or
    throws. *)
Definition request {A} (r : Request) (remote : list Event -> Outcome A) : M A :=
  fun w =>
    match remote (trace w) with
    | Answer a => (Ok a, add_event (Call r) w)
    | Raise e => (Thrown e, add_event (Call r) w)
    end.

(** Reading a property of [data], or destructuring it: undefined and null
    throw a TypeError. *)
Definition read {A} (data : Field A) : M A :=
  match data with
  | Value a => mret a
  | Undefined | Null => throw TypeError
  end.

(** The outcome of a test that evaluates a configured pattern: a truth
    value, or the SyntaxError of a pattern that is not a regular
    expression. *)
Definition evaluate (test : option bool) : M bool :=
  match test with
  | Some b => mret b
  | None => throw SyntaxError
  end.

(** [for (const x of xs) { s = body s x }], with the loop's local state. *)
Fixpoint for_of {A S} (xs : list A) (body : S -> A -> M S) (s : S) : M S :=
  match xs with
  | [] => mret s
  | x :: xs' => s' ← body s x; for_of xs' body s'
  end.

(** The values of [page] in [for (let page = 1; page <= num; page++)]. *)
Definition pages (num : Z) : list Z :=
  map Z.of_nat (seq 1 (Z.to_nat num)).

(** ** Arrays *)

(** [x = []] allocates a fresh array. *)
Definition new_array : M nat := fun w =>
  (Ok (length (heap w)), set_heap (heap w ++ [[]]) w).

(** [array.push(item)]; a property read on undefined throws. *)
Definition push (array : option nat) (item : IdOrName) : M unit := fun w =>
  match array with
  | Some l =>
      match heap w !! l with
      | Some xs => (Ok tt, set_heap (<[l := xs ++ [item]]> (heap w)) w)
      | None => (Thrown TypeError, w)
      end
  | None => (Thrown TypeError, w)
  end.

(** [array.includes(item)] *)
Definition includes (array : option nat) (item : IdOrName) : M bool := fun w =>
  match array with
  | Some l =>
      match heap w !! l with
      | Some xs => (Ok (bool_decide (item ∈ xs)), w)
      | None => (Thrown TypeError, w)
      end
  | None => (Thrown TypeError, w)
  end.

(** Modelled from the spec: [pushIfNotExist] of [utils] records an item
    "deduplicated against the accumulator": it pushes the item unless the
    array already includes it. *)
Definition pushIfNotExist (array : option nat) (item : IdOrName) : M unit :=
  found ← includes array item;
  if found : bool then mret tt else push array item.

(** ** The service *)

Section Service.

(** The configuration, the remote platform, and [name.match(text)]:
    whether the regular expression [text] matches somewhere in [name], or
    [None] when [text] is not a regular expression, on which [match]
    throws a SyntaxError. *)
Variable cfg : Config.
Variable remote : Remote.
Variable str_match : jsstring -> jsstring -> option bool.

(** Reading and assigning the module-level variable. *)
Definition get_newFollowUp : M (option nat) := fun w => (Ok (newFollowUp w), w).
Definition assign_newFollowUp (l : nat) : M unit := fun w =>
  (Ok tt, set_newFollowUp (Some l) w).

(** The two-level transform of [getLiveArea]:
    [data.data.map(item => item.list).map(item => item.map(area => ...))]. *)
Definition area_transform (data : AreaData.t) : list (list LiveAreaType.t) :=
  map (fun item =>
         map (fun area =>
                {| LiveAreaType.areaId := Area.id area;
                   LiveAreaType.parentId := Area.parent_id area |})
             item)
      (map AreaItem.list (AreaData.data data)).

Definition getLiveArea : M (list (list LiveAreaType.t)) :=
  try_catch
    (r ← request GetArea (getArea remote);
     (if decide (Res.code r ≠ 0)
      then logger_info (AreaFailed (Res.code r) (Res.message r))
      else mret tt);;
     data ← read (Res.data r);
     mret (area_transform data))
    (fun error =>
       logger_error (AreaException error);;
       throw error).

(** The two arrays [{ lotteryTime, lotteryPacket }] of [pendentLottery];
    [filter] keeps the order in which [forEach] pushes. *)
Definition pendentLottery (list : Datatypes.list LiveRoomList.t)
  : Datatypes.list LiveRoomList.t * Datatypes.list LiveRoomList.t :=
  let has (p : PendentID.t) (item : LiveRoomList.t) : bool :=
    match LiveRoomList.pendant_info item !! "2"%string with
    | None => false
    | Some num2 => bool_decide (Pendant.pendent_id num2 = p)
    end in
  (List.filter (has PendentID.Time) list,
   List.filter
     (fun item => negb (has PendentID.Time item) && has PendentID.RedPacket item)
     list).

Inductive LotType := lottery | redPack.

Definition getLotteryRoomList (areaId parentId : jsstring) (page : Z)
    (lotType : LotType) : M (list LiveRoomList.t) :=
  try_catch
    (apiDelay 100;;
     r ← request (GetLiveRoom parentId areaId page)
           (fun t => getLiveRoom remote t parentId areaId page);
     (if decide (Res.code r ≠ 0)
      then logger_info (RoomListFailed (Res.code r) (Res.message r))
      else mret tt);;
     data ← read (Res.data r);
     mret (match lotType with
           | lottery => fst (pendentLottery (RoomPage.list data))
           | redPack => snd (pendentLottery (RoomPage.list data))
           end))
    (fun error =>
       logger_error (RoomListException error);;
       throw error).

(** [texts.some(text => name.match(text))]: the patterns are tried in
    order up to the first one that matches; a pattern that is reached and
    is not a regular expression throws. *)
Fixpoint some_match (name : jsstring) (texts : list jsstring) : option bool :=
  match texts with
  | [] => Some false
  | text :: texts' =>
      match str_match name text with
      | Some true => Some true
      | Some false => some_match name texts'
      | None => None
      end
  end.

(** The two pattern tests of [checkLotteryRoom]. *)
Definition isExclude (data : LiveCheckLotteryDto.t) : option bool :=
  some_match (LiveCheckLotteryDto.award_name data) (LOTTERY_EXCLUDE cfg).
Definition isInclude (data : LiveCheckLotteryDto.t) : option bool :=
  some_match (LiveCheckLotteryDto.award_name data) (LOTTERY_INCLUDE cfg).

(** The answer of the check is read outside the [try]: after the test
    [data === null], undefined [data] throws at the first property read
    ([data.award_name] in a pattern test, or [data.status] when no pattern
    is configured), and both pattern tests are evaluated, the exclude
    patterns first, before the chain of conditions. *)
Definition checkLotteryRoom (room : LiveRoomList.t)
  : M (option LiveCheckLotteryDto.t) :=
  if bool_decide (LiveRoomList.uid room ∈ LOTTERY_UP_BLACKLIST cfg) then
    logger_info (SkipBlacklist (LiveRoomList.uname room));;
    mret None
  else
    r ← try_catch
          (r ← request (CheckLottery (LiveRoomList.roomid room))
                 (fun t => checkLottery remote t (LiveRoomList.roomid room));
           mret (Some r))
          (fun error =>
             logger_info (CheckException (LiveRoomList.roomid room) error);;
             mret None);
    match r with
    | None => mret None
    | Some r =>
        if decide (Res.code r ≠ 0) then
          logger_debug
            (CheckFailed (LiveRoomList.roomid room) (Res.code r) (Res.message r));;
          mret None
        else
          match Res.data r with
          | Null => mret None
          | Undefined => throw TypeError
          | Value data =>
              excluded ← evaluate (isExclude data);
              included ← evaluate (isInclude data);
              if negb included && excluded then
                logger_info (SkipAward (LiveCheckLotteryDto.award_name data));;
                mret None
              else if bool_decide (LiveCheckLotteryDto.status data ≠ TianXuanStatus.Enabled) then
                mret None
              else if bool_decide (LiveCheckLotteryDto.gift_price data > 0) then
                mret None
              else if bool_decide (LiveCheckLotteryDto.require_type data ≠ RequireType.None)
                      && bool_decide (LiveCheckLotteryDto.require_type data ≠ RequireType.Follow) then
                if bool_decide (LiveCheckLotteryDto.require_type data = RequireType.Level)
                   && bool_decide (userLevel cfg >= LiveCheckLotteryDto.require_value data) then
                  mret (Some data)
                else mret None
              else mret (Some data)
          end
    end.

(** The body of the loop of [checkLotteryRoomList]. *)
Definition checkLotteryRoomList_body (checkedRoomList : list CheckedLottery.t)
    (room : LiveRoomList.t) : M (list CheckedLottery.t) :=
  data ← checkLotteryRoom room;
  match data with
  | Some data =>
      apiDelay 100;;
      mret (checkedRoomList ++
            [{| CheckedLottery.dto := data;
                CheckedLottery.uid := LiveRoomList.uid room;
                CheckedLottery.uname := LiveRoomList.uname room |}])
  | None => mret checkedRoomList
  end.

Definition checkLotteryRoomList (areaId parentId : jsstring) (page : Z)
  : M (list CheckedLottery.t) :=
  roomList ← getLotteryRoomList areaId parentId page lottery;
  for_of roomList checkLotteryRoomList_body [].

Definition doLottery (lottery : CheckedLottery.t) : M unit :=
  try_catch
    (let d := CheckedLottery.dto lottery in
     logger_info (LotteryUp (CheckedLottery.uname lottery));;
     logger_info (LotteryAward (LiveCheckLotteryDto.award_name d));;
     r ← request
           (JoinLottery (LiveCheckLotteryDto.id d) (LiveCheckLotteryDto.gift_id d)
                        (LiveCheckLotteryDto.gift_num d))
           (fun t => joinLottery remote t (LiveCheckLotteryDto.id d)
                       (LiveCheckLotteryDto.gift_id d) (LiveCheckLotteryDto.gift_num d));
     if decide (Res.code r ≠ 0) then
       logger_info (LotteryFailed (Res.code r) (Res.message r))
     else
       logger_info LotterySuccess;;
       if decide (LiveCheckLotteryDto.require_type d = RequireType.Follow) then
         a ← get_newFollowUp;
         pushIfNotExist a (Uid (CheckedLottery.uid lottery));;
         let requireTextList := getRequireUp (LiveCheckLotteryDto.require_text d) in
         for_of requireTextList
           (fun _ requireText =>
              a ← get_newFollowUp;
              pushIfNotExist a (Name requireText))
           tt
       else mret tt)
    (fun error => logger_info (LotteryException error)).

(** The bodies of the two loops of [doLotteryArea]: one room, one page.
    Every call passes [num] and [page], so the defaults of the parameters
    do not arise. *)
Definition doLotteryArea_room (_ : unit) (room : CheckedLottery.t) : M unit :=
  doLottery room;;
  apiDelay 300.

Definition doLotteryArea_page (areaId parentId : jsstring) (_ : unit) (page : Z)
  : M unit :=
  rooms ← checkLotteryRoomList areaId parentId page;
  for_of rooms doLotteryArea_room tt.

Definition doLotteryArea (areaId parentId : jsstring) (num : Z) : M unit :=
  for_of (pages num) (doLotteryArea_page areaId parentId) tt.

(** The nested loops of a pipeline over the major categories and their
    sub-categories, [doArea] being [doLotteryArea] or [doRedPackArea]. *)
Definition for_areas (doArea : jsstring -> jsstring -> Z -> M unit)
    (areaList : list (list LiveAreaType.t)) : M unit :=
  for_of areaList
    (fun _ areas =>
       for_of areas
         (fun _ area =>
            doArea (LiveAreaType.areaId area) (LiveAreaType.parentId area)
                   (LOTTERY_PAGE_NUM cfg))
         tt)
    tt.

Definition liveLotteryService : M (option nat) :=
  l ← new_array;
  assign_newFollowUp l;;
  areaList ← getLiveArea;
  for_areas doLotteryArea areaList;;
  get_newFollowUp.

(** The value of [popularity_red_pocket[0]]'s destructuring: undefined
    there throws. *)
Definition first_entry (l : list RedPocket.t) : M RedPocket.t :=
  match l with
  | e :: _ => mret e
  | [] => throw TypeError
  end.

Definition getRedPacketId (roomId : Z) : M (option Z) :=
  try_catch
    (r ← request (CheckRedPacket roomId) (fun t => checkRedPacket remote t roomId);
     if decide (Res.code r ≠ 0) then mret None
     else
       data ← read (Res.data r);
       match RedPacketData.popularity_red_pocket data with
       | None => mret None
       | Some popularity_red_pocket =>
           e ← first_entry popularity_red_pocket;
           if decide (RedPocket.lot_status e = 2) then mret None
           else mret (Some (RedPocket.lot_id e))
       end)
    (fun error => mret None).

(** [if (lotId)]: undefined and 0 are falsy. *)
Definition truthy (lotId : option Z) : option Z :=
  match lotId with
  | Some n => if decide (n = 0) then None else Some n
  | None => None
  end.

(** The body of the loop of [getRedPacketRoom]. *)
Definition getRedPacketRoom_body (checkedRoomList : list RedPacket.t)
    (room : LiveRoomList.t) : M (list RedPacket.t) :=
  lotId ← getRedPacketId (LiveRoomList.roomid room);
  match truthy lotId with
  | Some lotId =>
      apiDelay 100;;
      mret (checkedRoomList ++
            [{| RedPacket.uid := LiveRoomList.uid room;
                RedPacket.uname := LiveRoomList.uname room;
                RedPacket.lot_id := lotId;
                RedPacket.room_id := LiveRoomList.roomid room |}])
  | None => mret checkedRoomList
  end.

Definition getRedPacketRoom (areaId parentId : jsstring) (page : Z)
  : M (list RedPacket.t) :=
  roomList ← getLotteryRoomList areaId parentId page redPack;
  for_of roomList getRedPacketRoom_body [].

Definition doRedPacket (redPacket : RedPacket.t) : M unit :=
  try_catch
    (logger_info (RedPacketUp (RedPacket.uname redPacket));;
     r ← request
           (JoinRedPacket (RedPacket.room_id redPacket) (RedPacket.lot_id redPacket)
                          (RedPacket.uid redPacket))
           (fun t => joinRedPacket remote t (RedPacket.room_id redPacket)
                       (RedPacket.lot_id redPacket) (RedPacket.uid redPacket));
     if decide (Res.code r ≠ 0) then
       logger_info (RedPacketFailed (Res.code r) (Res.message r))
     else
       a ← get_newFollowUp;
       push a (Uid (RedPacket.uid redPacket));;
       logger_info RedPacketSuccess)
    (fun error => logger_info (RedPacketException error)).

(** The bodies of the two loops of [doRedPackArea]: one room, one page. *)
Definition doRedPackArea_room (_ : unit) (room : RedPacket.t) : M unit :=
  doRedPacket room;;
  apiDelay 200.

Definition doRedPackArea_page (areaId parentId : jsstring) (_ : unit) (page : Z)
  : M unit :=
  rooms ← getRedPacketRoom areaId parentId page;
  for_of rooms doRedPackArea_room tt.

Definition doRedPackArea (areaId parentId : jsstring) (num : Z) : M unit :=
  for_of (pages num) (doRedPackArea_page areaId parentId) tt.

Definition liveRedPackService : M (option nat) :=
  l ← new_array;
  assign_newFollowUp l;;
  areaList ← getLiveArea;
  for_areas doRedPackArea areaList;;
  get_newFollowUp.

End Service.


(** ** Concrete platforms

    Small remotes and configurations on which the pipelines are run. *)

Module Examples.

Definition ok {A} (a : A) : Outcome (Res.t A) :=
  Answer {| Res.code := 0; Res.message := js "0"; Res.data := a |}.

(** A successful answer that carries data. *)
Definition ok_data {A} (a : A) : Outcome (Res.t (Field A)) := ok (Value a).

Definition badge (p : PendentID.t) : gmap string Pendant.t :=
  {[ "2"%string := {| Pendant.pendent_id := p |} ]}.

(** A room of streamer 7 with the given badge. *)
Definition room7 (p : PendentID.t) : LiveRoomList.t :=
  {| LiveRoomList.roomid := 70; LiveRoomList.uid := 7;
     LiveRoomList.uname := js "up7"; LiveRoomList.pendant_info := badge p |}.

(** One major category with one sub-category. *)
Definition one_area : AreaData.t :=
  {| AreaData.data :=
       [ {| AreaItem.list := [ {| Area.id := js "21"; Area.parent_id := js "1" |} ] |} ] |}.

Definition draw (rt : RequireType.t) (text : jsstring) : LiveCheckLotteryDto.t :=
  {| LiveCheckLotteryDto.id := 900; LiveCheckLotteryDto.gift_id := 0;
     LiveCheckLotteryDto.gift_num := 0; LiveCheckLotteryDto.award_name := js "prize";
     LiveCheckLotteryDto.status := TianXuanStatus.Enabled;
     LiveCheckLotteryDto.gift_price := 0; LiveCheckLotteryDto.require_type := rt;
     LiveCheckLotteryDto.require_value := 0; LiveCheckLotteryDto.require_text := text |}.

(** A platform that lists [rooms] on every page, holds the draw [d] in
    every room and the red-packet entries [packets] in every room, and
    accepts every join. *)
Definition platform (rooms : list LiveRoomList.t) (d : Field LiveCheckLotteryDto.t)
    (packets : option (list RedPocket.t)) : Remote :=
  {| getArea := fun _ => ok_data one_area;
     getLiveRoom := fun _ _ _ _ => ok_data {| RoomPage.list := rooms |};
     checkLottery := fun _ _ => ok d;
     joinLottery := fun _ _ _ _ => ok tt;
     checkRedPacket := fun _ _ =>
       ok_data {| RedPacketData.popularity_red_pocket := packets |};
     joinRedPacket := fun _ _ _ _ => ok tt |}.

Definition config (num : Z) : Config :=
  {| LOTTERY_UP_BLACKLIST := []; LOTTERY_EXCLUDE := []; LOTTERY_INCLUDE := [];
     LOTTERY_PAGE_NUM := num; userLevel := 3 |}.

(** A fresh process: no array yet, [newFollowUp] undefined. *)
Definition start : World :=
  {| heap := []; newFollowUp := None; trace := []; log := [] |}.

(** Whether [text] occurs in [name]. *)
Fixpoint occurs (name text : jsstring) : bool :=
  match strip_prefix text name with
  | Some _ => true
  | None =>
      match name with
      | [] => false
      | _ :: name' => occurs name' text
      end
  end.

(** [name.match(text)] on the patterns of the examples: a pattern without
    regular-expression metacharacters matches when it occurs in the name;
    the pattern '(' is not a regular expression. *)
Definition literal_match (name text : jsstring) : option bool :=
  if decide (text = js "(") then None else Some (occurs name text).

Definition open_packet : RedPocket.t := {| RedPocket.lot_id := 5; RedPocket.lot_status := 1 |}.

(** An open entry whose lot id is 0, and a closed entry. *)
Definition zero_packet : RedPocket.t := {| RedPocket.lot_id := 0; RedPocket.lot_status := 1 |}.
Definition closed_packet : RedPocket.t := {| RedPocket.lot_id := 5; RedPocket.lot_status := 2 |}.

(** The three red-packet platforms: room 70 carries the badge and holds an
    open entry, an open entry with lot id 0, a closed entry. *)
Definition open_platform : Remote :=
  platform [room7 PendentID.RedPacket] Null (Some [open_packet]).
Definition zero_platform : Remote :=
  platform [room7 PendentID.RedPacket] Null (Some [zero_packet]).
Definition closed_platform : Remote :=
  platform [room7 PendentID.RedPacket] Null (Some [closed_packet]).

(** A lottery platform: room 70 carries the time-lottery badge and holds a
    free draw that requires following, with the text
    '关注主播 A + B + C'. *)
Definition follow_draw : LiveCheckLotteryDto.t :=
  draw RequireType.Follow (follow_marker ++ js " A + B + C").
Definition follow_platform : Remote :=
  platform [room7 PendentID.Time] (Value follow_draw) None.
Definition follow_lottery : CheckedLottery.t :=
  {| CheckedLottery.dto := follow_draw; CheckedLottery.uid := 7;
     CheckedLottery.uname := js "up7" |}.

(** A platform whose category endpoint answers with a failure code and
    data all the same. *)
Definition soft_failure : Res.t (Field AreaData.t) :=
  {| Res.code := -400; Res.message := js "bad request"; Res.data := Value one_area |}.
Definition soft_failure_platform : Remote :=
  {| getArea := fun _ => Answer soft_failure;
     getLiveRoom := getLiveRoom follow_platform;
     checkLottery := checkLottery follow_platform;
     joinLottery := joinLottery follow_platform;
     checkRedPacket := checkRedPacket follow_platform;
     joinRedPacket := joinRedPacket follow_platform |}.

(** A platform whose draw check and whose lottery join throw. *)
Definition timeout : JsError := RemoteError (js "timeout").
Definition throwing_platform : Remote :=
  {| getArea := getArea follow_platform;
     getLiveRoom := getLiveRoom follow_platform;
     checkLottery := fun _ _ => Raise timeout;
     joinLottery := fun _ _ _ _ => Raise timeout;
     checkRedPacket := checkRedPacket follow_platform;
     joinRedPacket := joinRedPacket follow_platform |}.

(** A platform that lists room 70, with a draw that requires following the
    streamer alone, on page 1 and nothing on the later pages. *)
Definition single_draw : LiveCheckLotteryDto.t :=
  draw RequireType.Follow (follow_marker ++ js " A").
Definition paged_platform : Remote :=
  {| getArea := getArea follow_platform;
     getLiveRoom := fun _ _ _ page =>
       ok_data {| RoomPage.list :=
                    if decide (page = 1) then [room7 PendentID.Time] else [] |};
     checkLottery := fun _ _ => ok_data single_draw;
     joinLottery := joinLottery follow_platform;
     checkRedPacket := checkRedPacket follow_platform;
     joinRedPacket := joinRedPacket follow_platform |}.

(** A draw that requires level 10, and configurations of three users. *)
Definition level_draw : LiveCheckLotteryDto.t :=
  {| LiveCheckLotteryDto.id := 901; LiveCheckLotteryDto.gift_id := 0;
     LiveCheckLotteryDto.gift_num := 0; LiveCheckLotteryDto.award_name := js "prize";
     LiveCheckLotteryDto.status := TianXuanStatus.Enabled;
     LiveCheckLotteryDto.gift_price := 0;
     LiveCheckLotteryDto.require_type := RequireType.Level;
     LiveCheckLotteryDto.require_value := 10;
     LiveCheckLotteryDto.require_text := [] |}.
Definition level_platform : Remote :=
  platform [room7 PendentID.Time] (Value level_draw) None.
Definition level_config (level : Z) : Config :=
  {| LOTTERY_UP_BLACKLIST := []; LOTTERY_EXCLUDE := []; LOTTERY_INCLUDE := [];
     LOTTERY_PAGE_NUM := 2; userLevel := level |}.


(** A platform whose category endpoint answers with a failure code and
    no data. *)
Definition hard_failure : Res.t (Field AreaData.t) :=
  {| Res.code := -400; Res.message := js "bad request"; Res.data := Undefined |}.
Definition hard_failure_platform : Remote :=
  {| getArea := fun _ => Answer hard_failure;
     getLiveRoom := getLiveRoom follow_platform;
     checkLottery := checkLottery follow_platform;
     joinLottery := joinLottery follow_platform;
     checkRedPacket := checkRedPacket follow_platform;
     joinRedPacket := joinRedPacket follow_platform |}.




End Examples.

(** ** Vocabulary of the properties *)

Definition is_lottery_join (e : Event) : bool :=
  match e with
  | Call (JoinLottery _ _ _) => true
  | _ => false
  end.

Definition is_redpacket_join (e : Event) : bool :=
  match e with
  | Call (JoinRedPacket _ _ _) => true
  | _ => false
  end.

(** A join request, respectively a red-packet check, for the room [room]. *)
Definition is_join_of (room : Z) (e : Event) : bool :=
  match e with
  | Call (JoinRedPacket r _ _) => bool_decide (r = room)
  | _ => false
  end.

Definition is_check_of (room : Z) (e : Event) : bool :=
  match e with
  | Call (CheckRedPacket r) => bool_decide (r = room)
  | _ => false
  end.

Fixpoint count {A} (p : A -> bool) (l : list A) : nat :=
  match l with
  | [] => 0
  | x :: l' => (if p x then 1 else 0) + count p l'
  end.

(** Every operation of [t] selected by [p] has [d] as its immediate
    successor. *)
Fixpoint followed_by (p : Event -> bool) (d : Event) (t : list Event) : Prop :=
  match t with
  | [] => True
  | e :: t' => (p e = true -> head t' = Some d) /\ followed_by p d t'
  end.

(** Every operation of [t] selected by [p] has [d] as its immediate
    predecessor, [prev] being the operation before [t]. *)
Fixpoint preceded_by (p : Event -> bool) (d : Event) (prev : option Event)
    (t : list Event) : Prop :=
  match t with
  | [] => True
  | e :: t' => (p e = true -> prev = Some d) /\ preceded_by p d (Some e) t'
  end.

(** [emits m Q]: from every world, [m] appends to the trace a sequence of
    operations that [Q] relates to its result. *)
Definition emits {A} (m : M A) (Q : Result A -> list Event -> Prop) : Prop :=
  forall w, exists evs,
    trace (snd (m w)) = trace w ++ evs /\ Q (fst (m w)) evs.

(** [preserves I m]: [m] keeps the invariant [I] of the world. *)
Definition preserves {A} (I : World -> Prop) (m : M A) : Prop :=
  forall w, I w -> I (snd (m w)).

(** The operations a computation appends to the trace of [w]. *)
Definition emitted {A} (m : M A) (w : World) : list Event :=
  drop (length (trace w)) (trace (snd (m w))).

(** A computation that leaves the trace alone. *)
Definition silent {A} (m : M A) : Prop :=
  forall w, trace (snd (m w)) = trace w.

(** A property of traces that holds of the empty trace and of the
    concatenation of two traces that have it. *)
Definition closed (P : list Event -> Prop) : Prop :=
  P [] /\ forall a b, P a -> P b -> P (a ++ b).

(** What [getRedPacketId] makes of the remote's answer. *)
Definition lot_of (o : Outcome (Res.t (Field RedPacketData.t))) : option Z :=
  match o with
  | Answer r =>
      if decide (Res.code r ≠ 0) then None
      else
        match Res.data r with
        | Value data =>
            match RedPacketData.popularity_red_pocket data with
            | Some (e :: _) =>
                if decide (RedPocket.lot_status e = 2) then None
                else Some (RedPocket.lot_id e)
            | _ => None
            end
        | Undefined | Null => None
        end
  | Raise _ => None
  end.

(** The candidate [getRedPacketRoom] records for a room and a lot id. *)
Definition candidate (room : LiveRoomList.t) (lotId : Z) : RedPacket.t :=
  {| RedPacket.uid := LiveRoomList.uid room;
     RedPacket.uname := LiveRoomList.uname room;
     RedPacket.lot_id := lotId;
     RedPacket.room_id := LiveRoomList.roomid room |}.

(** The join request of a candidate, and of a checked draw. *)
Definition join_of (p : RedPacket.t) : Event :=
  Call (JoinRedPacket (RedPacket.room_id p) (RedPacket.lot_id p) (RedPacket.uid p)).

Definition lottery_join_of (c : CheckedLottery.t) : Event :=
  Call (JoinLottery (LiveCheckLotteryDto.id (CheckedLottery.dto c))
                    (LiveCheckLotteryDto.gift_id (CheckedLottery.dto c))
                    (LiveCheckLotteryDto.gift_num (CheckedLottery.dto c))).

(** The chain of conditions of [checkLotteryRoom] on a draw whose pattern
    tests gave [excluded] and [included]; [w] is the world after the
    request. *)
Definition verdict (cfg : Config) (data : LiveCheckLotteryDto.t)
    (excluded included : bool) (w : World)
  : Result (option LiveCheckLotteryDto.t) * World :=
  if negb included && excluded then
    (Ok None, add_log (Info (SkipAward (LiveCheckLotteryDto.award_name data))) w)
  else if bool_decide (LiveCheckLotteryDto.status data ≠ TianXuanStatus.Enabled) then
    (Ok None, w)
  else if bool_decide (LiveCheckLotteryDto.gift_price data > 0) then (Ok None, w)
  else if bool_decide (LiveCheckLotteryDto.require_type data ≠ RequireType.None)
          && bool_decide (LiveCheckLotteryDto.require_type data ≠ RequireType.Follow) then
    if bool_decide (LiveCheckLotteryDto.require_type data = RequireType.Level)
       && bool_decide (userLevel cfg >= LiveCheckLotteryDto.require_value data)
    then (Ok (Some data), w) else (Ok None, w)
  else (Ok (Some data), w).

(** The answers of the draw checks can be read: an answer with code 0
    carries a draw or null, and the two pattern tests of a draw evaluate. *)
Definition checks_readable (cfg : Config)
    (str_match : jsstring -> jsstring -> option bool) (remote : Remote) : Prop :=
  forall t roomid r,
    checkLottery remote t roomid = Answer r ->
    Res.code r = 0 ->
    Res.data r ≠ Undefined
    /\ forall data,
         Res.data r = Value data ->
         isExclude cfg str_match data ≠ None /\ isInclude cfg str_match data ≠ None.

(** The page fetches of a sub-category answer with data. *)
Definition pages_readable (remote : Remote) (parentId areaId : jsstring) : Prop :=
  forall t page, exists a data,
    getLiveRoom remote t parentId areaId page = Answer a /\ Res.data a = Value data.

(** An invariant of the arrays and of the module-level variable. *)
Definition state_inv (J : list (list IdOrName) -> option nat -> Prop) (w : World) : Prop :=
  J (heap w) (newFollowUp w).

(** The world after [newFollowUp = []]. *)
Definition reset (w : World) : World :=
  set_newFollowUp (Some (length (heap w))) (set_heap (heap w ++ [[]]) w).

(** The array after [pushIfNotExist(array, item)]. *)
Definition add_new (xs : list IdOrName) (item : IdOrName) : list IdOrName :=
  if bool_decide (item ∈ xs) then xs else xs ++ [item].


(** ** Vocabulary of the further properties *)

(** The badge in slot "2" of a room's listing, if any. *)
Definition badge_of (room : LiveRoomList.t) : option PendentID.t :=
  Pendant.pendent_id <$> (LiveRoomList.pendant_info room !! "2"%string).

(** The filter of [checkLotteryRoom] on a draw, as a condition: the two
    pattern tests evaluate and the award is not excluded (or is included),
    the draw is enabled and free, and it requires nothing, following, or a
    level the user has. *)
Definition eligible (cfg : Config) (str_match : jsstring -> jsstring -> option bool)
    (data : LiveCheckLotteryDto.t) : Prop :=
  (exists excluded included,
      isExclude cfg str_match data = Some excluded
      /\ isInclude cfg str_match data = Some included
      /\ (excluded = true -> included = true))
  /\ LiveCheckLotteryDto.status data = TianXuanStatus.Enabled
  /\ LiveCheckLotteryDto.gift_price data <= 0
  /\ (LiveCheckLotteryDto.require_type data = RequireType.None
      \/ LiveCheckLotteryDto.require_type data = RequireType.Follow
      \/ (LiveCheckLotteryDto.require_type data = RequireType.Level
          /\ LiveCheckLotteryDto.require_value data <= userLevel cfg)).


(** A checked draw the join step may receive: its streamer is off the
    blacklist and the draw is eligible. *)
Definition joinable (cfg : Config) (str_match : jsstring -> jsstring -> option bool)
    (c : CheckedLottery.t) : Prop :=
  (CheckedLottery.uid c ∉ LOTTERY_UP_BLACKLIST cfg)
  /\ eligible cfg str_match (CheckedLottery.dto c).

(** A room that a page of the platform lists. *)
Definition listed (remote : Remote) (room : LiveRoomList.t) : Prop :=
  exists t parentId areaId page a data,
    getLiveRoom remote t parentId areaId page = Answer a
    /\ Res.data a = Value data
    /\ room ∈ RoomPage.list data.

(** A draw that a check of the room has answered with code 0. *)
Definition checked_draw (remote : Remote) (roomid : Z) (d : LiveCheckLotteryDto.t)
  : Prop :=
  exists t r,
    checkLottery remote t roomid = Answer r
    /\ Res.code r = 0
    /\ Res.data r = Value d.

(** A checked draw that comes from the platform: a listed room with the
    time-lottery badge gives it its streamer, and a check of that room has
    answered with its draw. *)
Definition checked_from (remote : Remote) (c : CheckedLottery.t) : Prop :=
  exists room,
    listed remote room
    /\ badge_of room = Some PendentID.Time
    /\ CheckedLottery.uid c = LiveRoomList.uid room
    /\ CheckedLottery.uname c = LiveRoomList.uname room
    /\ checked_draw remote (LiveRoomList.roomid room) (CheckedLottery.dto c).


(** A lot id that a red-packet check of the room has returned: the check
    answered with code 0 and a first entry that is not closed and whose lot
    id is this one, not 0. *)
Definition checked_lot (remote : Remote) (room lot : Z) : Prop :=
  exists t a data e rest,
    checkRedPacket remote t room = Answer a
    /\ Res.code a = 0
    /\ Res.data a = Value data
    /\ RedPacketData.popularity_red_pocket data = Some (e :: rest)
    /\ RedPocket.lot_status e ≠ 2
    /\ RedPocket.lot_id e = lot
    /\ lot ≠ 0.

(** The requests of each pipeline's own draws, and the page fetches. *)
Definition is_lottery_request (e : Event) : bool :=
  match e with
  | Call (CheckLottery _) | Call (JoinLottery _ _ _) => true
  | _ => false
  end.

Definition is_redpacket_request (e : Event) : bool :=
  match e with
  | Call (CheckRedPacket _) | Call (JoinRedPacket _ _ _) => true
  | _ => false
  end.

Definition is_page_fetch (e : Event) : bool :=
  match e with
  | Call (GetLiveRoom _ _ _) => true
  | _ => false
  end.

Definition is_area_fetch (e : Event) : bool :=
  match e with
  | Call GetArea => true
  | _ => false
  end.


(** [throws_only O m]: whatever [m] throws satisfies [O]. *)
Definition throws_only {A} (O : JsError -> Prop) (m : M A) : Prop :=
  forall w e, fst (m w) = Thrown e -> O e.

(** An error that the category endpoint or the page endpoint has raised. *)
Definition fetch_error (remote : Remote) (e : JsError) : Prop :=
  (exists t, getArea remote t = Raise e)
  \/ (exists t parentId areaId page, getLiveRoom remote t parentId areaId page = Raise e).

(** The category endpoint or the page endpoint has answered without data. *)
Definition fetch_without_data (remote : Remote) : Prop :=
  (exists t r, getArea remote t = Answer r /\ forall data, Res.data r ≠ Value data)
  \/ (exists t parentId areaId page r,
         getLiveRoom remote t parentId areaId page = Answer r
         /\ forall data, Res.data r ≠ Value data).

(** A draw check has answered with code 0 and undefined data. *)
Definition check_without_data (remote : Remote) : Prop :=
  exists t roomid r,
    checkLottery remote t roomid = Answer r
    /\ Res.code r = 0
    /\ Res.data r = Undefined.

(** A configured pattern is not a regular expression. *)
Definition ill_formed_pattern (cfg : Config)
    (str_match : jsstring -> jsstring -> option bool) : Prop :=
  exists name text,
    text ∈ LOTTERY_EXCLUDE cfg ++ LOTTERY_INCLUDE cfg
    /\ str_match name text = None.


(** The plus signs of a text. *)
Definition plus_count (s : jsstring) : nat :=
  count (fun c => (c =? plus_sign)%N) s.

(** A text that does not start with whitespace. *)
Definition no_leading_space (s : jsstring) : Prop :=
  match s with
  | c :: _ => is_space c = false
  | [] => True
  end.

(** A text that ends in a code unit that is not whitespace. *)
Definition ends_plain (v : jsstring) : Prop :=
  exists c, last v = Some c /\ is_space c = false.

(** A streamer name as the requirement text carries it: no plus sign, and
    neither its first nor its last code unit is whitespace. *)
Definition plain_name (n : jsstring) : Prop :=
  Forall (fun c => c ≠ plus_sign) n
  /\ (exists c, head n = Some c /\ is_space c = false)
  /\ ends_plain n.

(** The requirement text '关注主播 first + name + ... + name'. *)
Definition requirement_text (first : jsstring) (names : list jsstring) : jsstring :=
  follow_marker ++ js " " ++ first ++ flat_map (fun n => js " + " ++ n) names.


(** ** The serverless entry point

    A shallow embedding of [src/index.fc.ts]: [dailyMain], [handler] and
    [runTasks], with the collaborators they load ([JSON5], [dailyHandler],
    [runInputBiliTask]) as oracles that answer or throw, and the calls that
    leave the module as a trace. *)

Module Fc.

(** The event of the platform, as far as the handler reads it, and the
    context it passes through. *)
Record FCEvent := { payload : option jsstring }.
Inductive FCContext := fc_context (requestId : jsstring).

(** The parsed payload, as far as [runTasks] reads it. *)
Record Payload := { task : option jsstring }.

(** The calls that leave the module. *)
Inductive Op :=
  | Notice (msg : jsstring)
  | Init (event : FCEvent) (context : FCContext)
  | RunInputBiliTask (task : jsstring)
  | Run
  | Callback (error : option JsError) (message : option jsstring).

(** The collaborators: the two parses and the two dynamic imports answer
    or throw; [dailyHandler.init], [dailyHandler.run] and
    [runInputBiliTask] also see the calls made so far. *)
Record Env := {
  parse_event : jsstring -> Outcome FCEvent;
  parse_payload : jsstring -> Outcome Payload;
  import_serverless : Outcome unit;
  import_task : Outcome unit;
  dailyHandler_init : list Op -> FCEvent -> FCContext -> Outcome unit;
  dailyHandler_run : list Op -> Outcome jsstring;
  runInputBiliTask : list Op -> jsstring -> Outcome unit;
}.

Definition FcM (A : Type) : Type := list Op -> Result A * list Op.

#[global] Instance FcM_ret : MRet FcM := fun A a t => (Ok a, t).
#[global] Instance FcM_bind : MBind FcM := fun A B f m t =>
  match m t with
  | (Ok a, t') => f a t'
  | (Thrown e, t') => (Thrown e, t')
  end.

(** [try { m } catch (error) { h error }] *)
Definition try_catch {A} (m : FcM A) (h : JsError -> FcM A) : FcM A := fun t =>
  match m t with
  | (Ok a, t') => (Ok a, t')
  | (Thrown e, t') => h e t'
  end.

(** A call without an effect on the outside: a parse, an import. *)
Definition pure {A} (o : Outcome A) : FcM A := fun t =>
  match o with
  | Answer a => (Ok a, t)
  | Raise e => (Thrown e, t)
  end.

(** A call that leaves the module. *)
Definition call {A} (op : Op) (o : list Op -> Outcome A) : FcM A := fun t =>
  match o t with
  | Answer a => (Ok a, t ++ [op])
  | Raise e => (Thrown e, t ++ [op])
  end.

(** The truthiness of an optional string: undefined and the empty string
    are falsy. *)
Definition truthy (s : option jsstring) : option jsstring :=
  match s with
  | Some (c :: s') => Some (c :: s')
  | _ => None
  end.

(** The literal '阿里云 FC 测试ing'. *)
Definition default_notice : jsstring :=
  [0x963F; 0x91CC; 0x4E91; 0x20; 0x46; 0x43; 0x20; 0x6D4B; 0x8BD5; 0x69; 0x6E; 0x67]%N.

Definition success : jsstring := js "success".

Section Handler.

Variable env : Env.

(** [defLogger.info(msg || default)] *)
Definition notice (msg : option jsstring) : FcM unit :=
  call (Notice (default default_notice (truthy msg))) (fun _ => Answer tt).

(** The platform's callback, which does not throw. *)
Definition callback (error : option JsError) (message : option jsstring) : FcM unit :=
  call (Callback error message) (fun _ => Answer tt).

Definition dailyMain : FcM jsstring :=
  notice None;;
  pure (import_serverless env);;
  call Run (dailyHandler_run env).

Definition runTasks (payload : jsstring) : FcM bool :=
  try_catch
    (pure (import_task env);;
     payloadJson ← pure (parse_payload env payload);
     match truthy (task payloadJson) with
     | Some task =>
         call (RunInputBiliTask task) (fun t => runInputBiliTask env t task);;
         mret true
     | None => mret false
     end)
    (fun _ => mret false).

Definition handler (event : jsstring) (context : FCContext) : FcM unit :=
  try_catch
    (eventJson ← pure (parse_event env event);
     pure (import_serverless env);;
     call (Init eventJson context)
          (fun t => dailyHandler_init env t eventJson context);;
     isReturn ← match truthy (payload eventJson) with
                | Some payload => runTasks payload
                | None => mret false
                end;
     if isReturn : bool then callback None (Some success)
     else
       message ← dailyMain;
       callback None (Some message))
    (fun error => callback (Some error) None).

End Handler.

(** The callbacks of a trace, and whether a call runs the daily tasks. *)
Definition is_callback (op : Op) : bool :=
  match op with
  | Callback _ _ => true
  | _ => false
  end.

Definition is_run (op : Op) : bool :=
  match op with
  | Run => true
  | _ => false
  end.

Definition is_task (op : Op) : bool :=
  match op with
  | RunInputBiliTask _ => true
  | _ => false
  end.

End Fc.


(** The task of a payload runs to its end: the task module loads, the
    payload parses to an object with a non-empty task, and the task returns
    when started after the calls [t]. *)
Definition task_completes (env : Fc.Env) (payload : jsstring) (t : list Fc.Op) : Prop :=
  exists u pj task,
    Fc.import_task env = Answer u
    /\ Fc.parse_payload env payload = Answer pj
    /\ Fc.truthy (Fc.task pj) = Some task
    /\ Fc.runInputBiliTask env t task = Answer tt.


(** ** Further concrete platforms *)

Module MoreExamples.
Import Examples.

(** A platform whose category endpoint throws, one whose page endpoint
    throws, and one that refuses every join. *)
Definition area_down_platform : Remote :=
  {| getArea := fun _ => Raise timeout;
     getLiveRoom := getLiveRoom follow_platform;
     checkLottery := checkLottery follow_platform;
     joinLottery := joinLottery follow_platform;
     checkRedPacket := checkRedPacket follow_platform;
     joinRedPacket := joinRedPacket follow_platform |}.

Definition page_down_platform : Remote :=
  {| getArea := getArea follow_platform;
     getLiveRoom := fun _ _ _ _ => Raise timeout;
     checkLottery := checkLottery follow_platform;
     joinLottery := joinLottery follow_platform;
     checkRedPacket := checkRedPacket follow_platform;
     joinRedPacket := joinRedPacket follow_platform |}.

Definition refused : Res.t unit :=
  {| Res.code := -1; Res.message := js "refused"; Res.data := tt |}.

Definition refusing_platform : Remote :=
  {| getArea := getArea open_platform;
     getLiveRoom := getLiveRoom open_platform;
     checkLottery := fun _ _ => ok_data follow_draw;
     joinLottery := fun _ _ _ _ => Answer refused;
     checkRedPacket := checkRedPacket open_platform;
     joinRedPacket := fun _ _ _ _ => Answer refused |}.

(** A red-packet platform whose list of entries is empty. *)
Definition empty_list_platform : Remote :=
  platform [room7 PendentID.RedPacket] Null (Some []).

(** A configuration that blacklists streamer 7. *)
Definition blacklist_config : Config :=
  {| LOTTERY_UP_BLACKLIST := [7]; LOTTERY_EXCLUDE := []; LOTTERY_INCLUDE := [];
     LOTTERY_PAGE_NUM := 2; userLevel := 3 |}.

Definition follow_candidate : RedPacket.t :=
  {| RedPacket.uid := 7; RedPacket.uname := js "up7";
     RedPacket.lot_id := 5; RedPacket.room_id := 70 |}.

(** A serverless environment: every event carries the payload "p", which
    parses to the task "live"; everything loads, and the task and the
    daily run return. *)
Definition fc_env : Fc.Env :=
  {| Fc.parse_event := fun _ => Answer {| Fc.payload := Some (js "p") |};
     Fc.parse_payload := fun _ => Answer {| Fc.task := Some (js "live") |};
     Fc.import_serverless := Answer tt;
     Fc.import_task := Answer tt;
     Fc.dailyHandler_init := fun _ _ _ => Answer tt;
     Fc.dailyHandler_run := fun _ => Answer (js "done");
     Fc.runInputBiliTask := fun _ _ => Answer tt |}.

Definition fc_ctx : Fc.FCContext := Fc.fc_context (js "r1").

End MoreExamples.

(** * Verification *)

(** ** Running the monad *)

Ltac run :=
  unfold mbind, mret, M_bind, M_ret, try_catch, throw, logger_info,
    logger_debug, logger_error, logger, apiDelay, request, get_newFollowUp,
    assign_newFollowUp, new_array, read, evaluate; simpl.

Lemma bind_run {A B} (m : M A) (f : A -> M B) w :
  (m ≫= f) w =
  match m w with
  | (Ok a, w') => f a w'
  | (Thrown e, w') => (Thrown e, w')
  end.
Proof. reflexivity. Qed.

Lemma try_catch_run {A} (m : M A) h w :
  try_catch m h w =
  match m w with
  | (Ok a, w') => (Ok a, w')
  | (Thrown e, w') => h e w'
  end.
Proof. reflexivity. Qed.

(** ** Arrays *)

Lemma pushIfNotExist_run l xs item w :
  heap w !! l = Some xs ->
  pushIfNotExist (Some l) item w =
  (Ok tt, if bool_decide (item ∈ xs) then w
          else set_heap (<[l := xs ++ [item]]> (heap w)) w).
Proof.
  intros H. unfold pushIfNotExist, includes, push. run. rewrite H.
  destruct (bool_decide (item ∈ xs)); simpl; [reflexivity|].
  rewrite H. reflexivity.
Qed.

(** ** The category fetcher *)

(** C5 (as amended): when the category endpoint answers (nothing thrown)
    with a code other than 0, [getLiveArea] logs the failure once. If the
    answer carries data, it returns the transform of that data and throws
    nothing. If the answer carries no data, reading it throws a TypeError,
    which [getLiveArea] logs at error level and throws again, and either
    pipeline stops with that error right after the category request. *)
Theorem getLiveArea_soft_failure cfg remote str_match (w : World)
    (r : Res.t (Field AreaData.t)) :
  getArea remote (trace w) = Answer r ->
  Res.code r ≠ 0 ->
  let failed w :=
    add_log (Info (AreaFailed (Res.code r) (Res.message r)))
            (add_event (Call GetArea) w) in
  (forall data,
      Res.data r = Value data ->
      getLiveArea remote w = (Ok (area_transform data), failed w))
  /\ ((forall data, Res.data r ≠ Value data) ->
      getLiveArea remote w
      = (Thrown TypeError, add_log (Error (AreaException TypeError)) (failed w))
      /\ liveLotteryService cfg remote str_match w
         = (Thrown TypeError,
            add_log (Error (AreaException TypeError)) (failed (reset w)))
      /\ liveRedPackService cfg remote w
         = (Thrown TypeError,
            add_log (Error (AreaException TypeError)) (failed (reset w)))).
Proof.
  intros Hr Hc failed. split.
  - intros data Hd. unfold getLiveArea. run. rewrite Hr. simpl.
    destruct (decide (Res.code r ≠ 0)) as [_|Hn]; [|contradiction].
    simpl. rewrite Hd. reflexivity.
  - intros Hd. unfold liveLotteryService, liveRedPackService, getLiveArea. run.
    rewrite Hr. simpl.
    destruct (decide (Res.code r ≠ 0)) as [_|Hn]; [|contradiction].
    simpl. destruct (Res.data r) as [| |data] eqn:E; [auto..|].
    destruct (Hd data eq_refl).
Qed.

(** ** The eligibility filter *)

Section Filter.
Context (cfg : Config) (remote : Remote) (str_match : jsstring -> jsstring -> option bool).

(** What [checkLotteryRoom] does once the remote has answered with code
    0. *)
Lemma checkLotteryRoom_answer (room : LiveRoomList.t) w r :
  LiveRoomList.uid room ∉ LOTTERY_UP_BLACKLIST cfg ->
  checkLottery remote (trace w) (LiveRoomList.roomid room) = Answer r ->
  Res.code r = 0 ->
  checkLotteryRoom cfg remote str_match room w =
  let w' := add_event (Call (CheckLottery (LiveRoomList.roomid room))) w in
  match Res.data r with
  | Null => (Ok None, w')
  | Undefined => (Thrown TypeError, w')
  | Value data =>
      match isExclude cfg str_match data, isInclude cfg str_match data with
      | Some excluded, Some included => verdict cfg data excluded included w'
      | _, _ => (Thrown SyntaxError, w')
      end
  end.
Proof.
  intros Hb Hr Hc. unfold checkLotteryRoom.
  rewrite bool_decide_eq_false_2 by exact Hb.
  run. rewrite Hr. simpl.
  destruct (decide (Res.code r ≠ 0)) as [Hn|_]; [congruence|].
  destruct (Res.data r) as [| |data]; try reflexivity.
  destruct (isExclude cfg str_match data) as [excluded|]; simpl; [|reflexivity].
  destruct (isInclude cfg str_match data) as [included|]; simpl; [|reflexivity].
  unfold verdict.
  repeat match goal with |- context [if ?b then _ else _] => destruct b; simpl end;
    reflexivity.
Qed.

(** What [checkLotteryRoom] does once the remote has answered with a draw
    and the two pattern tests have evaluated. *)
Lemma checkLotteryRoom_draw (room : LiveRoomList.t) w r data excluded included :
  LiveRoomList.uid room ∉ LOTTERY_UP_BLACKLIST cfg ->
  checkLottery remote (trace w) (LiveRoomList.roomid room) = Answer r ->
  Res.code r = 0 ->
  Res.data r = Value data ->
  isExclude cfg str_match data = Some excluded ->
  isInclude cfg str_match data = Some included ->
  checkLotteryRoom cfg remote str_match room w =
  verdict cfg data excluded included
    (add_event (Call (CheckLottery (LiveRoomList.roomid room))) w).
Proof.
  intros Hb Hr Hc Hd Hx Hi.
  rewrite (checkLotteryRoom_answer room w r Hb Hr Hc). simpl.
  rewrite Hd, Hx, Hi. reflexivity.
Qed.

End Filter.

(** C7: a draw that passes the earlier filters (the pattern tests evaluate
    and do not exclude it, status enabled, gift price zero) and requires a
    level [v] is accepted when the configured user level is at least [v],
    and skipped otherwise. *)
Theorem checkLotteryRoom_level cfg remote str_match (room : LiveRoomList.t) w r data
    excluded included :
  LiveRoomList.uid room ∉ LOTTERY_UP_BLACKLIST cfg ->
  checkLottery remote (trace w) (LiveRoomList.roomid room) = Answer r ->
  Res.code r = 0 ->
  Res.data r = Value data ->
  isExclude cfg str_match data = Some excluded ->
  isInclude cfg str_match data = Some included ->
  negb included && excluded = false ->
  LiveCheckLotteryDto.status data = TianXuanStatus.Enabled ->
  LiveCheckLotteryDto.gift_price data = 0 ->
  LiveCheckLotteryDto.require_type data = RequireType.Level ->
  (fst (checkLotteryRoom cfg remote str_match room w) = Ok (Some data)
   <-> userLevel cfg >= LiveCheckLotteryDto.require_value data)
  /\ (fst (checkLotteryRoom cfg remote str_match room w) = Ok None
      <-> userLevel cfg < LiveCheckLotteryDto.require_value data).
Proof.
  intros Hb Hr Hc Hd He Hi Hx Hs Hp Ht.
  rewrite (checkLotteryRoom_draw cfg remote str_match room w r data excluded included
             Hb Hr Hc Hd He Hi).
  unfold verdict. rewrite Hx, Hs, Hp, Ht. simpl.
  destruct (bool_decide_reflect (userLevel cfg >= LiveCheckLotteryDto.require_value data));
    simpl; split; split; intros; try discriminate; try reflexivity; lia.
Qed.


(** ** Traces: what a computation emits *)

Section Emits.

Lemma emits_conseq {A} (m : M A) (Q Q' : Result A -> list Event -> Prop) :
  emits m Q -> (forall r evs, Q r evs -> Q' r evs) -> emits m Q'.
Proof.
  intros Hm HQ w. destruct (Hm w) as (evs & Ht & Hq). eauto.
Qed.

Lemma emits_ret {A} (a : A) (Q : Result A -> list Event -> Prop) :
  Q (Ok a) [] -> emits (mret a) Q.
Proof. intros HQ w. exists []. simpl. rewrite app_nil_r. auto. Qed.

Lemma emits_throw {A} e (Q : Result A -> list Event -> Prop) :
  Q (Thrown e) [] -> emits (throw e) Q.
Proof. intros HQ w. exists []. simpl. rewrite app_nil_r. auto. Qed.

Lemma emits_bind {A B} (m : M A) (f : A -> M B) Q1 Q2
    (Q : Result B -> list Event -> Prop) :
  emits m Q1 ->
  (forall a, emits (f a) (Q2 a)) ->
  (forall e evs, Q1 (Thrown e) evs -> Q (Thrown e) evs) ->
  (forall a evs1 r evs2, Q1 (Ok a) evs1 -> Q2 a r evs2 -> Q r (evs1 ++ evs2)) ->
  emits (m ≫= f) Q.
Proof.
  intros Hm Hf Hthrow Hok w. rewrite bind_run.
  destruct (Hm w) as (evs1 & Ht1 & Hq1).
  destruct (m w) as [[a|e] w1]; simpl in *.
  - destruct (Hf a w1) as (evs2 & Ht2 & Hq2).
    exists (evs1 ++ evs2). rewrite Ht2, Ht1, app_assoc. eauto.
  - exists evs1. eauto.
Qed.

Lemma emits_try_catch {A} (m : M A) (h : JsError -> M A) Q1 Q2
    (Q : Result A -> list Event -> Prop) :
  emits m Q1 ->
  (forall e, emits (h e) (Q2 e)) ->
  (forall a evs, Q1 (Ok a) evs -> Q (Ok a) evs) ->
  (forall e evs1 r evs2, Q1 (Thrown e) evs1 -> Q2 e r evs2 -> Q r (evs1 ++ evs2)) ->
  emits (try_catch m h) Q.
Proof.
  intros Hm Hh Hok Hthrow w. rewrite try_catch_run.
  destruct (Hm w) as (evs1 & Ht1 & Hq1).
  destruct (m w) as [[a|e] w1]; simpl in *.
  - exists evs1. eauto.
  - destruct (Hh e w1) as (evs2 & Ht2 & Hq2).
    exists (evs1 ++ evs2). rewrite Ht2, Ht1, app_assoc. eauto.
Qed.

Lemma emits_logger e (Q : Result unit -> list Event -> Prop) :
  Q (Ok tt) [] -> emits (logger e) Q.
Proof. intros HQ w. exists []. simpl. rewrite app_nil_r. auto. Qed.

Lemma emits_apiDelay ms (Q : Result unit -> list Event -> Prop) :
  Q (Ok tt) [Delay ms] -> emits (apiDelay ms) Q.
Proof. intros HQ w. exists [Delay ms]. simpl. auto. Qed.

Lemma emits_request {A} r (remote : list Event -> Outcome A)
    (Q : Result A -> list Event -> Prop) :
  (forall t a, remote t = Answer a -> Q (Ok a) [Call r]) ->
  (forall t e, remote t = Raise e -> Q (Thrown e) [Call r]) ->
  emits (request r remote) Q.
Proof.
  intros Ha He w. exists [Call r]. unfold request.
  destruct (remote (trace w)) eqn:E; simpl; eauto.
Qed.

Lemma emits_silent {A} (m : M A) (Q : Result A -> list Event -> Prop) :
  silent m -> (forall r, Q r []) -> emits m Q.
Proof. intros Hs HQ w. exists []. rewrite app_nil_r. auto. Qed.

End Emits.

(** ** Computations that leave the trace alone *)

Lemma silent_ret {A} (a : A) : silent (mret a).
Proof. intros w. reflexivity. Qed.

Lemma silent_throw {A} e : silent (@throw A e).
Proof. intros w. reflexivity. Qed.

Lemma silent_logger e : silent (logger e).
Proof. intros w. reflexivity. Qed.

Lemma silent_bind {A B} (m : M A) (f : A -> M B) :
  silent m -> (forall a, silent (f a)) -> silent (m ≫= f).
Proof.
  intros Hm Hf w. rewrite bind_run. specialize (Hm w).
  destruct (m w) as [[a|e] w1]; simpl in *; [|exact Hm].
  rewrite Hf. exact Hm.
Qed.

Lemma silent_try_catch {A} (m : M A) h :
  silent m -> (forall e, silent (h e)) -> silent (try_catch m h).
Proof.
  intros Hm Hh w. rewrite try_catch_run. specialize (Hm w).
  destruct (m w) as [[a|e] w1]; simpl in *; [exact Hm|].
  rewrite Hh. exact Hm.
Qed.

Lemma silent_for_of {A S} (xs : list A) (body : S -> A -> M S) s :
  (forall s x, silent (body s x)) -> silent (for_of xs body s).
Proof.
  intros Hb. revert s. induction xs as [|x xs IH]; intros s; simpl.
  - apply silent_ret.
  - apply silent_bind; auto.
Qed.

Lemma silent_get_newFollowUp : silent get_newFollowUp.
Proof. intros w. reflexivity. Qed.

Lemma silent_assign_newFollowUp l : silent (assign_newFollowUp l).
Proof. intros w. reflexivity. Qed.

Lemma silent_new_array : silent new_array.
Proof. intros w. reflexivity. Qed.

Lemma silent_push a item : silent (push a item).
Proof.
  intros w. unfold push. destruct a as [l|]; [|reflexivity].
  destruct (heap w !! l); reflexivity.
Qed.

Lemma silent_pushIfNotExist a item : silent (pushIfNotExist a item).
Proof.
  unfold pushIfNotExist. apply silent_bind.
  - intros w. unfold includes. destruct a as [l|]; [|reflexivity].
    destruct (heap w !! l); reflexivity.
  - intros [|]; [apply silent_ret|apply silent_push].
Qed.

Lemma silent_read {A} (data : Field A) : silent (read data).
Proof. intros w. destruct data; reflexivity. Qed.

Lemma silent_evaluate test : silent (evaluate test).
Proof. intros w. destruct test; reflexivity. Qed.

Ltac silence :=
  repeat first
    [ apply silent_ret | apply silent_logger | apply silent_throw
    | apply silent_read | apply silent_evaluate
    | apply silent_get_newFollowUp | apply silent_pushIfNotExist
    | apply silent_bind; [|intros ?]
    | apply silent_for_of; intros ? ? ].

Lemma emits_silent_nil {A} (m : M A) :
  silent m -> emits m (fun _ evs => evs = []).
Proof. intros Hs. apply emits_silent; auto. Qed.

(** ** Closed properties of traces *)

Section Closed.
Context (P : list Event -> Prop) (HP : closed P).

Lemma closed_silent {A} (m : M A) : silent m -> emits m (fun _ evs => P evs).
Proof. intros Hs. apply emits_silent; [exact Hs|]. intros _. apply HP. Qed.

Lemma closed_bind {A B} (m : M A) (f : A -> M B) :
  emits m (fun _ evs => P evs) ->
  (forall a, emits (f a) (fun _ evs => P evs)) ->
  emits (m ≫= f) (fun _ evs => P evs).
Proof.
  intros Hm Hf.
  apply (emits_bind m f (fun _ evs => P evs) (fun _ _ evs => P evs)); auto.
  intros. apply HP; assumption.
Qed.

Lemma closed_try_catch {A} (m : M A) h :
  emits m (fun _ evs => P evs) ->
  (forall e, emits (h e) (fun _ evs => P evs)) ->
  emits (try_catch m h) (fun _ evs => P evs).
Proof.
  intros Hm Hh.
  apply (emits_try_catch m h (fun _ evs => P evs) (fun _ _ evs => P evs)); auto.
  intros. apply HP; assumption.
Qed.

Lemma closed_for_of {A S} (xs : list A) (body : S -> A -> M S) s :
  (forall s x, x ∈ xs -> emits (body s x) (fun _ evs => P evs)) ->
  emits (for_of xs body s) (fun _ evs => P evs).
Proof.
  revert s. induction xs as [|x xs IH]; intros s Hb; simpl.
  - apply emits_ret, HP.
  - apply closed_bind.
    + apply Hb. left.
    + intros s'. apply IH. intros s'' y Hy. apply Hb. right. exact Hy.
Qed.

Lemma closed_request {A} r (remote : list Event -> Outcome A) :
  P [Call r] -> emits (request r remote) (fun _ evs => P evs).
Proof. intros Hr. apply emits_request; auto. Qed.

Lemma closed_apiDelay ms :
  P [Delay ms] -> emits (apiDelay ms) (fun _ evs => P evs).
Proof. intros Hd. apply emits_apiDelay; auto. Qed.

(** The category fetcher and the page fetcher. *)
Lemma closed_getLiveArea remote :
  P [Call GetArea] -> emits (getLiveArea remote) (fun _ evs => P evs).
Proof.
  intros Hc. unfold getLiveArea. apply closed_try_catch.
  - apply closed_bind; [apply closed_request, Hc|]. intros r.
    apply closed_silent. destruct (decide _); silence.
  - intros e. apply closed_silent. silence.
Qed.

Lemma closed_getLotteryRoomList remote areaId parentId page lotType :
  P [Delay 100] -> P [Call (GetLiveRoom parentId areaId page)] ->
  emits (getLotteryRoomList remote areaId parentId page lotType)
        (fun _ evs => P evs).
Proof.
  intros Hd Hc. unfold getLotteryRoomList. apply closed_try_catch.
  - apply closed_bind; [apply closed_apiDelay, Hd|]. intros _.
    apply closed_bind; [apply closed_request, Hc|]. intros r.
    apply closed_silent. destruct (decide _); silence.
  - intros e. apply closed_silent. silence.
Qed.

(** A pipeline: reset, fetch the categories, run [doArea] on each. *)
Lemma closed_pipeline cfg remote (doArea : jsstring -> jsstring -> Z -> M unit) :
  P [Call GetArea] ->
  (forall areaId parentId num, emits (doArea areaId parentId num) (fun _ evs => P evs)) ->
  emits (l ← new_array;
         assign_newFollowUp l;;
         areaList ← getLiveArea remote;
         for_areas cfg doArea areaList;;
         get_newFollowUp)
        (fun _ evs => P evs).
Proof.
  intros Hc Ha.
  apply closed_bind; [apply closed_silent, silent_new_array|]. intros l.
  apply closed_bind; [apply closed_silent, silent_assign_newFollowUp|]. intros _.
  apply closed_bind; [apply closed_getLiveArea, Hc|]. intros areaList.
  apply closed_bind; [|intros; apply closed_silent, silent_get_newFollowUp].
  unfold for_areas. apply closed_for_of. intros _ areas _.
  apply closed_for_of. intros _ area _. apply Ha.
Qed.

End Closed.

(** ** The per-room steps *)

Section Rooms.
Context (cfg : Config) (remote : Remote) (str_match : jsstring -> jsstring -> option bool).

Lemma getRedPacketId_run roomId w :
  getRedPacketId remote roomId w =
  (Ok (lot_of (checkRedPacket remote (trace w) roomId)),
   add_event (Call (CheckRedPacket roomId)) w).
Proof.
  unfold getRedPacketId, lot_of, first_entry. run.
  destruct (checkRedPacket remote (trace w) roomId) as [r|e]; simpl; [|reflexivity].
  destruct (decide (Res.code r ≠ 0)); simpl; [reflexivity|].
  destruct (Res.data r) as [| |data]; simpl; try reflexivity.
  destruct (RedPacketData.popularity_red_pocket data) as [[|e l]|];
    simpl; try reflexivity.
  destruct (decide (RedPocket.lot_status e = 2)); reflexivity.
Qed.

(** One room of [getRedPacketRoom]: a check, and for a candidate a delay. *)
Lemma getRedPacketRoom_body_emits acc room :
  emits (getRedPacketRoom_body remote acc room)
    (fun res evs => exists t,
       match truthy (lot_of (checkRedPacket remote t (LiveRoomList.roomid room))) with
       | Some lotId =>
           res = Ok (acc ++ [candidate room lotId])
           /\ evs = [Call (CheckRedPacket (LiveRoomList.roomid room)); Delay 100]
       | None =>
           res = Ok acc /\ evs = [Call (CheckRedPacket (LiveRoomList.roomid room))]
       end).
Proof.
  intros w. unfold getRedPacketRoom_body. rewrite bind_run, getRedPacketId_run.
  destruct (truthy (lot_of (checkRedPacket remote (trace w) (LiveRoomList.roomid room))))
    as [lotId|] eqn:E.
  - exists [Call (CheckRedPacket (LiveRoomList.roomid room)); Delay 100].
    run. rewrite <- app_assoc. split; [reflexivity|].
    exists (trace w). rewrite E. split; reflexivity.
  - exists [Call (CheckRedPacket (LiveRoomList.roomid room))].
    run. split; [reflexivity|].
    exists (trace w). rewrite E. split; reflexivity.
Qed.

(** The loop of [getRedPacketRoom], for a relation [R] between the rooms
    it visits, the candidates it adds and the operations it emits. *)
Lemma getRedPacketRoom_loop_emits
    (R : list LiveRoomList.t -> list RedPacket.t -> list Event -> Prop) :
  R [] [] [] ->
  (forall room rooms t lotId l evs,
      truthy (lot_of (checkRedPacket remote t (LiveRoomList.roomid room))) = Some lotId ->
      R rooms l evs ->
      R (room :: rooms) (candidate room lotId :: l)
        (Call (CheckRedPacket (LiveRoomList.roomid room)) :: Delay 100 :: evs)) ->
  (forall room rooms t l evs,
      truthy (lot_of (checkRedPacket remote t (LiveRoomList.roomid room))) = None ->
      R rooms l evs ->
      R (room :: rooms) l (Call (CheckRedPacket (LiveRoomList.roomid room)) :: evs)) ->
  forall rooms acc,
    emits (for_of rooms (getRedPacketRoom_body remote) acc)
      (fun res evs => exists l, res = Ok (acc ++ l) /\ R rooms l evs).
Proof.
  intros Hnil Hcand Hskip.
  induction rooms as [|room rooms IH]; intros acc; simpl.
  - apply emits_ret. exists []. rewrite app_nil_r. auto.
  - eapply emits_bind.
    + apply getRedPacketRoom_body_emits.
    + intros acc'. apply IH.
    + simpl. intros e evs (t & Ht).
      destruct (truthy _); destruct Ht; discriminate.
    + simpl. intros acc' evs1 r evs2 (t & Ht) (l & -> & HR).
      destruct (truthy _) as [lotId|] eqn:E; destruct Ht as [[= ->] ->].
      * exists (candidate room lotId :: l). rewrite <- app_assoc. split; [reflexivity|].
        simpl. eapply Hcand; eauto.
      * exists l. split; [reflexivity|]. simpl. eapply Hskip; eauto.
Qed.

(** [doRedPacket] sends the join request and never throws. *)
Lemma doRedPacket_emits (p : RedPacket.t) :
  emits (doRedPacket remote p) (fun res evs => res = Ok tt /\ evs = [join_of p]).
Proof.
  intros w. exists [join_of p]. unfold doRedPacket, push. run.
  destruct (joinRedPacket remote (trace w) _ _ _) as [r|e]; simpl; [|auto].
  destruct (decide (Res.code r ≠ 0)); simpl; [auto|].
  destruct (newFollowUp w) as [l|]; simpl; [|auto].
  destruct (heap w !! l); simpl; auto.
Qed.

(** The join loop of a red-packet page: each candidate is joined once, and
    a delay of 200ms follows. *)
Lemma doRedPackArea_rooms_emits (rooms : list RedPacket.t) :
  emits (for_of rooms (doRedPackArea_room remote) tt)
    (fun res evs =>
       res = Ok tt /\ evs = flat_map (fun p => [join_of p; Delay 200]) rooms).
Proof.
  induction rooms as [|p rooms IH]; simpl.
  - apply emits_ret. auto.
  - apply (emits_bind _ _
             (fun res evs => res = Ok tt /\ evs = [join_of p; Delay 200])
             (fun _ res evs =>
                res = Ok tt /\ evs = flat_map (fun p => [join_of p; Delay 200]) rooms)).
    + unfold doRedPackArea_room.
      apply (emits_bind _ _
               (fun res evs => res = Ok tt /\ evs = [join_of p])
               (fun _ res evs => res = Ok tt /\ evs = [Delay 200])).
      * apply doRedPacket_emits.
      * intros u. apply emits_apiDelay. auto.
      * intros e evs [? _]. discriminate.
      * intros u evs1 r evs2 [_ ->] [-> ->]. auto.
    + intros []. apply IH.
    + intros e evs [? _]. discriminate.
    + intros u evs1 r evs2 [_ ->] [-> ->]. auto.
Qed.

End Rooms.

(** ** Lists of operations *)

Lemma count_app {A} (p : A -> bool) (l1 l2 : list A) :
  count p (l1 ++ l2) = (count p l1 + count p l2)%nat.
Proof. induction l1 as [|x l1 IH]; simpl; [reflexivity|]. rewrite IH. lia. Qed.

Lemma followed_by_app p d (a b : list Event) :
  followed_by p d a -> followed_by p d b -> followed_by p d (a ++ b).
Proof.
  induction a as [|e a IH]; simpl; [auto|].
  intros [He Ha] Hb. split; [|auto].
  intros Hp. specialize (He Hp). destruct a; [discriminate|exact He].
Qed.

Lemma followed_by_closed p d : closed (followed_by p d).
Proof. split; [exact I|apply followed_by_app]. Qed.

Lemma followed_by_none p d (t : list Event) :
  Forall (fun e => p e = false) t -> followed_by p d t.
Proof.
  induction 1 as [|e t He _ IH]; simpl; [exact I|].
  split; [|exact IH]. intros Hp. congruence.
Qed.

Lemma followed_by_pairs {A} p d (j : A -> Event) (l : list A) :
  p d = false -> followed_by p d (flat_map (fun x => [j x; d]) l).
Proof.
  intros Hd. induction l as [|x l IH]; simpl; [exact I|].
  split; [auto|]. split; [|exact IH]. intros Hp. congruence.
Qed.

Lemma count_pairs {A} (p : Event -> bool) (q : A -> bool) d (j : A -> Event) (l : list A) :
  p d = false -> (forall x, p (j x) = q x) ->
  count p (flat_map (fun x => [j x; d]) l) = count q l.
Proof.
  intros Hd Hj. induction l as [|x l IH]; simpl; [reflexivity|].
  rewrite Hd, Hj, IH. lia.
Qed.

Lemma emits_emitted {A} (m : M A) Q w :
  emits m Q -> Q (fst (m w)) (emitted m w).
Proof.
  intros Hm. destruct (Hm w) as (evs & Ht & HQ).
  unfold emitted. rewrite Ht, drop_app_length. exact HQ.
Qed.

(** ** The red-packet pipeline *)

Section RedPack.
Context (cfg : Config) (remote : Remote).

Lemma getLotteryRoomList_emits areaId parentId page lotType :
  emits (getLotteryRoomList remote areaId parentId page lotType)
    (fun _ evs => evs = [Delay 100; Call (GetLiveRoom parentId areaId page)]).
Proof.
  intros w. exists [Delay 100; Call (GetLiveRoom parentId areaId page)].
  split; [|reflexivity]. unfold getLotteryRoomList. run.
  destruct (getLiveRoom remote _ parentId areaId page) as [r|e]; simpl.
  - destruct (decide (Res.code r ≠ 0)); simpl;
      destruct (Res.data r); simpl; rewrite <- app_assoc; reflexivity.
  - rewrite <- app_assoc; reflexivity.
Qed.

(** One page of the red-packet pipeline: the page fetch, then the checks
    with the candidates [l] they yield, then a join and a delay of 200ms
    for each candidate. *)
Lemma doRedPackArea_page_emits (R : list RedPacket.t -> list Event -> Prop)
    areaId parentId page :
  R [] [] ->
  (forall room t lotId l evs,
      truthy (lot_of (checkRedPacket remote t (LiveRoomList.roomid room))) = Some lotId ->
      R l evs ->
      R (candidate room lotId :: l)
        (Call (CheckRedPacket (LiveRoomList.roomid room)) :: Delay 100 :: evs)) ->
  (forall room t l evs,
      truthy (lot_of (checkRedPacket remote t (LiveRoomList.roomid room))) = None ->
      R l evs ->
      R l (Call (CheckRedPacket (LiveRoomList.roomid room)) :: evs)) ->
  emits (doRedPackArea_page remote areaId parentId tt page)
    (fun _ evs => exists l evs1,
       R l evs1
       /\ evs = [Delay 100; Call (GetLiveRoom parentId areaId page)]
                ++ evs1 ++ flat_map (fun p => [join_of p; Delay 200]) l).
Proof.
  intros Hnil Hcand Hskip. unfold doRedPackArea_page.
  eapply emits_bind with
    (Q1 := fun res evs => exists l evs1,
             R l evs1
             /\ evs = [Delay 100; Call (GetLiveRoom parentId areaId page)] ++ evs1
             /\ (res = Ok l \/ (l = [] /\ exists e, res = Thrown e)))
    (Q2 := fun l res evs => evs = flat_map (fun p => [join_of p; Delay 200]) l).
  - unfold getRedPacketRoom. eapply emits_bind.
    + apply getLotteryRoomList_emits.
    + intros rooms.
      apply (getRedPacketRoom_loop_emits remote (fun _ => R)); [exact Hnil| |].
      * intros. eapply Hcand; eauto.
      * intros. eapply Hskip; eauto.
    + simpl. intros e evs ->. exists [], []. simpl. eauto 6.
    + simpl. intros rooms evs1 r evs2 -> (l & -> & HR). exists l, evs2. auto.
  - intros l. eapply emits_conseq; [apply doRedPackArea_rooms_emits|].
    simpl. intros r evs [_ ->]. reflexivity.
  - simpl. intros e evs (l & evs1 & HR & -> & [?|[-> _]]); [discriminate|].
    exists [], evs1. simpl. rewrite app_nil_r. auto.
  - simpl. intros l' evs1 r evs2 (l & evs0 & HR & -> & [[= ->]|[_ [e ?]]]) ->;
      [|discriminate].
    exists l, evs0. auto.
Qed.

(** The whole pipeline, for a closed property that every page has. *)
Lemma liveRedPackService_emits (P : list Event -> Prop) :
  closed P -> P [Call GetArea] ->
  (forall areaId parentId page,
      emits (doRedPackArea_page remote areaId parentId tt page) (fun _ evs => P evs)) ->
  emits (liveRedPackService cfg remote) (fun _ evs => P evs).
Proof.
  intros HP Hc Hpage. apply closed_pipeline; auto.
  intros areaId parentId num. unfold doRedPackArea.
  apply closed_for_of; auto. intros [] page _. apply Hpage.
Qed.

End RedPack.

(** ** Candidates and joins of one room *)

Section OneRoom.
Context (cfg : Config) (remote : Remote) (r : Z).

Lemma count_false {A} (l : list A) : count (fun _ => false) l = 0%nat.
Proof. induction l; simpl; auto. Qed.

Lemma count_join_pairs (l : list RedPacket.t) :
  count (is_join_of r) (flat_map (fun p => [join_of p; Delay 200]) l)
  = count (fun p => bool_decide (RedPacket.room_id p = r)) l.
Proof. apply count_pairs; reflexivity. Qed.

Lemma count_check_pairs (l : list RedPacket.t) :
  count (is_check_of r) (flat_map (fun p => [join_of p; Delay 200]) l) = 0%nat.
Proof.
  rewrite (count_pairs _ (fun _ => false)); [apply count_false|reflexivity..].
Qed.

Lemma closed_no_join : closed (fun evs => count (is_join_of r) evs = 0%nat).
Proof. split; [reflexivity|]. intros a b Ha Hb. rewrite count_app. lia. Qed.

Lemma closed_join_eq_check :
  closed (fun evs => count (is_join_of r) evs = count (is_check_of r) evs).
Proof. split; [reflexivity|]. intros a b Ha Hb. rewrite !count_app. lia. Qed.

(** A room whose check never yields a truthy lot id. *)
Section Never.
Hypothesis never : forall t, truthy (lot_of (checkRedPacket remote t r)) = None.

Let R (l : list RedPacket.t) (evs : list Event) : Prop :=
  Forall (fun p => RedPacket.room_id p ≠ r) l
  /\ count (is_join_of r) evs = 0%nat.

Lemma never_R_cand (room : LiveRoomList.t) t lotId l evs :
  truthy (lot_of (checkRedPacket remote t (LiveRoomList.roomid room))) = Some lotId ->
  R l evs ->
  R (candidate room lotId :: l)
    (Call (CheckRedPacket (LiveRoomList.roomid room)) :: Delay 100 :: evs).
Proof.
  intros Ht [Hl Hc]. split; [|exact Hc].
  constructor; [|exact Hl]. simpl. intros E. rewrite E, never in Ht. discriminate.
Qed.

Lemma never_candidate_excluded areaId parentId page w l :
  fst (getRedPacketRoom remote areaId parentId page w) = Ok l ->
  Forall (fun p => RedPacket.room_id p ≠ r) l.
Proof.
  assert (emits (getRedPacketRoom remote areaId parentId page)
            (fun res _ => forall l, res = Ok l ->
               Forall (fun p => RedPacket.room_id p ≠ r) l)) as Hm.
  { unfold getRedPacketRoom. eapply emits_bind.
    - apply getLotteryRoomList_emits.
    - intros rooms. apply (getRedPacketRoom_loop_emits remote (fun _ => R)).
      + split; [constructor|reflexivity].
      + intros. eapply never_R_cand; eauto.
      + intros room rooms' t l0 evs _ H. exact H.
    - simpl. intros e evs _ l0 ?. discriminate.
    - simpl. intros rooms evs1 res evs2 _ (l0 & -> & [Hl _]) l1 [= <-]. exact Hl. }
  destruct (Hm w) as (evs & _ & H). exact (H l).
Qed.

Lemma never_candidate_never_joined :
  emits (liveRedPackService cfg remote)
    (fun _ evs => count (is_join_of r) evs = 0%nat).
Proof.
  apply liveRedPackService_emits; [apply closed_no_join|reflexivity|].
  intros areaId parentId page.
  eapply emits_conseq.
  - apply (doRedPackArea_page_emits remote R).
    + split; [constructor|reflexivity].
    + apply never_R_cand.
    + intros room t l evs _ H. exact H.
  - simpl. intros _ evs (l & evs1 & [Hl Hc] & ->).
    simpl. rewrite count_app, Hc, count_join_pairs. simpl.
    clear -Hl. induction Hl as [|p l Hp _ IH]; simpl; [reflexivity|].
    rewrite bool_decide_eq_false_2 by exact Hp. exact IH.
Qed.
End Never.

(** A room whose check always yields a truthy lot id. *)
Section Always.
Hypothesis always : forall t, truthy (lot_of (checkRedPacket remote t r)) ≠ None.

Let R (l : list RedPacket.t) (evs : list Event) : Prop :=
  count (is_join_of r) evs = 0%nat
  /\ count (is_check_of r) evs
     = count (fun p => bool_decide (RedPacket.room_id p = r)) l.

Lemma always_candidate_joined :
  emits (liveRedPackService cfg remote)
    (fun _ evs => count (is_join_of r) evs = count (is_check_of r) evs).
Proof.
  apply liveRedPackService_emits; [apply closed_join_eq_check|reflexivity|].
  intros areaId parentId page.
  eapply emits_conseq.
  - apply (doRedPackArea_page_emits remote R).
    + split; reflexivity.
    + intros room t lotId l evs _ [Hj Hc]. split; [exact Hj|].
      simpl. rewrite Hc. reflexivity.
    + intros room t l evs Ht [Hj Hc]. split; [exact Hj|].
      simpl. rewrite Hc.
      rewrite bool_decide_eq_false_2; [reflexivity|].
      intros E. rewrite E in Ht. exact (always t Ht).
  - simpl. intros _ evs (l & evs1 & [Hj Hc] & ->).
    simpl. rewrite !count_app, Hj, Hc, count_join_pairs, count_check_pairs. lia.
Qed.
End Always.

End OneRoom.

(** ** The lottery pipeline *)

Section Lottery.
Context (cfg : Config) (remote : Remote) (str_match : jsstring -> jsstring -> option bool).

(** After the join request, [doLottery] only logs and records. *)
Lemma doLottery_rest_silent (c : CheckedLottery.t) (r : Res.t unit) :
  silent
    (if decide (Res.code r ≠ 0) then
       logger_info (LotteryFailed (Res.code r) (Res.message r))
     else
       logger_info LotterySuccess;;
       if decide (LiveCheckLotteryDto.require_type (CheckedLottery.dto c)
                  = RequireType.Follow) then
         a ← get_newFollowUp;
         pushIfNotExist a (Uid (CheckedLottery.uid c));;
         for_of (getRequireUp (LiveCheckLotteryDto.require_text (CheckedLottery.dto c)))
           (fun _ requireText =>
              a ← get_newFollowUp;
              pushIfNotExist a (Name requireText))
           tt
       else mret tt).
Proof.
  destruct (decide (Res.code r ≠ 0)); [apply silent_logger|].
  apply silent_bind; [apply silent_logger|]. intros _.
  destruct (decide _); silence.
Qed.

(** [doLottery] sends the join request and never throws. *)
Lemma doLottery_emits (c : CheckedLottery.t) :
  emits (doLottery remote c)
    (fun res evs => res = Ok tt /\ evs = [lottery_join_of c]).
Proof.
  unfold doLottery.
  apply (emits_try_catch _ _
           (fun _ evs => evs = [lottery_join_of c])
           (fun _ res evs => res = Ok tt /\ evs = [])).
  - apply (emits_bind _ _ (fun res evs => res = Ok tt /\ evs = [])
                      (fun _ _ evs => evs = [lottery_join_of c])).
    + apply emits_logger. auto.
    + intros _.
      apply (emits_bind _ _ (fun res evs => res = Ok tt /\ evs = [])
                        (fun _ _ evs => evs = [lottery_join_of c])).
      * apply emits_logger. auto.
      * intros _.
        apply (emits_bind _ _ (fun _ evs => evs = [lottery_join_of c])
                          (fun _ _ evs => evs = [])).
        -- apply emits_request; reflexivity.
        -- intros r. apply emits_silent_nil, doLottery_rest_silent.
        -- auto.
        -- intros a evs1 r evs2 -> ->. reflexivity.
      * intros e evs [? _]. discriminate.
      * intros a evs1 r evs2 [_ ->] ->. reflexivity.
    + intros e evs [? _]. discriminate.
    + intros a evs1 r evs2 [_ ->] ->. reflexivity.
  - intros e. apply emits_logger. auto.
  - intros [] evs ->. auto.
  - intros e evs1 r evs2 -> [-> ->]. auto.
Qed.

(** The join loop of a lottery page: each checked draw is joined once, and
    a delay of 300ms follows. *)
Lemma doLotteryArea_rooms_emits (rooms : list CheckedLottery.t) :
  emits (for_of rooms (doLotteryArea_room remote) tt)
    (fun res evs =>
       res = Ok tt /\ evs = flat_map (fun c => [lottery_join_of c; Delay 300]) rooms).
Proof.
  induction rooms as [|c rooms IH]; simpl.
  - apply emits_ret. auto.
  - apply (emits_bind _ _
             (fun res evs => res = Ok tt /\ evs = [lottery_join_of c; Delay 300])
             (fun _ res evs =>
                res = Ok tt
                /\ evs = flat_map (fun c => [lottery_join_of c; Delay 300]) rooms)).
    + unfold doLotteryArea_room.
      apply (emits_bind _ _
               (fun res evs => res = Ok tt /\ evs = [lottery_join_of c])
               (fun _ res evs => res = Ok tt /\ evs = [Delay 300])).
      * apply doLottery_emits.
      * intros u. apply emits_apiDelay. auto.
      * intros e evs [? _]. discriminate.
      * intros u evs1 r evs2 [_ ->] [-> ->]. auto.
    + intros []. apply IH.
    + intros e evs [? _]. discriminate.
    + intros u evs1 r evs2 [_ ->] [-> ->]. auto.
Qed.

(** What follows the remote's answer in [checkLotteryRoom] is silent. *)
Lemma checkLotteryRoom_emits (P : list Event -> Prop) (room : LiveRoomList.t) :
  closed P ->
  P [Call (CheckLottery (LiveRoomList.roomid room))] ->
  emits (checkLotteryRoom cfg remote str_match room) (fun _ evs => P evs).
Proof.
  intros HP Hc. unfold checkLotteryRoom.
  destruct (bool_decide _); [apply closed_silent; [exact HP|silence]|].
  apply closed_bind; [exact HP| |].
  - apply closed_try_catch; [exact HP| |].
    + apply closed_bind; [exact HP|apply closed_request, Hc|].
      intros r. apply closed_silent; [exact HP|silence].
    + intros e. apply closed_silent; [exact HP|silence].
  - intros [r|]; apply closed_silent; try exact HP; [|silence].
    destruct (decide _); [silence|].
    destruct (Res.data r) as [| |data]; silence.
    repeat match goal with |- context [if ?b then _ else _] => destruct b end;
      silence.
Qed.

(** The checks of a page, for a closed property of their operations. *)
Lemma checkLotteryRoomList_emits (P : list Event -> Prop) areaId parentId page :
  closed P ->
  P [Delay 100] ->
  P [Call (GetLiveRoom parentId areaId page)] ->
  (forall roomid, P [Call (CheckLottery roomid)]) ->
  emits (checkLotteryRoomList cfg remote str_match areaId parentId page)
        (fun _ evs => P evs).
Proof.
  intros HP Hdelay Hpage Hcheck. unfold checkLotteryRoomList.
  apply closed_bind; [exact HP|apply closed_getLotteryRoomList; auto|].
  intros rooms. apply closed_for_of; [exact HP|]. intros acc room _.
  unfold checkLotteryRoomList_body.
  apply closed_bind; [exact HP|apply checkLotteryRoom_emits; auto|].
  intros [data|]; [|apply closed_silent; [exact HP|apply silent_ret]].
  apply closed_bind; [exact HP|apply closed_apiDelay; auto|].
  intros _. apply closed_silent; [exact HP|apply silent_ret].
Qed.

(** The whole pipeline, for a closed property of its operations. *)
Lemma liveLotteryService_emits (P : list Event -> Prop) :
  closed P ->
  P [Call GetArea] -> P [Delay 100] ->
  (forall parentId areaId page, P [Call (GetLiveRoom parentId areaId page)]) ->
  (forall roomid, P [Call (CheckLottery roomid)]) ->
  (forall c, P [lottery_join_of c; Delay 300]) ->
  emits (liveLotteryService cfg remote str_match) (fun _ evs => P evs).
Proof.
  intros HP Harea Hdelay Hpage Hcheck Hjoin. apply closed_pipeline; auto.
  intros areaId parentId num. unfold doLotteryArea.
  apply closed_for_of; auto. intros [] page _. unfold doLotteryArea_page.
  apply closed_bind; [exact HP| |].
  - apply checkLotteryRoomList_emits; auto.
  - intros rooms. eapply emits_conseq; [apply doLotteryArea_rooms_emits|].
    simpl. intros _ evs [_ ->].
    induction rooms as [|c rooms IH]; [apply HP|].
    change (P ([lottery_join_of c; Delay 300]
               ++ flat_map (fun c => [lottery_join_of c; Delay 300]) rooms)).
    apply HP; auto.
Qed.

End Lottery.

(** C4 (as amended): in the operations of a pipeline run, every red-packet
    join request is immediately followed by a fixed delay of 200ms, and
    every lottery join request by a fixed delay of 300ms. *)
Theorem joins_are_followed_by_delay cfg remote str_match w :
  followed_by is_redpacket_join (Delay 200) (emitted (liveRedPackService cfg remote) w)
  /\ followed_by is_lottery_join (Delay 300)
       (emitted (liveLotteryService cfg remote str_match) w).
Proof.
  split.
  - apply (emits_emitted _ (fun _ evs => followed_by is_redpacket_join (Delay 200) evs)).
    apply liveRedPackService_emits;
      [apply followed_by_closed|simpl; intuition discriminate|].
    intros areaId parentId page. eapply emits_conseq.
    + apply (doRedPackArea_page_emits remote
               (fun _ evs => Forall (fun e => is_redpacket_join e = false) evs)).
      * constructor.
      * intros. repeat constructor. assumption.
      * intros. constructor; [reflexivity|assumption].
    + simpl. intros _ evs (l & evs1 & H & ->).
      change (followed_by is_redpacket_join (Delay 200)
                ([Delay 100; Call (GetLiveRoom parentId areaId page)]
                 ++ evs1 ++ flat_map (fun p => [join_of p; Delay 200]) l)).
      repeat apply followed_by_app.
      * apply followed_by_none. repeat constructor.
      * apply followed_by_none, H.
      * apply followed_by_pairs. reflexivity.
  - apply (emits_emitted _ (fun _ evs => followed_by is_lottery_join (Delay 300) evs)).
    apply liveLotteryService_emits; try apply followed_by_closed;
      intros; simpl; intuition discriminate.
Qed.

(** ** Which rooms are joined *)

Section JoinedRooms.
Context (cfg : Config) (remote : Remote) (r : Z).

(** The answer of the page fetch decides the rooms that are checked. *)
Lemma getLotteryRoomList_answer areaId parentId page lotType w a data :
  getLiveRoom remote (trace w ++ [Delay 100]) parentId areaId page = Answer a ->
  Res.data a = Value data ->
  exists w1,
    getLotteryRoomList remote areaId parentId page lotType w
    = (Ok (match lotType with
           | lottery => fst (pendentLottery (RoomPage.list data))
           | redPack => snd (pendentLottery (RoomPage.list data))
           end), w1)
    /\ trace w1 = trace w ++ [Delay 100; Call (GetLiveRoom parentId areaId page)]
    /\ heap w1 = heap w
    /\ newFollowUp w1 = newFollowUp w.
Proof.
  intros Ha Hd. unfold getLotteryRoomList. run. rewrite Ha. simpl.
  destruct (decide (Res.code a ≠ 0)); simpl; rewrite Hd; simpl;
    eexists; split; try reflexivity;
    simpl; rewrite <- app_assoc; auto.
Qed.

(** A page fetch that returns has been answered with data. *)
Lemma getLotteryRoomList_Ok areaId parentId page lotType w rooms :
  fst (getLotteryRoomList remote areaId parentId page lotType w) = Ok rooms ->
  exists a data,
    getLiveRoom remote (trace w ++ [Delay 100]) parentId areaId page = Answer a
    /\ Res.data a = Value data
    /\ rooms = match lotType with
               | lottery => fst (pendentLottery (RoomPage.list data))
               | redPack => snd (pendentLottery (RoomPage.list data))
               end.
Proof.
  unfold getLotteryRoomList. run.
  destruct (getLiveRoom remote _ parentId areaId page) as [a|e]; simpl;
    [|discriminate].
  destruct (decide (Res.code a ≠ 0)); simpl;
    destruct (Res.data a) as [| |data] eqn:Ed; simpl; try discriminate;
    intros [= <-]; exists a, data; auto.
Qed.

(** On one page, a room whose check always yields a truthy lot id is
    joined once for each of its listings with the red-packet badge. *)
Lemma page_joins_per_listing areaId parentId page w a data :
  (forall t, truthy (lot_of (checkRedPacket remote t r)) ≠ None) ->
  getLiveRoom remote (trace w ++ [Delay 100]) parentId areaId page = Answer a ->
  Res.data a = Value data ->
  count (is_join_of r) (emitted (doRedPackArea_page remote areaId parentId tt page) w)
  = count (fun room => bool_decide (LiveRoomList.roomid room = r))
          (snd (pendentLottery (RoomPage.list data))).
Proof.
  intros always Ha Hd.
  destruct (getLotteryRoomList_answer areaId parentId page redPack w a data Ha Hd)
    as (w1 & Hrun & Ht1 & _).
  set (rooms := snd (pendentLottery (RoomPage.list data))) in *.
  assert (emits (l ← for_of rooms (getRedPacketRoom_body remote) [];
                 for_of l (doRedPackArea_room remote) tt)
            (fun _ evs =>
               count (is_join_of r) evs
               = count (fun room => bool_decide (LiveRoomList.roomid room = r)) rooms))
    as Hrest.
  { apply (emits_bind _ _
             (fun res evs => exists l, res = Ok l
                /\ count (is_join_of r) evs = 0%nat
                /\ count (fun p => bool_decide (RedPacket.room_id p = r)) l
                   = count (fun room => bool_decide (LiveRoomList.roomid room = r)) rooms)
             (fun l _ evs => evs = flat_map (fun p => [join_of p; Delay 200]) l)).
    - eapply emits_conseq.
      + apply (getRedPacketRoom_loop_emits remote
                 (fun rooms l evs =>
                    count (is_join_of r) evs = 0%nat
                    /\ count (fun p => bool_decide (RedPacket.room_id p = r)) l
                       = count (fun room => bool_decide (LiveRoomList.roomid room = r))
                               rooms)).
        * split; reflexivity.
        * intros room rooms' t lotId l evs _ [Hj Hc]. split; [exact Hj|].
          simpl. rewrite Hc. reflexivity.
        * intros room rooms' t l evs Ht [Hj Hc]. split; [exact Hj|].
          simpl. rewrite Hc. rewrite bool_decide_eq_false_2; [reflexivity|].
          intros E. rewrite E in Ht. exact (always t Ht).
      + simpl. intros res evs (l & -> & H). eauto.
    - intros l. eapply emits_conseq; [apply doRedPackArea_rooms_emits|].
      simpl. intros res evs [_ ->]. reflexivity.
    - intros e evs (l & ? & _). discriminate.
    - intros l evs1 res evs2 (l' & [= <-] & Hj & Hc) ->.
      rewrite count_app, Hj, count_join_pairs, Hc. reflexivity. }
  destruct (Hrest w1) as (evs & Ht & Hcount).
  assert (doRedPackArea_page remote areaId parentId tt page w
          = (l ← for_of rooms (getRedPacketRoom_body remote) [];
             for_of l (doRedPackArea_room remote) tt) w1) as Hpage.
  { unfold doRedPackArea_page, getRedPacketRoom.
    rewrite !bind_run, Hrun. reflexivity. }
  unfold emitted. rewrite Hpage, Ht, Ht1, <- app_assoc, drop_app_length.
  simpl. exact Hcount.
Qed.

Lemma closed_entry_never :
  (forall t a data e rest,
      checkRedPacket remote t r = Answer a ->
      Res.data a = Value data ->
      RedPacketData.popularity_red_pocket data = Some (e :: rest) ->
      RedPocket.lot_status e = 2) ->
  forall t, truthy (lot_of (checkRedPacket remote t r)) = None.
Proof.
  intros H t. unfold lot_of.
  destruct (checkRedPacket remote t r) as [a|] eqn:Ea; [|reflexivity].
  destruct (decide (Res.code a ≠ 0)); [reflexivity|].
  destruct (Res.data a) as [| |data] eqn:Ed; try reflexivity.
  destruct (RedPacketData.popularity_red_pocket data) as [[|e rest]|] eqn:Ep;
    try reflexivity.
  rewrite (H t a data e rest Ea Ed Ep). reflexivity.
Qed.

Lemma zero_lot_never :
  (forall t a data e rest,
      checkRedPacket remote t r = Answer a ->
      Res.data a = Value data ->
      RedPacketData.popularity_red_pocket data = Some (e :: rest) ->
      RedPocket.lot_id e = 0) ->
  forall t, truthy (lot_of (checkRedPacket remote t r)) = None.
Proof.
  intros H t. unfold lot_of.
  destruct (checkRedPacket remote t r) as [a|] eqn:Ea; [|reflexivity].
  destruct (decide (Res.code a ≠ 0)); [reflexivity|].
  destruct (Res.data a) as [| |data] eqn:Ed; try reflexivity.
  destruct (RedPacketData.popularity_red_pocket data) as [[|e rest]|] eqn:Ep;
    try reflexivity.
  destruct (decide (RedPocket.lot_status e = 2)); [reflexivity|].
  rewrite (H t a data e rest Ea Ed Ep). reflexivity.
Qed.

Lemma open_entry_always :
  (forall t, exists a data e rest,
      checkRedPacket remote t r = Answer a
      /\ Res.code a = 0
      /\ Res.data a = Value data
      /\ RedPacketData.popularity_red_pocket data = Some (e :: rest)
      /\ RedPocket.lot_status e ≠ 2
      /\ RedPocket.lot_id e ≠ 0) ->
  forall t, truthy (lot_of (checkRedPacket remote t r)) ≠ None.
Proof.
  intros H t. destruct (H t) as (a & data & e & rest & -> & Hc & Hd & Hp & Hs & Hl).
  unfold lot_of. rewrite Hd, Hp.
  destruct (decide (Res.code a ≠ 0)); [contradiction|].
  destruct (decide (RedPocket.lot_status e = 2)); [contradiction|].
  simpl. destruct (decide (RedPocket.lot_id e = 0)); [contradiction|discriminate].
Qed.

End JoinedRooms.

(** C3 (as amended): for a room carrying the red-packet badge, if the first
    red-packet entry of every check has status 2, no join request is sent for
    the room during the run; if every check answers with code 0 and a
    non-empty list whose first entry has a status other than 2 and a lot id
    other than 0, the run sends as many join requests for the room as
    checks, and each fetched page yields one join request for each listing
    of the room with the badge. *)
Theorem red_packet_join_rule cfg remote (r : Z) :
  ((forall t a data e rest,
       checkRedPacket remote t r = Answer a ->
       Res.data a = Value data ->
       RedPacketData.popularity_red_pocket data = Some (e :: rest) ->
       RedPocket.lot_status e = 2) ->
   forall w, count (is_join_of r) (emitted (liveRedPackService cfg remote) w) = 0%nat)
  /\ ((forall t, exists a data e rest,
          checkRedPacket remote t r = Answer a
          /\ Res.code a = 0
          /\ Res.data a = Value data
          /\ RedPacketData.popularity_red_pocket data = Some (e :: rest)
          /\ RedPocket.lot_status e ≠ 2
          /\ RedPocket.lot_id e ≠ 0) ->
      (forall w,
          count (is_join_of r) (emitted (liveRedPackService cfg remote) w)
          = count (is_check_of r) (emitted (liveRedPackService cfg remote) w))
      /\ (forall areaId parentId page w a page_data,
             getLiveRoom remote (trace w ++ [Delay 100]) parentId areaId page = Answer a ->
             Res.data a = Value page_data ->
             count (is_join_of r)
                   (emitted (doRedPackArea_page remote areaId parentId tt page) w)
             = count (fun room => bool_decide (LiveRoomList.roomid room = r))
                     (snd (pendentLottery (RoomPage.list page_data))))).
Proof.
  split.
  - intros H w.
    apply (emits_emitted _ (fun _ evs => count (is_join_of r) evs = 0%nat)).
    apply never_candidate_never_joined, closed_entry_never, H.
  - intros H. pose proof (open_entry_always remote r H) as Ha. split.
    + intros w.
      apply (emits_emitted _
               (fun _ evs => count (is_join_of r) evs = count (is_check_of r) evs)).
      apply always_candidate_joined, Ha.
    + intros. eapply page_joins_per_listing; eassumption.
Qed.

(** C10: a room whose first red-packet entry has lot id 0 is left out of the
    candidate list of every page and is never joined, whatever the status of
    the entry. *)
Theorem zero_lot_id_is_excluded cfg remote (r : Z) :
  (forall t a data e rest,
      checkRedPacket remote t r = Answer a ->
      Res.data a = Value data ->
      RedPacketData.popularity_red_pocket data = Some (e :: rest) ->
      RedPocket.lot_id e = 0) ->
  (forall areaId parentId page w l,
      fst (getRedPacketRoom remote areaId parentId page w) = Ok l ->
      Forall (fun p => RedPacket.room_id p ≠ r) l)
  /\ (forall w, count (is_join_of r) (emitted (liveRedPackService cfg remote) w) = 0%nat).
Proof.
  intros H. pose proof (zero_lot_never remote r H) as Hn. split.
  - intros areaId parentId page w l. apply never_candidate_excluded, Hn.
  - intros w.
    apply (emits_emitted _ (fun _ evs => count (is_join_of r) evs = 0%nat)).
    apply never_candidate_never_joined, Hn.
Qed.

(** ** The arrays: what a computation preserves *)

Section Preserves.
Context (J : list (list IdOrName) -> option nat -> Prop).

Lemma preserves_ret {A} (a : A) : preserves (state_inv J) (mret a).
Proof. intros w H. exact H. Qed.

Lemma preserves_throw {A} e : preserves (state_inv J) (@throw A e).
Proof. intros w H. exact H. Qed.

Lemma preserves_logger e : preserves (state_inv J) (logger e).
Proof. intros w H. exact H. Qed.

Lemma preserves_apiDelay ms : preserves (state_inv J) (apiDelay ms).
Proof. intros w H. exact H. Qed.

Lemma preserves_request {A} r (remote : list Event -> Outcome A) :
  preserves (state_inv J) (request r remote).
Proof. intros w H. unfold request. destruct (remote (trace w)); exact H. Qed.

Lemma preserves_bind {A B} (m : M A) (f : A -> M B) :
  preserves (state_inv J) m -> (forall a, preserves (state_inv J) (f a)) ->
  preserves (state_inv J) (m ≫= f).
Proof.
  intros Hm Hf w H. rewrite bind_run. specialize (Hm w H).
  destruct (m w) as [[a|e] w1]; simpl in *; [|exact Hm].
  apply Hf, Hm.
Qed.

Lemma preserves_try_catch {A} (m : M A) h :
  preserves (state_inv J) m -> (forall e, preserves (state_inv J) (h e)) ->
  preserves (state_inv J) (try_catch m h).
Proof.
  intros Hm Hh w H. rewrite try_catch_run. specialize (Hm w H).
  destruct (m w) as [[a|e] w1]; simpl in *; [exact Hm|].
  apply Hh, Hm.
Qed.

Lemma preserves_for_of {A S} (xs : list A) (body : S -> A -> M S) s :
  (forall s x, preserves (state_inv J) (body s x)) ->
  preserves (state_inv J) (for_of xs body s).
Proof.
  intros Hb. revert s. induction xs as [|x xs IH]; intros s; simpl.
  - apply preserves_ret.
  - apply preserves_bind; auto.
Qed.

Lemma preserves_read {A} (data : Field A) : preserves (state_inv J) (read data).
Proof. intros w H. destruct data; exact H. Qed.

Lemma preserves_evaluate test : preserves (state_inv J) (evaluate test).
Proof. intros w H. destruct test; exact H. Qed.

Lemma preserves_bind_at {A B} (m : M A) (f : A -> M B) w :
  state_inv J (snd (m w)) -> (forall a, preserves (state_inv J) (f a)) ->
  state_inv J (snd ((m ≫= f) w)).
Proof.
  intros Hm Hf. rewrite bind_run.
  destruct (m w) as [[a|e] w1]; simpl in *; [|exact Hm].
  apply Hf, Hm.
Qed.

Ltac keep :=
  repeat match goal with
    | |- preserves _ (mret _) => apply preserves_ret
    | |- preserves _ (throw _) => apply preserves_throw
    | |- preserves _ (logger_info _) => apply preserves_logger
    | |- preserves _ (logger_debug _) => apply preserves_logger
    | |- preserves _ (logger_error _) => apply preserves_logger
    | |- preserves _ (apiDelay _) => apply preserves_apiDelay
    | |- preserves _ (read _) => apply preserves_read
    | |- preserves _ (evaluate _) => apply preserves_evaluate
    | |- preserves _ (request _ _) => apply preserves_request
    | |- preserves _ (get_newFollowUp ≫= _) => fail 1
    | |- preserves _ (_ ≫= _) => apply preserves_bind; [|intros ?]
    | |- preserves _ (try_catch _ _) => apply preserves_try_catch; [|intros ?]
    | |- preserves _ (for_of _ _ _) => apply preserves_for_of; intros ? ?
    end.

Lemma preserves_getLiveArea remote : preserves (state_inv J) (getLiveArea remote).
Proof. unfold getLiveArea. keep. destruct (decide _); keep. Qed.

Lemma preserves_getLotteryRoomList remote areaId parentId page lotType :
  preserves (state_inv J) (getLotteryRoomList remote areaId parentId page lotType).
Proof. unfold getLotteryRoomList. keep. destruct (decide _); keep. Qed.

Lemma preserves_checkLotteryRoom cfg remote str_match room :
  preserves (state_inv J) (checkLotteryRoom cfg remote str_match room).
Proof.
  unfold checkLotteryRoom. destruct (bool_decide _); keep.
  destruct a as [r|]; keep. destruct (decide _); keep.
  destruct (Res.data r); keep.
  repeat match goal with |- context [if ?b then _ else _] => destruct b end; keep.
Qed.

Lemma preserves_getRedPacketId remote roomId :
  preserves (state_inv J) (getRedPacketId remote roomId).
Proof.
  unfold getRedPacketId, first_entry. keep. destruct (decide _); keep.
  destruct (RedPacketData.popularity_red_pocket _) as [[|e l]|]; simpl; keep.
  all: destruct (decide _); keep.
Qed.

(** The lottery pipeline, given that recording an entry keeps [J]. *)
Section LotteryKeeps.
Context (cfg : Config) (remote : Remote) (str_match : jsstring -> jsstring -> option bool).
Hypothesis record_keeps : forall item w,
  state_inv J w -> state_inv J (snd (pushIfNotExist (newFollowUp w) item w)).

Lemma preserves_doLottery c : preserves (state_inv J) (doLottery remote c).
Proof.
  unfold doLottery. keep. destruct (decide _); keep.
  destruct (decide _); keep.
  - intros w H. rewrite bind_run. simpl.
    apply preserves_bind_at; [apply record_keeps, H|].
    intros _. keep. intros w' H'. rewrite bind_run. simpl.
    apply record_keeps, H'.
Qed.

Lemma preserves_lottery_areas areaList :
  preserves (state_inv J) (for_areas cfg (doLotteryArea cfg remote str_match) areaList).
Proof.
  unfold for_areas, doLotteryArea, doLotteryArea_page, doLotteryArea_room,
    checkLotteryRoomList, checkLotteryRoomList_body.
  keep.
  - apply preserves_getLotteryRoomList.
  - apply preserves_checkLotteryRoom.
  - match goal with |- context [match ?x with _ => _ end] => destruct x end; keep.
  - apply preserves_doLottery.
Qed.

Lemma preserves_lottery_body :
  preserves (state_inv J)
    (areaList ← getLiveArea remote;
     for_areas cfg (doLotteryArea cfg remote str_match) areaList;;
     get_newFollowUp).
Proof.
  apply preserves_bind; [apply preserves_getLiveArea|]. intros areaList.
  apply preserves_bind; [apply preserves_lottery_areas|].
  intros _ w H. exact H.
Qed.
End LotteryKeeps.

(** The red-packet pipeline, given that pushing an entry keeps [J]. *)
Section RedPackKeeps.
Context (cfg : Config) (remote : Remote).
Hypothesis push_keeps : forall item w,
  state_inv J w -> state_inv J (snd (push (newFollowUp w) item w)).

Lemma preserves_doRedPacket p : preserves (state_inv J) (doRedPacket remote p).
Proof.
  unfold doRedPacket. keep. destruct (decide _); keep.
  intros w H. rewrite bind_run. simpl.
  apply preserves_bind_at; [apply push_keeps, H|]. intros _. keep.
Qed.

Lemma preserves_redpack_areas areaList :
  preserves (state_inv J) (for_areas cfg (doRedPackArea remote) areaList).
Proof.
  unfold for_areas, doRedPackArea, doRedPackArea_page, doRedPackArea_room,
    getRedPacketRoom, getRedPacketRoom_body.
  keep.
  - apply preserves_getLotteryRoomList.
  - apply preserves_getRedPacketId.
  - destruct (truthy _); keep.
  - apply preserves_doRedPacket.
Qed.

Lemma preserves_redpack_body :
  preserves (state_inv J)
    (areaList ← getLiveArea remote;
     for_areas cfg (doRedPackArea remote) areaList;;
     get_newFollowUp).
Proof.
  apply preserves_bind; [apply preserves_getLiveArea|]. intros areaList.
  apply preserves_bind; [apply preserves_redpack_areas|].
  intros _ w H. exact H.
Qed.
End RedPackKeeps.

End Preserves.

(** A pipeline is its body run from the reset world, and what it returns is
    the module-level variable. *)
Lemma liveLotteryService_reset cfg remote str_match w :
  liveLotteryService cfg remote str_match w
  = (areaList ← getLiveArea remote;
     for_areas cfg (doLotteryArea cfg remote str_match) areaList;;
     get_newFollowUp) (reset w).
Proof. reflexivity. Qed.

Lemma liveRedPackService_reset cfg remote w :
  liveRedPackService cfg remote w
  = (areaList ← getLiveArea remote;
     for_areas cfg (doRedPackArea remote) areaList;;
     get_newFollowUp) (reset w).
Proof. reflexivity. Qed.

Lemma bind_Ok {A B} (m : M A) (f : A -> M B) w b w1 :
  (m ≫= f) w = (Ok b, w1) -> exists a w', m w = (Ok a, w') /\ f a w' = (Ok b, w1).
Proof.
  rewrite bind_run. destruct (m w) as [[a|e] w']; [eauto|discriminate].
Qed.

Lemma body_returns_newFollowUp (m : M (list (list LiveAreaType.t)))
    (f : list (list LiveAreaType.t) -> M unit) w a w1 :
  (areaList ← m; f areaList;; get_newFollowUp) w = (Ok a, w1) -> a = newFollowUp w1.
Proof.
  intros H. apply bind_Ok in H as (areaList & w' & _ & H).
  apply bind_Ok in H as (u & w'' & _ & H).
  injection H as <- <-. reflexivity.
Qed.

(** ** The accumulator *)

Section Frame.
(** The arrays below [n0] are as in [h0], and [newFollowUp] is bound to an
    array at or above [n0]. *)
Context (n0 : nat) (h0 : list (list IdOrName)).

Let J (h : list (list IdOrName)) (nf : option nat) : Prop :=
  (forall l, (l < n0)%nat -> h !! l = h0 !! l)
  /\ exists l, nf = Some l /\ (n0 <= l)%nat.

Lemma frame_push item w :
  state_inv J w -> state_inv J (snd (push (newFollowUp w) item w)).
Proof.
  intros [Hf (l & Hl & Hle)]. unfold push. rewrite Hl.
  destruct (heap w !! l) as [xs|]; simpl; [|split; eauto].
  split; [|eauto]. intros l' Hl'. simpl.
  rewrite list_lookup_insert_ne by lia. auto.
Qed.

Lemma frame_pushIfNotExist item w :
  state_inv J w -> state_inv J (snd (pushIfNotExist (newFollowUp w) item w)).
Proof.
  intros H. pose proof (frame_push item w H) as Hp.
  unfold pushIfNotExist, includes. rewrite bind_run.
  destruct (newFollowUp w) as [l|]; [|exact H].
  destruct (heap w !! l) as [xs|]; [|exact H].
  destruct (bool_decide (item ∈ xs)); [exact H|exact Hp].
Qed.
End Frame.

Lemma reset_frame w :
  (forall l, (l < length (heap w))%nat -> heap (reset w) !! l = heap w !! l)
  /\ exists l, newFollowUp (reset w) = Some l /\ (length (heap w) <= l)%nat.
Proof.
  split; [|simpl; eauto]. intros l Hl. simpl. apply lookup_app_l. exact Hl.
Qed.

(** A pipeline leaves every array that exists when it starts as it is. *)
Lemma liveLotteryService_frame cfg remote str_match w l :
  (l < length (heap w))%nat ->
  heap (snd (liveLotteryService cfg remote str_match w)) !! l = heap w !! l.
Proof.
  intros Hl. rewrite liveLotteryService_reset.
  eapply (preserves_lottery_body _ cfg remote str_match
            (frame_pushIfNotExist (length (heap w)) (heap w)) (reset w)
            (reset_frame w)).
  exact Hl.
Qed.

Lemma liveRedPackService_frame cfg remote w l :
  (l < length (heap w))%nat ->
  heap (snd (liveRedPackService cfg remote w)) !! l = heap w !! l.
Proof.
  intros Hl. rewrite liveRedPackService_reset.
  eapply (preserves_redpack_body _ cfg remote
            (frame_push (length (heap w)) (heap w)) (reset w) (reset_frame w)).
  exact Hl.
Qed.

Section Fresh.
(** [newFollowUp] is bound to the array [l0], which exists. *)
Context (l0 : nat).

Let J (h : list (list IdOrName)) (nf : option nat) : Prop :=
  nf = Some l0 /\ (l0 < length h)%nat.

Lemma fresh_push item w :
  state_inv J w -> state_inv J (snd (push (newFollowUp w) item w)).
Proof.
  intros [Hl Hlt]. unfold push. rewrite Hl.
  destruct (heap w !! l0) as [xs|]; simpl; [|split; auto].
  split; [exact Hl|]. simpl. rewrite length_insert. exact Hlt.
Qed.

Lemma fresh_pushIfNotExist item w :
  state_inv J w -> state_inv J (snd (pushIfNotExist (newFollowUp w) item w)).
Proof.
  intros H. pose proof (fresh_push item w H) as Hp.
  unfold pushIfNotExist, includes. rewrite bind_run.
  destruct (newFollowUp w) as [l|]; [|exact H].
  destruct (heap w !! l) as [xs|]; [|exact H].
  destruct (bool_decide (item ∈ xs)); [exact H|exact Hp].
Qed.
End Fresh.

Lemma reset_fresh w :
  newFollowUp (reset w) = Some (length (heap w))
  /\ (length (heap w) < length (heap (reset w)))%nat.
Proof. split; [reflexivity|]. simpl. rewrite length_app. simpl. lia. Qed.

(** What a pipeline returns is the array it allocated at its start. *)
Lemma liveLotteryService_returns cfg remote str_match w a w1 :
  liveLotteryService cfg remote str_match w = (Ok a, w1) ->
  a = Some (length (heap w)) /\ (length (heap w) < length (heap w1))%nat.
Proof.
  intros H. rewrite liveLotteryService_reset in H.
  pose proof (preserves_lottery_body _ cfg remote str_match
                (fresh_pushIfNotExist (length (heap w))) (reset w) (reset_fresh w))
    as [Hn Hl].
  rewrite (body_returns_newFollowUp _ _ _ _ _ H).
  rewrite H in Hn, Hl. auto.
Qed.

Lemma liveRedPackService_returns cfg remote w a w1 :
  liveRedPackService cfg remote w = (Ok a, w1) ->
  a = Some (length (heap w)) /\ (length (heap w) < length (heap w1))%nat.
Proof.
  intros H. rewrite liveRedPackService_reset in H.
  pose proof (preserves_redpack_body _ cfg remote
                (fresh_push (length (heap w))) (reset w) (reset_fresh w))
    as [Hn Hl].
  rewrite (body_returns_newFollowUp _ _ _ _ _ H).
  rewrite H in Hn, Hl. auto.
Qed.

(** C9: the list a pipeline run returned is not mutated by a later run of
    either pipeline: the later run leaves its entries as they are and
    returns another array. *)
Theorem returned_list_is_not_mutated cfg remote str_match cfg' remote' str_match'
    (first later : M (option nat)) :
  first = liveLotteryService cfg remote str_match
  \/ first = liveRedPackService cfg remote ->
  later = liveLotteryService cfg' remote' str_match'
  \/ later = liveRedPackService cfg' remote' ->
  forall w0 a w1,
    first w0 = (Ok a, w1) ->
    exists l xs,
      a = Some l
      /\ heap w1 !! l = Some xs
      /\ forall w,
           heap w !! l = Some xs ->
           heap (snd (later w)) !! l = Some xs
           /\ fst (later w) ≠ Ok (Some l).
Proof.
  intros Hfirst Hlater w0 a w1 Hrun.
  assert (a = Some (length (heap w0)) /\ (length (heap w0) < length (heap w1))%nat)
    as [-> Hlt].
  { destruct Hfirst as [-> | ->];
      [eapply liveLotteryService_returns|eapply liveRedPackService_returns]; eauto. }
  destruct (lookup_lt_is_Some_2 _ _ Hlt) as [xs Hxs].
  exists (length (heap w0)), xs. repeat split; [exact Hxs| |].
  - rewrite <- H. apply lookup_lt_Some in H.
    destruct Hlater as [-> | ->];
      [apply liveLotteryService_frame|apply liveRedPackService_frame]; exact H.
  - apply lookup_lt_Some in H. intros Heq.
    destruct Hlater as [-> | ->].
    + destruct (liveLotteryService cfg' remote' str_match' w) as [res w2] eqn:E.
      simpl in Heq. subst res.
      apply liveLotteryService_returns in E as [[= E] _]. lia.
    + destruct (liveRedPackService cfg' remote' w) as [res w2] eqn:E.
      simpl in Heq. subst res.
      apply liveRedPackService_returns in E as [[= E] _]. lia.
Qed.

(** ** Deduplication in the lottery pipeline *)

Lemma bind_logger_info {A} m (f : unit -> M A) w :
  (logger_info m ≫= f) w = f tt (add_log (Info m) w).
Proof. reflexivity. Qed.

Lemma bind_get_newFollowUp {A} (f : option nat -> M A) w :
  (get_newFollowUp ≫= f) w = f (newFollowUp w) w.
Proof. reflexivity. Qed.

Lemma bind_request_answer {A B} rq (remote : list Event -> Outcome A)
    (f : A -> M B) w a :
  remote (trace w) = Answer a ->
  (request rq remote ≫= f) w = f a (add_event (Call rq) w).
Proof. intros H. rewrite bind_run. unfold request. rewrite H. reflexivity. Qed.

Lemma pushIfNotExist_add_new l xs item w :
  newFollowUp w = Some l ->
  heap w !! l = Some xs ->
  exists w',
    pushIfNotExist (newFollowUp w) item w = (Ok tt, w')
    /\ newFollowUp w' = Some l
    /\ heap w' !! l = Some (add_new xs item)
    /\ trace w' = trace w.
Proof.
  intros Hl Hxs. rewrite Hl, (pushIfNotExist_run l xs item w Hxs).
  unfold add_new. destruct (bool_decide (item ∈ xs)).
  - exists w. auto.
  - eexists. split; [reflexivity|]. simpl. repeat split; [exact Hl|].
    apply list_lookup_insert_eq. eapply lookup_lt_Some, Hxs.
Qed.

Lemma record_names_run (names : list jsstring) l xs w :
  newFollowUp w = Some l ->
  heap w !! l = Some xs ->
  exists w',
    for_of names (fun _ requireText =>
                    a ← get_newFollowUp; pushIfNotExist a (Name requireText)) tt w
    = (Ok tt, w')
    /\ newFollowUp w' = Some l
    /\ heap w' !! l = Some (fold_left add_new (map Name names) xs)
    /\ trace w' = trace w.
Proof.
  revert xs w. induction names as [|name names IH]; intros xs w Hl Hxs; simpl.
  - exists w. auto.
  - destruct (pushIfNotExist_add_new l xs (Name name) w Hl Hxs)
      as (w1 & Hrun & Hl1 & Hxs1 & Ht1).
    destruct (IH _ w1 Hl1 Hxs1) as (w2 & Hrun2 & Hl2 & Hxs2 & Ht2).
    exists w2. rewrite bind_run, bind_get_newFollowUp, Hrun, Hrun2.
    repeat split; congruence.
Qed.

(** A successful join of a draw that requires following: the streamer's id
    and the extra names of the requirement text are recorded, each unless it
    is already there. *)
Lemma doLottery_follow_run remote (c : CheckedLottery.t) w r l xs :
  let d := CheckedLottery.dto c in
  LiveCheckLotteryDto.require_type d = RequireType.Follow ->
  joinLottery remote (trace w) (LiveCheckLotteryDto.id d) (LiveCheckLotteryDto.gift_id d)
              (LiveCheckLotteryDto.gift_num d) = Answer r ->
  Res.code r = 0 ->
  newFollowUp w = Some l ->
  heap w !! l = Some xs ->
  exists w',
    doLottery remote c w = (Ok tt, w')
    /\ newFollowUp w' = Some l
    /\ heap w' !! l
       = Some (fold_left add_new
                 (Uid (CheckedLottery.uid c)
                  :: map Name (getRequireUp (LiveCheckLotteryDto.require_text d)))
                 xs).
Proof.
  intros d Ht Hr Hc Hl Hxs. unfold doLottery. fold d.
  rewrite try_catch_run, !bind_logger_info.
  rewrite (bind_request_answer _ _ _ _ r) by exact Hr.
  destruct (decide (Res.code r ≠ 0)) as [Hn|_]; [contradiction|].
  rewrite bind_logger_info.
  destruct (decide (LiveCheckLotteryDto.require_type d = RequireType.Follow)) as [_|Hn];
    [|contradiction].
  rewrite bind_get_newFollowUp, bind_run.
  set (w0 := add_log _ (add_event _ _)).
  destruct (pushIfNotExist_add_new l xs (Uid (CheckedLottery.uid c)) w0 Hl Hxs)
    as (w1 & Hrun1 & Hl1 & Hxs1 & _).
  rewrite Hrun1.
  destruct (record_names_run (getRequireUp (LiveCheckLotteryDto.require_text d))
              l _ w1 Hl1 Hxs1) as (w2 & Hrun2 & Hl2 & Hxs2 & _).
  rewrite Hrun2. exists w2. auto.
Qed.

(** *** The marker in the requirement text *)

Lemma strip_prefix_Some p s rest : strip_prefix p s = Some rest -> s = p ++ rest.
Proof.
  revert s. induction p as [|a p IH]; intros s; simpl.
  - intros [= ->]. reflexivity.
  - destruct s as [|b s]; [discriminate|].
    destruct (a =? b)%N eqn:E; [|discriminate].
    apply N.eqb_eq in E. subst. intros H. rewrite (IH s H). reflexivity.
Qed.

Lemma strip_prefix_app p s : strip_prefix p (p ++ s) = Some s.
Proof.
  induction p as [|a p IH]; simpl; [reflexivity|]. rewrite N.eqb_refl. exact IH.
Qed.

Lemma replace_unfold pat rep s :
  replace pat rep s
  = match strip_prefix pat s with
    | Some rest => rep ++ rest
    | None =>
        match s with
        | [] => []
        | c :: s' => c :: replace pat rep s'
        end
    end.
Proof. destruct s; reflexivity. Qed.

(** [replace] removes the first occurrence of the pattern, wherever it is:
    the text before it and the text after it are joined. *)
Lemma replace_first_occurrence pat pre post :
  (forall k, (k < length pre)%nat -> ¬ pat `prefix_of` drop k (pre ++ pat ++ post)) ->
  replace pat [] (pre ++ pat ++ post) = pre ++ post.
Proof.
  induction pre as [|c pre IH]; intros H.
  - simpl. rewrite replace_unfold, strip_prefix_app. reflexivity.
  - rewrite replace_unfold.
    destruct (strip_prefix pat ((c :: pre) ++ pat ++ post)) as [rest|] eqn:E.
    + apply strip_prefix_Some in E. destruct (H 0%nat); [simpl; lia|].
      exists rest. exact E.
    + simpl. f_equal. apply IH. intros k Hk. apply (H (S k)). simpl. lia.
Qed.

(** C2: a successful join of a draw with requirement type follow, from an
    empty accumulator, records the streamer's id and then the extra names of
    the requirement text: the first occurrence of the marker '关注主播' is
    removed from the text, what is left is split on the plus signs with
    their surrounding whitespace, and the first token is dropped. For the
    text '关注主播 A + B + C' the accumulator holds exactly the streamer's
    id, 'B' and 'C'. *)
Theorem doLottery_follow_ABC remote (c : CheckedLottery.t) w r l pre post :
  let d := CheckedLottery.dto c in
  LiveCheckLotteryDto.require_type d = RequireType.Follow ->
  LiveCheckLotteryDto.require_text d = pre ++ follow_marker ++ post ->
  (forall k, (k < length pre)%nat ->
             ¬ follow_marker `prefix_of` drop k (pre ++ follow_marker ++ post)) ->
  joinLottery remote (trace w) (LiveCheckLotteryDto.id d) (LiveCheckLotteryDto.gift_id d)
              (LiveCheckLotteryDto.gift_num d) = Answer r ->
  Res.code r = 0 ->
  newFollowUp w = Some l ->
  heap w !! l = Some [] ->
  fst (doLottery remote c w) = Ok tt
  /\ newFollowUp (snd (doLottery remote c w)) = Some l
  /\ heap (snd (doLottery remote c w)) !! l
     = Some (fold_left add_new
               (Uid (CheckedLottery.uid c)
                :: map Name (tail (split_sep [] (pre ++ post))))
               [])
  /\ (pre = [] -> post = js " A + B + C" ->
      heap (snd (doLottery remote c w)) !! l
      = Some [Uid (CheckedLottery.uid c); Name (js "B"); Name (js "C")]).
Proof.
  intros d Ht Htext Hfirst Hr Hc Hl Hxs.
  destruct (doLottery_follow_run remote c w r l [] Ht Hr Hc Hl Hxs)
    as (w' & -> & Hl' & Hxs').
  assert (getRequireUp (LiveCheckLotteryDto.require_text (CheckedLottery.dto c))
          = tail (split_sep [] (pre ++ post))) as Hnames.
  { fold d. rewrite Htext. unfold getRequireUp.
    rewrite (replace_first_occurrence follow_marker pre post Hfirst). reflexivity. }
  simpl. rewrite Hxs', Hnames. repeat split; [exact Hl'|].
  intros -> ->. reflexivity.
Qed.

Section NoDup.
(** [newFollowUp] is bound to an array without duplicates. *)
Let J (h : list (list IdOrName)) (nf : option nat) : Prop :=
  exists l xs, nf = Some l /\ h !! l = Some xs /\ NoDup xs.

Lemma add_new_NoDup xs item : NoDup xs -> NoDup (add_new xs item).
Proof.
  intros H. unfold add_new. destruct (bool_decide_reflect (item ∈ xs)); [exact H|].
  apply NoDup_app. repeat split; [exact H| |apply NoDup_singleton].
  intros x Hx Hin. apply list_elem_of_singleton in Hin. subst. contradiction.
Qed.

Lemma nodup_pushIfNotExist item w :
  state_inv J w -> state_inv J (snd (pushIfNotExist (newFollowUp w) item w)).
Proof.
  intros (l & xs & Hl & Hxs & Hnd).
  destruct (pushIfNotExist_add_new l xs item w Hl Hxs) as (w' & -> & Hl' & Hxs' & _).
  exists l, (add_new xs item). simpl. auto using add_new_NoDup.
Qed.

Lemma reset_nodup w : state_inv J (reset w).
Proof.
  exists (length (heap w)), []. simpl. repeat split; [|constructor].
  apply list_lookup_middle. reflexivity.
Qed.

(** X26: the list the lottery pipeline returns has no duplicates: every
    entry goes through [pushIfNotExist]. *)
Theorem liveLotteryService_deduplicated cfg remote str_match w a w1 :
  liveLotteryService cfg remote str_match w = (Ok a, w1) ->
  exists l xs, a = Some l /\ heap w1 !! l = Some xs /\ NoDup xs.
Proof.
  intros H. rewrite liveLotteryService_reset in H.
  pose proof (preserves_lottery_body _ cfg remote str_match
                nodup_pushIfNotExist (reset w) (reset_nodup w)) as HJ.
  rewrite (body_returns_newFollowUp _ _ _ _ _ H).
  rewrite H in HJ. exact HJ.
Qed.
End NoDup.

(** ** Failures of a single room *)

Lemma verdict_Ok cfg data excluded included w :
  exists o, fst (verdict cfg data excluded included w) = Ok o.
Proof.
  unfold verdict.
  repeat match goal with |- context [if ?b then _ else _] => destruct b; simpl end;
    eauto.
Qed.

Lemma verdict_trace cfg data excluded included w :
  trace (snd (verdict cfg data excluded included w)) = trace w.
Proof.
  unfold verdict.
  repeat match goal with |- context [if ?b then _ else _] => destruct b; simpl end;
    reflexivity.
Qed.

Section Isolation.
Context (cfg : Config) (remote : Remote) (str_match : jsstring -> jsstring -> option bool).

(** An exception of the check request is caught: the room is skipped. *)
Lemma checkLotteryRoom_raise (room : LiveRoomList.t) w e :
  LiveRoomList.uid room ∉ LOTTERY_UP_BLACKLIST cfg ->
  checkLottery remote (trace w) (LiveRoomList.roomid room) = Raise e ->
  checkLotteryRoom cfg remote str_match room w
  = (Ok None,
     add_log (Info (CheckException (LiveRoomList.roomid room) e))
             (add_event (Call (CheckLottery (LiveRoomList.roomid room))) w)).
Proof.
  intros Hb He. unfold checkLotteryRoom.
  rewrite bool_decide_eq_false_2 by exact Hb.
  run. rewrite He. reflexivity.
Qed.

(** What [checkLotteryRoom] throws: the TypeError of an answer with code 0
    and undefined data, and the SyntaxError of a pattern test. *)
Lemma checkLotteryRoom_thrown (room : LiveRoomList.t) w e :
  fst (checkLotteryRoom cfg remote str_match room w) = Thrown e
  <-> (LiveRoomList.uid room ∉ LOTTERY_UP_BLACKLIST cfg)
      /\ exists r,
           checkLottery remote (trace w) (LiveRoomList.roomid room) = Answer r
           /\ Res.code r = 0
           /\ ((Res.data r = Undefined /\ e = TypeError)
               \/ exists data,
                    Res.data r = Value data
                    /\ e = SyntaxError
                    /\ (isExclude cfg str_match data = None
                        \/ isInclude cfg str_match data = None)).
Proof.
  split.
  - destruct (decide (LiveRoomList.uid room ∈ LOTTERY_UP_BLACKLIST cfg)) as [Hin|Hb].
    { unfold checkLotteryRoom. rewrite bool_decide_eq_true_2 by exact Hin.
      discriminate. }
    destruct (checkLottery remote (trace w) (LiveRoomList.roomid room)) as [r|e0]
      eqn:Hr.
    2: { rewrite (checkLotteryRoom_raise room w e0 Hb Hr). discriminate. }
    destruct (decide (Res.code r = 0)) as [Hc|Hc].
    2: { unfold checkLotteryRoom. rewrite bool_decide_eq_false_2 by exact Hb.
         run. rewrite Hr. simpl.
         destruct (decide (Res.code r ≠ 0)); [discriminate|contradiction]. }
    rewrite (checkLotteryRoom_answer cfg remote str_match room w r Hb Hr Hc). simpl.
    intros H. split; [exact Hb|]. exists r. split; [reflexivity|]. split; [exact Hc|].
    destruct (Res.data r) as [| |data]; [injection H as <-; auto|discriminate|].
    right. exists data. split; [reflexivity|].
    destruct (isExclude cfg str_match data) as [excluded|];
      [|injection H as <-; auto].
    destruct (isInclude cfg str_match data) as [included|];
      [|injection H as <-; auto].
    destruct (verdict_Ok cfg data excluded included
                (add_event (Call (CheckLottery (LiveRoomList.roomid room))) w))
      as [o Ho].
    rewrite Ho in H. discriminate.
  - intros (Hb & r & Hr & Hc & H).
    rewrite (checkLotteryRoom_answer cfg remote str_match room w r Hb Hr Hc). simpl.
    destruct H as [[-> ->]|(data & -> & -> & H)]; [reflexivity|].
    destruct H as [-> | H]; [reflexivity|]. rewrite H.
    destruct (isExclude cfg str_match data); reflexivity.
Qed.

(** [checkLotteryRoom] makes one request for a room off the blacklist and
    none for a room on it, whatever its result. *)
Lemma checkLotteryRoom_request (room : LiveRoomList.t) :
  emits (checkLotteryRoom cfg remote str_match room)
    (fun _ evs =>
       LiveRoomList.uid room ∉ LOTTERY_UP_BLACKLIST cfg ->
       evs = [Call (CheckLottery (LiveRoomList.roomid room))]).
Proof.
  intros w.
  destruct (decide (LiveRoomList.uid room ∈ LOTTERY_UP_BLACKLIST cfg)) as [Hin|Hb].
  { exists []. unfold checkLotteryRoom. rewrite bool_decide_eq_true_2 by exact Hin.
    run. rewrite app_nil_r. split; [reflexivity|]. intros; contradiction. }
  exists [Call (CheckLottery (LiveRoomList.roomid room))]. split; [|auto].
  destruct (checkLottery remote (trace w) (LiveRoomList.roomid room)) as [r|e0] eqn:Hr.
  2: { rewrite (checkLotteryRoom_raise room w e0 Hb Hr). reflexivity. }
  destruct (decide (Res.code r = 0)) as [Hc|Hc].
  2: { unfold checkLotteryRoom. rewrite bool_decide_eq_false_2 by exact Hb.
       run. rewrite Hr. simpl.
       destruct (decide (Res.code r ≠ 0)); [reflexivity|contradiction]. }
  rewrite (checkLotteryRoom_answer cfg remote str_match room w r Hb Hr Hc). simpl.
  destruct (Res.data r) as [| |data]; try reflexivity.
  destruct (isExclude cfg str_match data) as [excluded|]; [|reflexivity].
  destruct (isInclude cfg str_match data) as [included|]; [|reflexivity].
  apply verdict_trace.
Qed.



(** When the checks can be read, the step of a room returns, and the loop
    over the rooms of a page reaches every room. *)
Section Readable.
Hypothesis readable : checks_readable cfg str_match remote.

Lemma checkLotteryRoom_total (room : LiveRoomList.t) :
  emits (checkLotteryRoom cfg remote str_match room)
    (fun res evs =>
       (exists data, res = Ok data)
       /\ (LiveRoomList.uid room ∉ LOTTERY_UP_BLACKLIST cfg ->
           evs = [Call (CheckLottery (LiveRoomList.roomid room))])).
Proof.
  intros w. destruct (checkLotteryRoom_request room w) as (evs & Ht & Hevs).
  exists evs. split; [exact Ht|]. split; [|exact Hevs].
  destruct (fst (checkLotteryRoom cfg remote str_match room w)) as [data|e] eqn:E;
    [eauto|].
  apply checkLotteryRoom_thrown in E as (_ & r & Hr & Hc & H).
  destruct (readable _ _ _ Hr Hc) as [Hu Hv].
  destruct H as [[H _]|(data & Hd & _ & H)]; [contradiction|].
  destruct (Hv data Hd) as [Hx Hi]. destruct H; contradiction.
Qed.

Lemma checkLotteryRoomList_loop_total (rooms : list LiveRoomList.t) acc :
  emits (for_of rooms (checkLotteryRoomList_body cfg remote str_match) acc)
    (fun res evs =>
       (exists l, res = Ok l)
       /\ forall room, room ∈ rooms ->
            LiveRoomList.uid room ∉ LOTTERY_UP_BLACKLIST cfg ->
            Call (CheckLottery (LiveRoomList.roomid room)) ∈ evs).
Proof.
  revert acc. induction rooms as [|room rooms IH]; intros acc; simpl.
  - apply emits_ret. split; [eauto|]. intros room H. inversion H.
  - apply (emits_bind _ _
             (fun res evs =>
                (exists l, res = Ok l)
                /\ (LiveRoomList.uid room ∉ LOTTERY_UP_BLACKLIST cfg ->
                    Call (CheckLottery (LiveRoomList.roomid room)) ∈ evs))
             (fun _ res evs =>
                (exists l, res = Ok l)
                /\ forall room, room ∈ rooms ->
                     LiveRoomList.uid room ∉ LOTTERY_UP_BLACKLIST cfg ->
                     Call (CheckLottery (LiveRoomList.roomid room)) ∈ evs)).
    + unfold checkLotteryRoomList_body.
      apply (emits_bind _ _ _
               (fun _ res evs => (exists l, res = Ok l) /\ True)
               _ (checkLotteryRoom_total room)).
      * intros [data|].
        -- apply (emits_bind _ _ (fun res _ => res = Ok tt)
                    (fun _ res _ => (exists l, res = Ok l) /\ True)).
           ++ apply emits_apiDelay. reflexivity.
           ++ intros _. apply emits_ret. eauto.
           ++ intros e evs ?. discriminate.
           ++ intros _ evs1 r evs2 _ H. exact H.
        -- apply emits_ret. eauto.
      * intros e evs [[data ?] _]. discriminate.
      * intros data evs1 r evs2 [? Hc] [Hr ?]. split; [exact Hr|].
        intros Hb. rewrite (Hc Hb). apply elem_of_app. left. left.
    + intros acc'. apply IH.
    + intros e evs [[l ?] _]. discriminate.
    + intros acc' evs1 r evs2 [_ Hc] [Hr Hrest]. split; [exact Hr|].
      intros room' Hin Hb. apply elem_of_app.
      apply elem_of_cons in Hin as [-> | Hin]; [left; auto|right; auto].
Qed.
End Readable.

Lemma elem_of_pages (num page : Z) : 1 <= page <= num -> page ∈ pages num.
Proof.
  intros H. unfold pages. apply list_elem_of_fmap.
  exists (Z.to_nat page). split; [lia|]. apply elem_of_seq. lia.
Qed.

(** An area whose page fetches all answer with data. *)
Section Pages.
Context (areaId parentId : jsstring).
Hypothesis fetches : pages_readable remote parentId areaId.

Lemma getLotteryRoomList_total page lotType :
  emits (getLotteryRoomList remote areaId parentId page lotType)
    (fun res evs =>
       (exists rooms, res = Ok rooms)
       /\ evs = [Delay 100; Call (GetLiveRoom parentId areaId page)]).
Proof.
  intros w. destruct (fetches (trace w ++ [Delay 100]) page) as (a & data & Ha & Hd).
  destruct (getLotteryRoomList_answer remote areaId parentId page lotType w a data
              Ha Hd) as (w1 & Hrun & Ht & _).
  exists [Delay 100; Call (GetLiveRoom parentId areaId page)].
  rewrite Hrun. simpl. eauto.
Qed.

(** No failure of a room stops the loop over the pages, when the checks
    can be read. *)
Hypothesis readable : checks_readable cfg str_match remote.

Lemma doLotteryArea_page_total page :
  emits (doLotteryArea_page cfg remote str_match areaId parentId tt page)
    (fun res evs =>
       res = Ok tt /\ Call (GetLiveRoom parentId areaId page) ∈ evs).
Proof.
  unfold doLotteryArea_page.
  apply (emits_bind _ _
           (fun res evs =>
              (exists l, res = Ok l)
              /\ Call (GetLiveRoom parentId areaId page) ∈ evs)
           (fun _ res _ => res = Ok tt)).
  - unfold checkLotteryRoomList.
    apply (emits_bind _ _ _
             (fun _ res _ => exists l, res = Ok l)
             _ (getLotteryRoomList_total page lottery)).
    + intros rooms. eapply emits_conseq;
        [apply (checkLotteryRoomList_loop_total readable)|].
      simpl. intros res evs [H _]. exact H.
    + intros e evs [[rooms ?] _]. discriminate.
    + intros rooms evs1 r evs2 [? ->] Hr. split; [exact Hr|].
      apply elem_of_app. left. right. left.
  - intros rooms. eapply emits_conseq; [apply doLotteryArea_rooms_emits|].
    simpl. intros res evs [H _]. exact H.
  - intros e evs [[l ?] _]. discriminate.
  - intros rooms evs1 r evs2 [_ Hin] ->. split; [reflexivity|].
    apply elem_of_app. left. exact Hin.
Qed.

Lemma doLotteryArea_total num :
  emits (doLotteryArea cfg remote str_match areaId parentId num)
    (fun res evs =>
       res = Ok tt
       /\ forall page, 1 <= page <= num ->
            Call (GetLiveRoom parentId areaId page) ∈ evs).
Proof.
  unfold doLotteryArea.
  eapply emits_conseq with
    (Q := fun res evs =>
            res = Ok tt
            /\ forall page, page ∈ pages num ->
                 Call (GetLiveRoom parentId areaId page) ∈ evs).
  - induction (pages num) as [|page ps IH]; simpl.
    + apply emits_ret. split; [reflexivity|]. intros page H. inversion H.
    + apply (emits_bind _ _ _
               (fun _ res evs =>
                  res = Ok tt
                  /\ forall page, page ∈ ps ->
                       Call (GetLiveRoom parentId areaId page) ∈ evs)
               _ (doLotteryArea_page_total page)).
      * intros []. exact IH.
      * intros e evs [? _]. discriminate.
      * intros u evs1 r evs2 [_ Hin] [-> Hrest]. split; [reflexivity|].
        intros page' Hp. apply elem_of_app.
        apply elem_of_cons in Hp as [-> | Hp]; [left; auto|right; auto].
  - simpl. intros res evs [Hr Hin]. split; [exact Hr|].
    intros page Hp. apply Hin, elem_of_pages, Hp.
Qed.
End Pages.

End Isolation.



(** ** Concrete runs *)

Import Examples.

(** The parser of the requirement text on a few texts: the marker alone, a
    single streamer, no marker, and a marker that is not leading. *)
Example getRequireUp_marker_only : getRequireUp follow_marker = [].
Proof. reflexivity. Qed.

Example getRequireUp_single : getRequireUp (follow_marker ++ js " A") = [].
Proof. reflexivity. Qed.

Example getRequireUp_no_marker : getRequireUp (js "A+B  +  C") = [js "B"; js "C"].
Proof. reflexivity. Qed.

Example getRequireUp_inner_marker :
  getRequireUp (js "X + " ++ follow_marker ++ js "B") = [js "B"].
Proof. reflexivity. Qed.

(** The badge partition: the time-lottery badge, the red-packet badge, another
    badge, and no badge in slot "2". *)
Example pendentLottery_partition :
  let bare := {| LiveRoomList.roomid := 71; LiveRoomList.uid := 8;
                 LiveRoomList.uname := js "up8"; LiveRoomList.pendant_info := ∅ |} in
  pendentLottery [room7 PendentID.Time; room7 PendentID.RedPacket;
                  room7 PendentID.Other; bare]
  = ([room7 PendentID.Time], [room7 PendentID.RedPacket]).
Proof. reflexivity. Qed.

(** One sub-category, two pages, an eligible room on page 1 only: two page
    fetches, one join, one entry in the accumulator. *)
Example two_pages_one_join :
  let run := liveLotteryService (config 2) paged_platform literal_match start in
  fst run = Ok (Some 0%nat)
  /\ heap (snd run) !! 0%nat = Some [Uid 7]
  /\ trace (snd run)
     = [Call GetArea;
        Delay 100; Call (GetLiveRoom (js "1") (js "21") 1);
        Call (CheckLottery 70); Delay 100;
        Call (JoinLottery 900 0 0); Delay 300;
        Delay 100; Call (GetLiveRoom (js "1") (js "21") 2)].
Proof. repeat split. Qed.

(** C1: the red-packet pipeline pushes the streamer's id without looking for
    it in the accumulator, so a streamer joined on two pages is returned
    twice. *)
Theorem red_packet_joins_duplicate_entries :
  fst (liveRedPackService (config 2) open_platform start) = Ok (Some 0%nat)
  /\ heap (snd (liveRedPackService (config 2) open_platform start)) !! 0%nat
     = Some [Uid 7; Uid 7]
  /\ ~ NoDup [Uid 7; Uid 7].
Proof.
  repeat split.
  intros H. apply NoDup_cons in H as [H _]. apply H. left.
Qed.

(** The same two joins in the lottery pipeline are recorded once. *)
Example lottery_joins_recorded_once :
  heap (snd (liveLotteryService (config 2) follow_platform literal_match start)) !! 0%nat
  = Some [Uid 7; Name (js "B"); Name (js "C")].
Proof. reflexivity. Qed.

(** A marker that is not leading is removed all the same: the text
    'X + 关注主播B' names the extra streamer 'B'. *)
Example inner_marker_is_removed :
  let c := {| CheckedLottery.dto :=
                draw RequireType.Follow (js "X + " ++ follow_marker ++ js "B");
              CheckedLottery.uid := 7; CheckedLottery.uname := js "up7" |} in
  heap (snd (doLottery follow_platform c (reset start))) !! 0%nat
  = Some [Uid 7; Name (js "B")].
Proof. reflexivity. Qed.

Lemma doLottery_follow_ABC_witness :
  fst (doLottery follow_platform follow_lottery (reset start)) = Ok tt
  /\ newFollowUp (snd (doLottery follow_platform follow_lottery (reset start))) = Some 0%nat
  /\ heap (snd (doLottery follow_platform follow_lottery (reset start))) !! 0%nat
     = Some [Uid 7; Name (js "B"); Name (js "C")].
Proof.
  destruct (doLottery_follow_ABC follow_platform follow_lottery (reset start)
              {| Res.code := 0; Res.message := js "0"; Res.data := tt |} 0%nat
              [] (js " A + B + C")) as (Hres & Hnew & _ & Hacc); try reflexivity.
  - intros k Hk. simpl in Hk. lia.
  - split; [exact Hres|]. split; [exact Hnew|]. apply Hacc; reflexivity.
Defined.

(** C3 as stated fails: room 70 carries the badge, is listed and checked
    once, its entry is open (status 1), and it is not joined, because the lot
    id of the entry is 0. *)
Lemma open_entry_with_zero_lot_not_joined :
  snd (pendentLottery [room7 PendentID.RedPacket]) = [room7 PendentID.RedPacket]
  /\ (forall t, exists a data e rest,
         checkRedPacket zero_platform t 70 = Answer a
         /\ Res.data a = Value data
         /\ RedPacketData.popularity_red_pocket data = Some (e :: rest)
         /\ RedPocket.lot_status e ≠ 2)
  /\ count (is_check_of 70) (emitted (liveRedPackService (config 1) zero_platform) start)
     = 1%nat
  /\ count (is_join_of 70) (emitted (liveRedPackService (config 1) zero_platform) start)
     ≠ 1%nat.
Proof.
  split; [reflexivity|]. split; [|split; [reflexivity|discriminate]].
  intros t. eexists _, _, zero_packet, []. repeat split. discriminate.
Qed.

Lemma red_packet_join_rule_witness :
  count (is_join_of 70) (emitted (liveRedPackService (config 2) closed_platform) start)
  = 0%nat
  /\ count (is_join_of 70) (emitted (liveRedPackService (config 2) open_platform) start)
     = count (is_check_of 70) (emitted (liveRedPackService (config 2) open_platform) start).
Proof.
  split.
  - apply (proj1 (red_packet_join_rule (config 2) closed_platform 70)).
    intros t a data e rest [= <-] [= <-] [= <- _]. reflexivity.
  - apply (proj2 (red_packet_join_rule (config 2) open_platform 70)).
    intros t. eexists _, _, open_packet, []. repeat split; discriminate.
Defined.

(** C4 as stated fails: the join of room 70 comes right after the 100ms
    delay of its check, and the delay of 200ms (300ms for a lottery join)
    comes after the join. *)
Lemma join_is_not_preceded_by_its_delay :
  ~ preceded_by is_redpacket_join (Delay 200) None
      (emitted (liveRedPackService (config 1) open_platform) start)
  /\ ~ preceded_by is_lottery_join (Delay 300) None
         (emitted (liveLotteryService (config 1) follow_platform literal_match) start).
Proof.
  split; intros H; vm_compute in H;
    destruct H as (_ & _ & _ & _ & _ & H & _); specialize (H eq_refl); discriminate.
Qed.

Lemma getLiveArea_soft_failure_witness :
  getLiveArea soft_failure_platform start
  = (Ok [[ {| LiveAreaType.areaId := js "21"; LiveAreaType.parentId := js "1" |} ]],
     add_log (Info (AreaFailed (-400) (js "bad request")))
             (add_event (Call GetArea) start)).
Proof.
  apply (proj1 (getLiveArea_soft_failure (config 2) soft_failure_platform literal_match
                  start soft_failure eq_refl ltac:(discriminate))
               one_area eq_refl).
Defined.

(** C5 as stated fails: the category endpoint answers, with the failure code
    -400 and no data; [getLiveArea] throws, and both pipelines stop there. *)
Lemma failure_answer_without_data_aborts :
  getArea hard_failure_platform (trace start) = Answer hard_failure
  /\ Res.code hard_failure ≠ 0
  /\ getLiveArea hard_failure_platform start
     = (Thrown TypeError,
        add_log (Error (AreaException TypeError))
          (add_log (Info (AreaFailed (-400) (js "bad request")))
             (add_event (Call GetArea) start)))
  /\ fst (liveLotteryService (config 2) hard_failure_platform literal_match start)
     = Thrown TypeError
  /\ emitted (liveLotteryService (config 2) hard_failure_platform literal_match) start
     = [Call GetArea]
  /\ fst (liveRedPackService (config 2) hard_failure_platform start) = Thrown TypeError
  /\ emitted (liveRedPackService (config 2) hard_failure_platform) start = [Call GetArea].
Proof. repeat split. discriminate. Qed.



Lemma checkLotteryRoom_level_witness :
  (fst (checkLotteryRoom (level_config 10) level_platform literal_match
          (room7 PendentID.Time) start) = Ok (Some level_draw)
   <-> 10 >= 10)
  /\ (fst (checkLotteryRoom (level_config 10) level_platform literal_match
             (room7 PendentID.Time) start) = Ok None
      <-> 10 < 10).
Proof.
  apply (checkLotteryRoom_level (level_config 10) level_platform literal_match
           (room7 PendentID.Time) start
           {| Res.code := 0; Res.message := js "0"; Res.data := Value level_draw |}
           level_draw false false); try reflexivity.
  intros H. inversion H.
Defined.

(** The example of the specification: level 10 required, users of level 10 and
    15 are accepted, a user of level 9 is not. *)
Example level_10_15_9 :
  fst (checkLotteryRoom (level_config 10) level_platform literal_match
         (room7 PendentID.Time) start) = Ok (Some level_draw)
  /\ fst (checkLotteryRoom (level_config 15) level_platform literal_match
            (room7 PendentID.Time) start) = Ok (Some level_draw)
  /\ fst (checkLotteryRoom (level_config 9) level_platform literal_match
            (room7 PendentID.Time) start) = Ok None.
Proof. repeat split. Qed.


Lemma returned_list_is_not_mutated_witness :
  exists l xs,
    Some 0%nat = Some l
    /\ heap (snd (liveRedPackService (config 2) open_platform start)) !! l = Some xs
    /\ forall w,
         heap w !! l = Some xs ->
         heap (snd (liveLotteryService (config 2) follow_platform literal_match w)) !! l
         = Some xs
         /\ fst (liveLotteryService (config 2) follow_platform literal_match w)
            ≠ Ok (Some l).
Proof.
  apply (returned_list_is_not_mutated (config 2) open_platform literal_match
           (config 2) follow_platform literal_match
           (liveRedPackService (config 2) open_platform)
           (liveLotteryService (config 2) follow_platform literal_match)
           (or_intror eq_refl) (or_introl eq_refl) start).
  reflexivity.
Defined.

(** The list returned by a first run is still as returned after a second
    run. *)
Example second_run_leaves_first_list :
  let w1 := snd (liveRedPackService (config 2) open_platform start) in
  let w2 := snd (liveLotteryService (config 2) follow_platform literal_match w1) in
  heap w1 !! 0%nat = Some [Uid 7; Uid 7]
  /\ heap w2 !! 0%nat = Some [Uid 7; Uid 7]
  /\ heap w2 !! 1%nat = Some [Uid 7; Name (js "B"); Name (js "C")].
Proof. repeat split. Qed.

Lemma zero_lot_id_is_excluded_witness :
  (forall areaId parentId page w l,
      fst (getRedPacketRoom zero_platform areaId parentId page w) = Ok l ->
      Forall (fun p => RedPacket.room_id p ≠ 70) l)
  /\ (forall w,
         count (is_join_of 70) (emitted (liveRedPackService (config 2) zero_platform) w)
         = 0%nat).
Proof.
  apply (zero_lot_id_is_excluded (config 2) zero_platform 70).
  intros t a data e rest [= <-] [= <-] [= <- _]. reflexivity.
Defined.


(** * Further properties of the service *)

(** ** The badge partition *)

Lemma elem_of_List_filter {A} (p : A -> bool) (l : list A) x :
  x ∈ List.filter p l <-> x ∈ l /\ p x = true.
Proof.
  rewrite !list_elem_of_In. apply filter_In.
Qed.

Lemma sublist_List_filter {A} (p : A -> bool) (l : list A) :
  sublist (List.filter p l) l.
Proof.
  induction l as [|x l IH]; simpl; [constructor|].
  destruct (p x); [apply sublist_skip|apply sublist_cons]; exact IH.
Qed.

Lemma pendentLottery_has (p : PendentID.t) (room : LiveRoomList.t) :
  match LiveRoomList.pendant_info room !! "2"%string with
  | None => false
  | Some num2 => bool_decide (Pendant.pendent_id num2 = p)
  end = true
  <-> badge_of room = Some p.
Proof.
  unfold badge_of.
  destruct (LiveRoomList.pendant_info room !! "2"%string) as [num2|]; simpl.
  - rewrite bool_decide_eq_true. split; [intros ->; reflexivity|intros [= ->]; reflexivity].
  - split; discriminate.
Qed.

(** X1: [pendentLottery] sorts the rooms by the badge in slot "2": a room is
    in the lottery list exactly when it is listed with the time-lottery
    badge, in the red-packet list exactly when it is listed with the
    red-packet badge; no room is in both, a room without the slot or with
    another badge is in neither, and both lists keep the listing order. *)
Theorem pendentLottery_sorts_by_badge (list : Datatypes.list LiveRoomList.t) :
  (forall room,
      room ∈ fst (pendentLottery list)
      <-> room ∈ list /\ badge_of room = Some PendentID.Time)
  /\ (forall room,
         room ∈ snd (pendentLottery list)
         <-> room ∈ list /\ badge_of room = Some PendentID.RedPacket)
  /\ (forall room, room ∈ fst (pendentLottery list) -> room ∉ snd (pendentLottery list))
  /\ sublist (fst (pendentLottery list)) list
  /\ sublist (snd (pendentLottery list)) list.
Proof.
  unfold pendentLottery. simpl.
  assert (forall room,
             room ∈ List.filter
               (fun item =>
                  negb match LiveRoomList.pendant_info item !! "2"%string with
                       | None => false
                       | Some num2 => bool_decide (Pendant.pendent_id num2 = PendentID.Time)
                       end
                  && match LiveRoomList.pendant_info item !! "2"%string with
                     | None => false
                     | Some num2 =>
                         bool_decide (Pendant.pendent_id num2 = PendentID.RedPacket)
                     end) list
             <-> room ∈ list /\ badge_of room = Some PendentID.RedPacket) as Hpacket.
  { intros room. rewrite elem_of_List_filter, andb_true_iff, negb_true_iff.
    rewrite (pendentLottery_has PendentID.RedPacket).
    split; [intros [? [_ ?]]; auto|]. intros [Hin Hb]. repeat split; auto.
    apply not_true_is_false. rewrite (pendentLottery_has PendentID.Time), Hb.
    discriminate. }
  repeat apply conj.
  - intros room. rewrite elem_of_List_filter, (pendentLottery_has PendentID.Time).
    reflexivity.
  - exact Hpacket.
  - intros room H1 H2. apply elem_of_List_filter in H1 as [_ H1].
    apply (pendentLottery_has PendentID.Time) in H1.
    apply Hpacket in H2 as [_ H2]. congruence.
  - apply sublist_List_filter.
  - apply sublist_List_filter.
Qed.


(** ** Failures of the two fetchers *)

(** X2: when the category endpoint throws, [getLiveArea] logs the error and
    throws it again, and each pipeline stops there with that error: the
    reset and the category request are all it did. *)
Theorem category_failure_aborts cfg remote str_match w e :
  getArea remote (trace w) = Raise e ->
  getLiveArea remote w
  = (Thrown e, add_log (Error (AreaException e)) (add_event (Call GetArea) w))
  /\ liveLotteryService cfg remote str_match w
     = (Thrown e,
        add_log (Error (AreaException e)) (add_event (Call GetArea) (reset w)))
  /\ liveRedPackService cfg remote w
     = (Thrown e,
        add_log (Error (AreaException e)) (add_event (Call GetArea) (reset w))).
Proof.
  intros He. repeat split.
  - unfold getLiveArea. run. rewrite He. reflexivity.
  - unfold liveLotteryService, getLiveArea. run. rewrite He. reflexivity.
  - unfold liveRedPackService, getLiveArea. run. rewrite He. reflexivity.
Qed.

(** X3: when the page endpoint throws, [getLotteryRoomList] logs the error
    and throws it again after its delay of 100ms and the request; the page
    step of either pipeline throws the same error without checking or
    joining any room. *)
Theorem page_failure_aborts cfg remote str_match areaId parentId page lotType w e :
  getLiveRoom remote (trace w ++ [Delay 100]) parentId areaId page = Raise e ->
  let w' := add_log (Error (RoomListException e))
              (add_event (Call (GetLiveRoom parentId areaId page))
                 (add_event (Delay 100) w)) in
  getLotteryRoomList remote areaId parentId page lotType w = (Thrown e, w')
  /\ doLotteryArea_page cfg remote str_match areaId parentId tt page w = (Thrown e, w')
  /\ doRedPackArea_page remote areaId parentId tt page w = (Thrown e, w').
Proof.
  intros He w'.
  assert (forall lt, getLotteryRoomList remote areaId parentId page lt w = (Thrown e, w'))
    as Hfetch.
  { intros lt. unfold getLotteryRoomList. run. rewrite He. reflexivity. }
  repeat split.
  - apply Hfetch.
  - unfold doLotteryArea_page, checkLotteryRoomList.
    rewrite !bind_run, Hfetch. reflexivity.
  - unfold doRedPackArea_page, getRedPacketRoom.
    rewrite !bind_run, Hfetch. reflexivity.
Qed.

(** A page answered with a failure code is not an error: the failure is
    logged and the rooms of the answer are partitioned and returned as
    usual. *)
Lemma page_soft_failure remote areaId parentId page lotType w a data :
  getLiveRoom remote (trace w ++ [Delay 100]) parentId areaId page = Answer a ->
  Res.code a ≠ 0 ->
  Res.data a = Value data ->
  getLotteryRoomList remote areaId parentId page lotType w
  = (Ok (match lotType with
         | lottery => fst (pendentLottery (RoomPage.list data))
         | redPack => snd (pendentLottery (RoomPage.list data))
         end),
     add_log (Info (RoomListFailed (Res.code a) (Res.message a)))
       (add_event (Call (GetLiveRoom parentId areaId page))
          (add_event (Delay 100) w))).
Proof.
  intros Ha Hc Hd. unfold getLotteryRoomList. run. rewrite Ha. simpl.
  destruct (decide (Res.code a ≠ 0)); [|contradiction].
  simpl. rewrite Hd. reflexivity.
Qed.


(** ** The eligibility filter, as a whole *)

Section Eligibility.
Context (cfg : Config) (remote : Remote) (str_match : jsstring -> jsstring -> option bool).

(** The chain of conditions of [checkLotteryRoom], as a truth value. *)
Let accepts (data : LiveCheckLotteryDto.t) (excluded included : bool) : bool :=
  if negb included && excluded then false
  else if bool_decide (LiveCheckLotteryDto.status data ≠ TianXuanStatus.Enabled) then false
  else if bool_decide (LiveCheckLotteryDto.gift_price data > 0) then false
  else if bool_decide (LiveCheckLotteryDto.require_type data ≠ RequireType.None)
          && bool_decide (LiveCheckLotteryDto.require_type data ≠ RequireType.Follow) then
    bool_decide (LiveCheckLotteryDto.require_type data = RequireType.Level)
    && bool_decide (userLevel cfg >= LiveCheckLotteryDto.require_value data)
  else true.

Lemma verdict_accepts data excluded included w :
  fst (verdict cfg data excluded included w)
  = Ok (if accepts data excluded included then Some data else None).
Proof.
  unfold verdict, accepts.
  repeat match goal with |- context [if ?b then _ else _] => destruct b; simpl end;
    reflexivity.
Qed.

Lemma accepts_eligible data excluded included :
  isExclude cfg str_match data = Some excluded ->
  isInclude cfg str_match data = Some included ->
  accepts data excluded included = true <-> eligible cfg str_match data.
Proof.
  intros Hx Hi.
  assert (eligible cfg str_match data
          <-> (excluded = true -> included = true)
              /\ LiveCheckLotteryDto.status data = TianXuanStatus.Enabled
              /\ LiveCheckLotteryDto.gift_price data <= 0
              /\ (LiveCheckLotteryDto.require_type data = RequireType.None
                  \/ LiveCheckLotteryDto.require_type data = RequireType.Follow
                  \/ (LiveCheckLotteryDto.require_type data = RequireType.Level
                      /\ LiveCheckLotteryDto.require_value data <= userLevel cfg)))
    as ->.
  { unfold eligible. rewrite Hx, Hi. split.
    - intros [(ex & inc & [= <-] & [= <-] & H) Hrest]. auto.
    - intros [H Hrest]. split; [|exact Hrest]. exists excluded, included. auto. }
  unfold accepts.
  destruct included, excluded; simpl;
    try (split; [discriminate|intros [H _]; specialize (H eq_refl); discriminate]).
  all: destruct (LiveCheckLotteryDto.status data); simpl;
    try (split; [discriminate|intros (_ & ? & _); discriminate]).
  all: destruct (bool_decide_reflect (LiveCheckLotteryDto.gift_price data > 0)); simpl;
    try (split; [discriminate|intros (_ & _ & ? & _); lia]).
  all: destruct (LiveCheckLotteryDto.require_type data); simpl;
    try destruct (bool_decide_reflect
                    (userLevel cfg >= LiveCheckLotteryDto.require_value data)); simpl.
  all: split; try discriminate; intros; repeat split; auto; try lia;
    try (right; right; split; [reflexivity|lia]);
    try (match goal with
         | H : _ /\ _ /\ _ /\ (_ \/ _ \/ _) |- _ =>
             destruct H as (_ & _ & _ & [?|[?|[? ?]]]); try discriminate; lia
         end).
Qed.

(** A draw whose pattern tests do not evaluate is not eligible. *)
Lemma eligible_evaluates data :
  eligible cfg str_match data ->
  isExclude cfg str_match data ≠ None /\ isInclude cfg str_match data ≠ None.
Proof.
  intros [(ex & inc & -> & -> & _) _]. split; discriminate.
Qed.

(** A draw that [checkLotteryRoom] returns is eligible. *)
Lemma checkLotteryRoom_accepted_eligible (room : LiveRoomList.t) w r data :
  LiveRoomList.uid room ∉ LOTTERY_UP_BLACKLIST cfg ->
  checkLottery remote (trace w) (LiveRoomList.roomid room) = Answer r ->
  Res.code r = 0 ->
  Res.data r = Value data ->
  fst (checkLotteryRoom cfg remote str_match room w) = Ok (Some data) ->
  eligible cfg str_match data.
Proof.
  intros Hb Hr Hc Hd.
  rewrite (checkLotteryRoom_answer cfg remote str_match room w r Hb Hr Hc). simpl.
  rewrite Hd.
  destruct (isExclude cfg str_match data) as [excluded|] eqn:Hx; [|discriminate].
  destruct (isInclude cfg str_match data) as [included|] eqn:Hi; [|discriminate].
  rewrite verdict_accepts.
  rewrite <- (accepts_eligible data excluded included Hx Hi).
  destruct (accepts data excluded included); intros; try discriminate; reflexivity.
Qed.

(** X4: for a room off the blacklist whose check answers with a draw,
    [checkLotteryRoom] returns the draw exactly when the draw is eligible,
    skips the room exactly when the pattern tests evaluate and the draw is
    not eligible, and throws, a SyntaxError, exactly when a pattern test
    does not evaluate. *)
Theorem checkLotteryRoom_accepts_iff (room : LiveRoomList.t) w r data :
  LiveRoomList.uid room ∉ LOTTERY_UP_BLACKLIST cfg ->
  checkLottery remote (trace w) (LiveRoomList.roomid room) = Answer r ->
  Res.code r = 0 ->
  Res.data r = Value data ->
  (fst (checkLotteryRoom cfg remote str_match room w) = Ok (Some data)
   <-> eligible cfg str_match data)
  /\ (fst (checkLotteryRoom cfg remote str_match room w) = Ok None
      <-> isExclude cfg str_match data ≠ None
          /\ isInclude cfg str_match data ≠ None
          /\ ~ eligible cfg str_match data)
  /\ (forall e,
         fst (checkLotteryRoom cfg remote str_match room w) = Thrown e
         <-> e = SyntaxError
             /\ (isExclude cfg str_match data = None
                 \/ isInclude cfg str_match data = None)).
Proof.
  intros Hb Hr Hc Hd.
  rewrite (checkLotteryRoom_answer cfg remote str_match room w r Hb Hr Hc). simpl.
  rewrite Hd.
  destruct (isExclude cfg str_match data) as [excluded|] eqn:Hx.
  2: { simpl. split; [|split].
       - split; [discriminate|].
         intros H. apply eligible_evaluates in H as [H _]. congruence.
       - split; [discriminate|]. intros (H & _). congruence.
       - intros e. split; [intros [= <-]; auto|intros [-> _]; reflexivity]. }
  destruct (isInclude cfg str_match data) as [included|] eqn:Hi.
  2: { simpl. split; [|split].
       - split; [discriminate|].
         intros H. apply eligible_evaluates in H as [_ H]. congruence.
       - split; [discriminate|]. intros (_ & H & _). congruence.
       - intros e. split; [intros [= <-]; auto|intros [-> _]; reflexivity]. }
  rewrite verdict_accepts.
  rewrite <- (accepts_eligible data excluded included Hx Hi).
  split; [|split].
  - destruct (accepts data excluded included); split; intros; congruence.
  - destruct (accepts data excluded included); split.
    + discriminate.
    + intros (_ & _ & H). destruct (H eq_refl).
    + intros _. repeat split; discriminate.
    + reflexivity.
  - intros e. destruct (accepts data excluded included); split;
      try discriminate; intros [_ [H|H]]; discriminate.
Qed.
End Eligibility.


(** ** What the join step receives *)

Lemma emits_result {A} (m : M A) (Q : Result A -> list Event -> Prop)
    (Q' : Result A -> Prop) :
  emits m Q -> (forall w, Q' (fst (m w))) ->
  emits m (fun res evs => Q res evs /\ Q' res).
Proof.
  intros Hm HQ w. destruct (Hm w) as (evs & Ht & Hq). exists evs. auto.
Qed.

Section Joinable.
Context (cfg : Config) (remote : Remote) (str_match : jsstring -> jsstring -> option bool).

(** A draw that [checkLotteryRoom] returns is the draw of an answer with
    code 0 of the room's check; it is eligible, and the streamer of the
    room is off the blacklist. *)
Lemma checkLotteryRoom_sound (room : LiveRoomList.t) w d :
  fst (checkLotteryRoom cfg remote str_match room w) = Ok (Some d) ->
  (LiveRoomList.uid room ∉ LOTTERY_UP_BLACKLIST cfg)
  /\ eligible cfg str_match d
  /\ checked_draw remote (LiveRoomList.roomid room) d.
Proof.
  intros H.
  destruct (decide (LiveRoomList.uid room ∈ LOTTERY_UP_BLACKLIST cfg)) as [Hin|Hb].
  { unfold checkLotteryRoom in H. rewrite bool_decide_eq_true_2 in H by exact Hin.
    discriminate. }
  split; [exact Hb|].
  destruct (checkLottery remote (trace w) (LiveRoomList.roomid room)) as [r|e0] eqn:Hr.
  2: { rewrite (checkLotteryRoom_raise cfg remote str_match room w e0 Hb Hr) in H.
       discriminate. }
  destruct (decide (Res.code r = 0)) as [Hc|Hc].
  2: { unfold checkLotteryRoom in H. rewrite bool_decide_eq_false_2 in H by exact Hb.
       revert H. run. rewrite Hr. simpl.
       destruct (decide (Res.code r ≠ 0)); [discriminate|contradiction]. }
  pose proof H as H0.
  rewrite (checkLotteryRoom_answer cfg remote str_match room w r Hb Hr Hc) in H0.
  simpl in H0.
  destruct (Res.data r) as [| |data] eqn:Hd; try discriminate.
  assert (d = data) as ->.
  { destruct (isExclude cfg str_match data) as [excluded|]; [|discriminate].
    destruct (isInclude cfg str_match data) as [included|]; [|discriminate].
    unfold verdict in H0.
    repeat match type of H0 with
           | context [if ?b then _ else _] => destruct b; simpl in H0
           end; try discriminate; injection H0 as <-; reflexivity. }
  split.
  - exact (checkLotteryRoom_accepted_eligible cfg remote str_match room w r data
             Hb Hr Hc Hd H).
  - exists (trace w), r. auto.
Qed.

(** A checked draw that the join step may receive and that comes from the
    platform. *)
Let passed (c : CheckedLottery.t) : Prop :=
  joinable cfg str_match c /\ checked_from remote c.

(** The check loop only adds draws that passed. *)
Lemma checkLotteryRoomList_loop_sound (rooms : list LiveRoomList.t) acc w l :
  Forall (fun room => listed remote room /\ badge_of room = Some PendentID.Time) rooms ->
  Forall passed acc ->
  fst (for_of rooms (checkLotteryRoomList_body cfg remote str_match) acc w) = Ok l ->
  Forall passed l.
Proof.
  intros Hrooms. revert acc w.
  induction Hrooms as [|room rooms [Hlisted Hbadge] _ IH]; intros acc w Hacc; simpl.
  - intros [= <-]. exact Hacc.
  - rewrite bind_run. unfold checkLotteryRoomList_body at 1. rewrite bind_run.
    pose proof (checkLotteryRoom_sound room w) as Hs.
    destruct (checkLotteryRoom cfg remote str_match room w) as [[[d|]|e] w1];
      simpl in *; try discriminate.
    + apply IH. apply Forall_app. split; [exact Hacc|].
      destruct (Hs d eq_refl) as (Hb & He & Hc).
      constructor; [|constructor]. split; [split; assumption|].
      exists room. simpl. auto.
    + apply IH. exact Hacc.
Qed.

Lemma checkLotteryRoomList_passed areaId parentId page w l :
  fst (checkLotteryRoomList cfg remote str_match areaId parentId page w) = Ok l ->
  Forall passed l.
Proof.
  unfold checkLotteryRoomList. rewrite bind_run.
  destruct (getLotteryRoomList remote areaId parentId page lottery w)
    as [[rooms|e] w1] eqn:E; [|discriminate].
  apply checkLotteryRoomList_loop_sound; [|constructor].
  destruct (getLotteryRoomList_Ok remote areaId parentId page lottery w rooms)
    as (a & data & Ha & Hd & ->); [rewrite E; reflexivity|].
  apply Forall_forall. intros room Hin.
  unfold pendentLottery in Hin. simpl in Hin.
  apply elem_of_List_filter in Hin as [Hin Hbadge].
  split; [|apply pendentLottery_has, Hbadge].
  exists (trace w ++ [Delay 100]), parentId, areaId, page, a, data. auto.
Qed.

Lemma checkLotteryRoomList_sound areaId parentId page w l :
  fst (checkLotteryRoomList cfg remote str_match areaId parentId page w) = Ok l ->
  Forall (joinable cfg str_match) l.
Proof.
  intros H. eapply Forall_impl; [apply (checkLotteryRoomList_passed _ _ _ _ _ H)|].
  intros c [Hc _]. exact Hc.
Qed.

(** X5: every join request of the lottery pipeline is the join of a draw
    that passed the filter: the request carries the ids of a draw that a
    check of a listed room with the time-lottery badge answered with code
    0, that draw is eligible, and the streamer of the room is not on the
    blacklist. *)
Theorem lottery_joins_are_joinable w :
  Forall (fun e =>
            is_lottery_join e = true ->
            exists c,
              e = lottery_join_of c
              /\ joinable cfg str_match c
              /\ checked_from remote c)
         (emitted (liveLotteryService cfg remote str_match) w).
Proof.
  set (P := Forall (fun e =>
                      is_lottery_join e = true ->
                      exists c,
                        e = lottery_join_of c
                        /\ joinable cfg str_match c
                        /\ checked_from remote c)).
  assert (closed P) as HP.
  { split; [constructor|]. intros a b Ha Hb. apply Forall_app. auto. }
  assert (forall evs, Forall (fun e => is_lottery_join e = false) evs -> P evs) as Hnone.
  { intros evs H. eapply Forall_impl; [exact H|]. simpl. intros e He Hj. congruence. }
  assert (closed (Forall (fun e => is_lottery_join e = false))) as Hquiet.
  { split; [constructor|]. intros a b Ha Hb. apply Forall_app. auto. }
  apply (emits_emitted _ (fun _ evs => P evs)).
  apply closed_pipeline; [exact HP|apply Hnone; repeat constructor|].
  intros areaId parentId num. unfold doLotteryArea.
  apply closed_for_of; [exact HP|]. intros [] page _. unfold doLotteryArea_page.
  apply (emits_bind _ _
           (fun res evs =>
              Forall (fun e => is_lottery_join e = false) evs
              /\ forall l, res = Ok l -> Forall passed l)
           (fun l _ evs => evs = flat_map (fun c => [lottery_join_of c; Delay 300]) l)).
  - apply emits_result.
    + apply checkLotteryRoomList_emits; [exact Hquiet|repeat constructor..].
    + intros w0 l. apply checkLotteryRoomList_passed.
  - intros l. eapply emits_conseq; [apply doLotteryArea_rooms_emits|].
    simpl. intros res evs [_ ->]. reflexivity.
  - intros e evs [H _]. apply Hnone, H.
  - intros l evs1 r evs2 [Hnj Hl] ->. apply HP; [apply Hnone, Hnj|].
    specialize (Hl l eq_refl). clear -Hl.
    induction Hl as [|c l [Hc Hf] _ IH]; simpl; [constructor|].
    constructor; [intros _; eauto|]. constructor; [discriminate|exact IH].
Qed.
End Joinable.


(** ** What the red-packet pipeline joins *)

Lemma Forall_closed (p : Event -> Prop) : closed (Forall p).
Proof. split; [constructor|]. intros a b Ha Hb. apply Forall_app. auto. Qed.

Lemma truthy_lot_checked remote t room lot :
  truthy (lot_of (checkRedPacket remote t room)) = Some lot ->
  checked_lot remote room lot.
Proof.
  unfold lot_of, truthy, checked_lot.
  destruct (checkRedPacket remote t room) as [a|] eqn:Ea; [|discriminate].
  destruct (decide (Res.code a ≠ 0)) as [|Hc]; [discriminate|].
  destruct (Res.data a) as [| |data] eqn:Ed; try discriminate.
  destruct (RedPacketData.popularity_red_pocket data) as [[|e rest]|] eqn:Ep;
    try discriminate.
  destruct (decide (RedPocket.lot_status e = 2)) as [|Hs]; [discriminate|].
  destruct (decide (RedPocket.lot_id e = 0)) as [|Hl]; [discriminate|].
  intros [= <-]. exists t, a, data, e, rest.
  repeat split; auto. destruct (decide (Res.code a = 0)); tauto.
Qed.

(** X6: every join request of the red-packet pipeline carries the room and
    the lot id of a check that answered with code 0 and an open first entry:
    the pipeline never joins a closed red packet, and never with lot id 0. *)
Theorem redpacket_joins_are_checked cfg remote w :
  Forall (fun e =>
            forall room lot ruid,
              e = Call (JoinRedPacket room lot ruid) -> checked_lot remote room lot)
         (emitted (liveRedPackService cfg remote) w).
Proof.
  set (good := fun e => forall room lot ruid,
                 e = Call (JoinRedPacket room lot ruid) -> checked_lot remote room lot).
  apply (emits_emitted _ (fun _ evs => Forall good evs)).
  apply liveRedPackService_emits; [apply Forall_closed| |].
  { repeat constructor. intros room lot ruid. discriminate. }
  intros areaId parentId page. eapply emits_conseq.
  - apply (doRedPackArea_page_emits remote
             (fun l evs =>
                Forall good evs
                /\ Forall (fun p => checked_lot remote (RedPacket.room_id p)
                                      (RedPacket.lot_id p)) l)).
    + split; constructor.
    + intros room t lotId l evs Ht [He Hl]. split.
      * repeat (constructor; [intros ? ? ?; discriminate|]). exact He.
      * constructor; [|exact Hl]. simpl. eapply truthy_lot_checked, Ht.
    + intros room t l evs _ [He Hl]. split; [|exact Hl].
      constructor; [intros ? ? ?; discriminate|exact He].
  - simpl. intros _ evs (l & evs1 & [He Hl] & ->).
    repeat (constructor; [intros ? ? ?; discriminate|]).
    apply Forall_app. split; [exact He|].
    clear -Hl. induction Hl as [|p l Hp _ IH]; simpl; [constructor|].
    constructor; [intros room lot ruid [= <- <- _]; exact Hp|].
    constructor; [intros ? ? ?; discriminate|exact IH].
Qed.

(** X7: the two pipelines keep to their own draws: a lottery run sends no
    red-packet check or join, a red-packet run no lottery check or join. *)
Theorem pipelines_do_not_cross cfg remote str_match w :
  Forall (fun e => is_redpacket_request e = false)
         (emitted (liveLotteryService cfg remote str_match) w)
  /\ Forall (fun e => is_lottery_request e = false)
            (emitted (liveRedPackService cfg remote) w).
Proof.
  split.
  - apply (emits_emitted _ (fun _ evs => Forall (fun e => is_redpacket_request e = false) evs)).
    apply liveLotteryService_emits; [apply Forall_closed|..]; intros; repeat constructor.
  - apply (emits_emitted _ (fun _ evs => Forall (fun e => is_lottery_request e = false) evs)).
    apply liveRedPackService_emits; [apply Forall_closed|repeat constructor|].
    intros areaId parentId page. eapply emits_conseq.
    + apply (doRedPackArea_page_emits remote
               (fun _ evs => Forall (fun e => is_lottery_request e = false) evs)).
      * constructor.
      * intros. repeat (constructor; [reflexivity|]). assumption.
      * intros. constructor; [reflexivity|assumption].
    + simpl. intros _ evs (l & evs1 & He & ->).
      repeat (constructor; [reflexivity|]).
      apply Forall_app. split; [exact He|].
      induction l as [|p l IH]; simpl; repeat constructor. exact IH.
Qed.


(** ** The shape of a run *)

Lemma emits_and {A} (m : M A) (Q1 Q2 : Result A -> list Event -> Prop) :
  emits m Q1 -> emits m Q2 -> emits m (fun res evs => Q1 res evs /\ Q2 res evs).
Proof.
  intros H1 H2 w.
  destruct (H1 w) as (evs1 & Ht1 & Hq1). destruct (H2 w) as (evs2 & Ht2 & Hq2).
  rewrite Ht1 in Ht2. apply app_inv_head in Ht2. subst evs2. eauto.
Qed.

Lemma getLiveArea_emits remote :
  emits (getLiveArea remote) (fun _ evs => evs = [Call GetArea]).
Proof.
  intros w. exists [Call GetArea]. split; [|reflexivity].
  unfold getLiveArea. run.
  destruct (getArea remote (trace w)) as [r|e]; simpl; [|reflexivity].
  destruct (decide (Res.code r ≠ 0)); simpl; destruct (Res.data r); reflexivity.
Qed.

Section Shape.
Context (cfg : Config) (remote : Remote) (str_match : jsstring -> jsstring -> option bool).
Context (P : list Event -> Prop) (HP : closed P).

(** A run is the category request, then what the areas do. *)
Lemma pipeline_shape (doArea : jsstring -> jsstring -> Z -> M unit) :
  (forall areaId parentId num, emits (doArea areaId parentId num) (fun _ evs => P evs)) ->
  emits (l ← new_array;
         assign_newFollowUp l;;
         areaList ← getLiveArea remote;
         for_areas cfg doArea areaList;;
         get_newFollowUp)
        (fun _ evs => exists rest, evs = Call GetArea :: rest /\ P rest).
Proof.
  intros Ha w.
  assert (emits (areaList ← getLiveArea remote;
                 for_areas cfg doArea areaList;;
                 get_newFollowUp)
            (fun _ evs => exists rest, evs = Call GetArea :: rest /\ P rest)) as Hbody.
  { apply (emits_bind _ _ (fun _ evs => evs = [Call GetArea]) (fun _ _ evs => P evs));
      [apply getLiveArea_emits| | |].
    - intros areaList. apply closed_bind; [exact HP| |].
      + unfold for_areas. apply closed_for_of; [exact HP|]. intros _ areas _.
        apply closed_for_of; [exact HP|]. intros _ area _. apply Ha.
      + intros _. apply closed_silent; [exact HP|apply silent_get_newFollowUp].
    - intros e evs ->. exists []. split; [reflexivity|apply HP].
    - intros areaList evs1 r evs2 -> H. exists evs2. auto. }
  exact (Hbody (reset w)).
Qed.

(** A lottery page is the delayed page fetch, then checks, joins and
    delays. *)
Lemma doLotteryArea_page_shape areaId parentId page :
  P [Delay 100] ->
  (forall roomid, P [Call (CheckLottery roomid)]) ->
  (forall c, P [lottery_join_of c; Delay 300]) ->
  emits (doLotteryArea_page cfg remote str_match areaId parentId tt page)
    (fun _ evs => exists rest,
       evs = [Delay 100; Call (GetLiveRoom parentId areaId page)] ++ rest /\ P rest).
Proof.
  intros Hdelay Hcheck Hjoin. unfold doLotteryArea_page, checkLotteryRoomList.
  apply (emits_bind _ _
           (fun _ evs => exists rest,
              evs = [Delay 100; Call (GetLiveRoom parentId areaId page)] ++ rest
              /\ P rest)
           (fun _ _ evs => P evs)).
  - apply (emits_bind _ _
             (fun _ evs => evs = [Delay 100; Call (GetLiveRoom parentId areaId page)])
             (fun _ _ evs => P evs));
      [apply getLotteryRoomList_emits| | |].
    + intros rooms. apply closed_for_of; [exact HP|]. intros acc room _.
      unfold checkLotteryRoomList_body.
      apply closed_bind; [exact HP|apply checkLotteryRoom_emits; auto|].
      intros [data|]; [|apply closed_silent; [exact HP|apply silent_ret]].
      apply closed_bind; [exact HP|apply closed_apiDelay; auto|].
      intros _. apply closed_silent; [exact HP|apply silent_ret].
    + intros e evs ->. exists []. split; [reflexivity|apply HP].
    + intros rooms evs1 r evs2 -> H. exists evs2. auto.
  - intros rooms. eapply emits_conseq; [apply doLotteryArea_rooms_emits|].
    simpl. intros _ evs [_ ->].
    induction rooms as [|c rooms IH]; [apply HP|].
    change (P ([lottery_join_of c; Delay 300]
               ++ flat_map (fun c => [lottery_join_of c; Delay 300]) rooms)).
    apply HP; auto.
  - intros e evs H. exact H.
  - intros rooms evs1 r evs2 (rest & -> & H1) H2.
    exists (rest ++ evs2). split; [reflexivity|apply HP; assumption].
Qed.

(** A red-packet page is the delayed page fetch, then checks, joins and
    delays. *)
Lemma doRedPackArea_page_shape areaId parentId page :
  P [Delay 100] ->
  (forall roomid, P [Call (CheckRedPacket roomid)]) ->
  (forall p, P [join_of p; Delay 200]) ->
  emits (doRedPackArea_page remote areaId parentId tt page)
    (fun _ evs => exists rest,
       evs = [Delay 100; Call (GetLiveRoom parentId areaId page)] ++ rest /\ P rest).
Proof.
  intros Hdelay Hcheck Hjoin. eapply emits_conseq.
  - apply (doRedPackArea_page_emits remote (fun _ evs => P evs)).
    + apply HP.
    + intros room t lotId l evs _ H.
      change (P ([Call (CheckRedPacket (LiveRoomList.roomid room))]
                 ++ [Delay 100] ++ evs)).
      apply HP; [auto|]. apply HP; auto.
    + intros room t l evs _ H.
      change (P ([Call (CheckRedPacket (LiveRoomList.roomid room))] ++ evs)).
      apply HP; auto.
  - simpl. intros _ evs (l & evs1 & H & ->).
    exists (evs1 ++ flat_map (fun p => [join_of p; Delay 200]) l).
    split; [reflexivity|]. apply HP; [exact H|].
    induction l as [|p l IH]; [apply HP|].
    change (P ([join_of p; Delay 200] ++ flat_map (fun p => [join_of p; Delay 200]) l)).
    apply HP; auto.
Qed.
End Shape.


(** ** Fetches and their pacing *)

Lemma preceded_by_weaken p d prev (t : list Event) :
  preceded_by p d None t -> preceded_by p d prev t.
Proof.
  destruct t as [|e t]; simpl; [auto|]. intros [He Ht]. split; [|exact Ht].
  intros Hp. specialize (He Hp). discriminate.
Qed.

Lemma preceded_by_app p d prev (a b : list Event) :
  preceded_by p d prev a -> preceded_by p d None b -> preceded_by p d prev (a ++ b).
Proof.
  revert prev. induction a as [|e a IH]; intros prev; simpl.
  - intros _. apply preceded_by_weaken.
  - intros [He Ha] Hb. split; [exact He|]. apply IH; assumption.
Qed.

Lemma preceded_by_none p d prev (t : list Event) :
  Forall (fun e => p e = false) t -> preceded_by p d prev t.
Proof.
  intros H. revert prev. induction H as [|e t He _ IH]; intros prev; simpl; [exact I|].
  split; [congruence|apply IH].
Qed.

Lemma preceded_by_closed p d : closed (preceded_by p d None).
Proof. split; [exact I|]. intros a b. apply preceded_by_app. Qed.

Section Fetches.
Context (cfg : Config) (remote : Remote) (str_match : jsstring -> jsstring -> option bool).

(** Neither a page fetch nor a category fetch. *)
Let quiet (e : Event) : Prop := is_page_fetch e = false /\ is_area_fetch e = false.

(** Every page fetch comes right after a delay of 100ms, and nothing is a
    category fetch. *)
Let paced (evs : list Event) : Prop :=
  Forall (fun e => is_area_fetch e = false) evs
  /\ preceded_by is_page_fetch (Delay 100) None evs.

Lemma paced_closed : closed paced.
Proof.
  split; [split; [constructor|exact I]|].
  intros a b [Ha1 Ha2] [Hb1 Hb2]. split; [apply Forall_app; auto|].
  apply preceded_by_app; assumption.
Qed.

Lemma paced_page parentId areaId page rest :
  Forall quiet rest ->
  paced ([Delay 100; Call (GetLiveRoom parentId areaId page)] ++ rest).
Proof.
  intros H. split.
  - repeat (constructor; [reflexivity|]).
    eapply Forall_impl; [exact H|]. intros e [_ He]. exact He.
  - simpl. repeat split; try discriminate.
    apply preceded_by_none. eapply Forall_impl; [exact H|]. intros e [He _]. exact He.
Qed.

Lemma lottery_area_paced areaId parentId num :
  emits (doLotteryArea cfg remote str_match areaId parentId num)
        (fun _ evs => paced evs).
Proof.
  unfold doLotteryArea. apply closed_for_of; [apply paced_closed|].
  intros [] page _. eapply emits_conseq.
  - apply (doLotteryArea_page_shape cfg remote str_match (Forall quiet)
             (Forall_closed quiet)); intros; repeat constructor.
  - simpl. intros _ evs (rest & -> & H). apply paced_page, H.
Qed.

Lemma redpack_area_paced areaId parentId num :
  emits (doRedPackArea remote areaId parentId num) (fun _ evs => paced evs).
Proof.
  unfold doRedPackArea. apply closed_for_of; [apply paced_closed|].
  intros [] page _. eapply emits_conseq.
  - apply (doRedPackArea_page_shape remote (Forall quiet) (Forall_closed quiet));
      intros; repeat constructor.
  - simpl. intros _ evs (rest & -> & H). apply paced_page, H.
Qed.

(** X8: a run of either pipeline asks for the categories once, as its
    first operation, and never again. *)
Theorem categories_fetched_once_first w :
  (exists rest,
      emitted (liveLotteryService cfg remote str_match) w = Call GetArea :: rest
      /\ Forall (fun e => is_area_fetch e = false) rest)
  /\ (exists rest,
         emitted (liveRedPackService cfg remote) w = Call GetArea :: rest
         /\ Forall (fun e => is_area_fetch e = false) rest).
Proof.
  split.
  - destruct (emits_emitted _ _ w
                (pipeline_shape cfg remote paced paced_closed
                   (doLotteryArea cfg remote str_match) lottery_area_paced))
      as (rest & Hr & [H _]).
    exists rest. auto.
  - destruct (emits_emitted _ _ w
                (pipeline_shape cfg remote paced paced_closed
                   (doRedPackArea remote) redpack_area_paced))
      as (rest & Hr & [H _]).
    exists rest. auto.
Qed.

(** X9: in a run of either pipeline, every page fetch comes immediately
    after a fixed delay of 100ms. *)
Theorem page_fetches_follow_delay w :
  preceded_by is_page_fetch (Delay 100) None
    (emitted (liveLotteryService cfg remote str_match) w)
  /\ preceded_by is_page_fetch (Delay 100) None
       (emitted (liveRedPackService cfg remote) w).
Proof.
  split.
  - destruct (emits_emitted _ _ w
                (pipeline_shape cfg remote paced paced_closed
                   (doLotteryArea cfg remote str_match) lottery_area_paced))
      as (rest & Hr & [_ H]).
    unfold liveLotteryService. rewrite Hr. simpl. split; [discriminate|].
    apply preceded_by_weaken, H.
  - destruct (emits_emitted _ _ w
                (pipeline_shape cfg remote paced paced_closed
                   (doRedPackArea remote) redpack_area_paced))
      as (rest & Hr & [_ H]).
    unfold liveRedPackService. rewrite Hr. simpl. split; [discriminate|].
    apply preceded_by_weaken, H.
Qed.
End Fetches.


(** ** The pages of an area *)

Lemma List_filter_none {A} (p : A -> bool) (l : list A) :
  Forall (fun x => p x = false) l -> List.filter p l = [].
Proof. induction 1 as [|x l Hx _ IH]; simpl; [reflexivity|]. rewrite Hx. exact IH. Qed.

Section AreaPages.
Context (cfg : Config) (remote : Remote) (str_match : jsstring -> jsstring -> option bool).
Context (areaId parentId : jsstring).

Let fetch (page : Z) : Event := Call (GetLiveRoom parentId areaId page).
Let silent_rest : list Event -> Prop := Forall (fun e => is_page_fetch e = false).

Lemma page_fetch_filter page rest :
  silent_rest rest ->
  List.filter is_page_fetch ([Delay 100; fetch page] ++ rest) = [fetch page].
Proof. intros H. simpl. rewrite (List_filter_none _ _ H). reflexivity. Qed.

(** A page makes one page fetch, its own, whatever its result. *)
Lemma doLotteryArea_page_fetch_once page :
  emits (doLotteryArea_page cfg remote str_match areaId parentId tt page)
    (fun _ evs => List.filter is_page_fetch evs = [fetch page]).
Proof.
  eapply emits_conseq.
  - apply (doLotteryArea_page_shape cfg remote str_match silent_rest
             (Forall_closed _) areaId parentId page); intros; repeat constructor.
  - simpl. intros res evs (rest & -> & H). apply page_fetch_filter, H.
Qed.

Lemma doRedPackArea_page_fetch_once page :
  emits (doRedPackArea_page remote areaId parentId tt page)
    (fun _ evs => List.filter is_page_fetch evs = [fetch page]).
Proof.
  eapply emits_conseq.
  - apply (doRedPackArea_page_shape remote silent_rest (Forall_closed _)
             areaId parentId page); intros; repeat constructor.
  - simpl. intros res evs (rest & -> & H). apply page_fetch_filter, H.
Qed.

(** The loop over the pages fetches a prefix of them, in order, and all of
    them when it returns. *)
Lemma pages_loop_fetches (body : unit -> Z -> M unit) (ps : list Z) :
  (forall page,
      emits (body tt page) (fun _ evs => List.filter is_page_fetch evs = [fetch page])) ->
  emits (for_of ps body tt)
    (fun res evs => exists k,
       (k <= length ps)%nat
       /\ List.filter is_page_fetch evs = map fetch (take k ps)
       /\ (res = Ok tt -> k = length ps)).
Proof.
  intros Hb. induction ps as [|page ps IH]; simpl.
  - apply emits_ret. exists 0%nat. auto.
  - apply (emits_bind _ _ _
             (fun _ res evs => exists k,
                (k <= length ps)%nat
                /\ List.filter is_page_fetch evs = map fetch (take k ps)
                /\ (res = Ok tt -> k = length ps))
             _ (Hb page)).
    + intros []. exact IH.
    + intros e evs H. exists 1%nat. simpl.
      repeat split; [lia| |discriminate].
      rewrite H. destruct ps; reflexivity.
    + intros u evs1 r evs2 H1 (k & Hk & H2 & Hr). exists (S k). simpl.
      rewrite List.filter_app, H1, H2. repeat split; [lia|].
      intros Hok. rewrite (Hr Hok). reflexivity.
Qed.

Lemma take_pages k num :
  (k <= Z.to_nat num)%nat ->
  map fetch (take k (pages num))
  = map (fun i => Call (GetLiveRoom parentId areaId (Z.of_nat i))) (seq 1 k).
Proof.
  intros Hk. unfold pages.
  change (map Z.of_nat (seq 1 (Z.to_nat num))) with (Z.of_nat <$> seq 1 (Z.to_nat num)).
  rewrite <- fmap_take, take_seq, Nat.min_l by exact Hk.
  change (Z.of_nat <$> seq 1 k) with (map Z.of_nat (seq 1 k)).
  rewrite map_map. reflexivity.
Qed.

(** An area whose page fetches answer with data. *)
Section Readable.
Hypothesis fetches : pages_readable remote parentId areaId.

Lemma doRedPackArea_page_total page :
  emits (doRedPackArea_page remote areaId parentId tt page) (fun res _ => res = Ok tt).
Proof.
  unfold doRedPackArea_page.
  apply (emits_bind _ _ (fun res _ => exists l, res = Ok l) (fun _ res _ => res = Ok tt)).
  - unfold getRedPacketRoom.
    apply (emits_bind _ _ _ (fun _ res _ => exists l, res = Ok l) _
             (getLotteryRoomList_total remote areaId parentId fetches page redPack)).
    + intros rooms. eapply emits_conseq.
      * apply (getRedPacketRoom_loop_emits remote (fun _ _ _ => True)); auto.
      * simpl. intros res evs (l & -> & _). eauto.
    + intros e evs [[rooms ?] _]. discriminate.
    + intros rooms evs1 r evs2 _ H. exact H.
  - intros l. eapply emits_conseq; [apply doRedPackArea_rooms_emits|].
    simpl. intros res evs [H _]. exact H.
  - intros e evs [l ?]. discriminate.
  - intros l evs1 r evs2 _ H. exact H.
Qed.

Lemma doRedPackArea_total num :
  emits (doRedPackArea remote areaId parentId num) (fun res _ => res = Ok tt).
Proof.
  unfold doRedPackArea. induction (pages num) as [|page ps IH]; simpl.
  - apply emits_ret. reflexivity.
  - apply (emits_bind _ _ _ (fun _ res _ => res = Ok tt) _
             (doRedPackArea_page_total page)).
    + intros []. exact IH.
    + intros e evs ?. discriminate.
    + intros u evs1 r evs2 _ H. exact H.
Qed.
End Readable.

(** X10: the loop over the pages of an area fetches the pages 1, 2, ...,
    [k] once each and in ascending order, for some [k] up to [num], and
    all [num] pages (none when [num] is 0 or negative) when it returns. It
    returns when the page fetches answer with data and, in the lottery
    pipeline, the checks can be read, whatever else the checks and the
    joins of the rooms do. *)
Theorem area_fetches_every_page num w :
  (exists k,
      (k <= Z.to_nat num)%nat
      /\ List.filter is_page_fetch
           (emitted (doLotteryArea cfg remote str_match areaId parentId num) w)
         = map (fun i => Call (GetLiveRoom parentId areaId (Z.of_nat i))) (seq 1 k)
      /\ (fst (doLotteryArea cfg remote str_match areaId parentId num w) = Ok tt ->
          k = Z.to_nat num))
  /\ (exists k,
         (k <= Z.to_nat num)%nat
         /\ List.filter is_page_fetch
              (emitted (doRedPackArea remote areaId parentId num) w)
            = map (fun i => Call (GetLiveRoom parentId areaId (Z.of_nat i))) (seq 1 k)
         /\ (fst (doRedPackArea remote areaId parentId num w) = Ok tt ->
             k = Z.to_nat num))
  /\ (pages_readable remote parentId areaId ->
      (checks_readable cfg str_match remote ->
       fst (doLotteryArea cfg remote str_match areaId parentId num w) = Ok tt)
      /\ fst (doRedPackArea remote areaId parentId num w) = Ok tt).
Proof.
  assert (length (pages num) = Z.to_nat num) as Hlen.
  { unfold pages. rewrite length_map, length_seq. reflexivity. }
  split; [|split].
  - destruct (emits_emitted _ _ w
                (pages_loop_fetches _ (pages num) doLotteryArea_page_fetch_once))
      as (k & Hk & Hf & Hr).
    rewrite Hlen in Hk, Hr. exists k. split; [exact Hk|]. split; [|exact Hr].
    unfold doLotteryArea. rewrite Hf. apply take_pages, Hk.
  - destruct (emits_emitted _ _ w
                (pages_loop_fetches _ (pages num) doRedPackArea_page_fetch_once))
      as (k & Hk & Hf & Hr).
    rewrite Hlen in Hk, Hr. exists k. split; [exact Hk|]. split; [|exact Hr].
    unfold doRedPackArea. rewrite Hf. apply take_pages, Hk.
  - intros Hpages. split.
    + intros Hread.
      exact (proj1 (emits_emitted _ _ w
                      (doLotteryArea_total cfg remote str_match areaId parentId
                         Hpages Hread num))).
    + exact (emits_emitted _ _ w (doRedPackArea_total Hpages num)).
Qed.
End AreaPages.


(** ** Nothing to scan *)

Lemma getLiveArea_answer remote w r data :
  getArea remote (trace w) = Answer r ->
  Res.data r = Value data ->
  exists w1,
    getLiveArea remote w = (Ok (area_transform data), w1)
    /\ trace w1 = trace w ++ [Call GetArea]
    /\ heap w1 = heap w
    /\ newFollowUp w1 = newFollowUp w.
Proof.
  intros Hr Hd. unfold getLiveArea. run. rewrite Hr. simpl.
  destruct (decide (Res.code r ≠ 0)); simpl; rewrite Hd; simpl;
    eexists; repeat split.
Qed.

Lemma pages_nonpos num : num <= 0 -> pages num = [].
Proof. intros H. unfold pages. replace (Z.to_nat num) with 0%nat by lia. reflexivity. Qed.

Lemma for_areas_idle cfg (doArea : jsstring -> jsstring -> Z -> M unit) areaList :
  (forall areaId parentId w, doArea areaId parentId (LOTTERY_PAGE_NUM cfg) w = (Ok tt, w)) ->
  forall w, for_areas cfg doArea areaList w = (Ok tt, w).
Proof.
  intros Hidle. unfold for_areas.
  induction areaList as [|areas areaList IH]; intros w; simpl; [reflexivity|].
  rewrite bind_run.
  assert (forall w, for_of areas
                      (fun (_ : unit) area =>
                         doArea (LiveAreaType.areaId area) (LiveAreaType.parentId area)
                                (LOTTERY_PAGE_NUM cfg)) tt w = (Ok tt, w)) as Hareas.
  { induction areas as [|area areas IHa]; intros w0; simpl; [reflexivity|].
    rewrite bind_run, Hidle. apply IHa. }
  rewrite Hareas. apply IH.
Qed.

(** X11: when the category endpoint answers with data, whatever the code,
    and the configured page count is 0 or less or the directory has no major
    category, a run of either pipeline makes the category request and
    nothing else, and returns a fresh empty list. *)
Theorem nothing_to_scan cfg remote str_match w r data :
  getArea remote (trace w) = Answer r ->
  Res.data r = Value data ->
  LOTTERY_PAGE_NUM cfg <= 0 \/ AreaData.data data = [] ->
  (emitted (liveLotteryService cfg remote str_match) w = [Call GetArea]
   /\ fst (liveLotteryService cfg remote str_match w) = Ok (Some (length (heap w)))
   /\ heap (snd (liveLotteryService cfg remote str_match w)) = heap w ++ [[]])
  /\ (emitted (liveRedPackService cfg remote) w = [Call GetArea]
      /\ fst (liveRedPackService cfg remote w) = Ok (Some (length (heap w)))
      /\ heap (snd (liveRedPackService cfg remote w)) = heap w ++ [[]]).
Proof.
  intros Hr Hd Hnone.
  destruct (getLiveArea_answer remote (reset w) r data Hr Hd)
    as (w1 & Harea & Ht & Hh & Hn).
  assert (forall doArea : jsstring -> jsstring -> Z -> M unit,
             (LOTTERY_PAGE_NUM cfg <= 0 ->
              forall areaId parentId w0,
                doArea areaId parentId (LOTTERY_PAGE_NUM cfg) w0 = (Ok tt, w0)) ->
             for_areas cfg doArea (area_transform data) w1 = (Ok tt, w1)) as Hidle.
  { intros doArea Hzero. destruct Hnone as [Hnum|Hempty].
    - apply for_areas_idle. intros. apply Hzero, Hnum.
    - unfold area_transform. rewrite Hempty. reflexivity. }
  assert (liveLotteryService cfg remote str_match w = (Ok (newFollowUp w1), w1)) as Hl.
  { rewrite liveLotteryService_reset, bind_run, Harea, bind_run, Hidle; [reflexivity|].
    intros Hnum areaId parentId w0. unfold doLotteryArea.
    rewrite (pages_nonpos _ Hnum). reflexivity. }
  assert (liveRedPackService cfg remote w = (Ok (newFollowUp w1), w1)) as Hp.
  { rewrite liveRedPackService_reset, bind_run, Harea, bind_run, Hidle; [reflexivity|].
    intros Hnum areaId parentId w0. unfold doRedPackArea.
    rewrite (pages_nonpos _ Hnum). reflexivity. }
  unfold emitted. rewrite Hl, Hp. simpl. rewrite Ht, Hh, Hn. simpl.
  rewrite drop_app_length. auto.
Qed.


(** ** What a pipeline can throw *)

Section ThrowsOnly.
Context (O : JsError -> Prop).

Lemma throws_only_bind {A B} (m : M A) (f : A -> M B) :
  throws_only O m -> (forall a, throws_only O (f a)) -> throws_only O (m ≫= f).
Proof.
  intros Hm Hf w e. rewrite bind_run. specialize (Hm w).
  destruct (m w) as [[a|e'] w1]; simpl in *.
  - apply Hf.
  - intros [= <-]. apply Hm. reflexivity.
Qed.

Lemma throws_only_for_of {A S} (xs : list A) (body : S -> A -> M S) s :
  (forall s x, throws_only O (body s x)) -> throws_only O (for_of xs body s).
Proof.
  intros Hb. revert s. induction xs as [|x xs IH]; intros s; simpl.
  - intros w e. discriminate.
  - apply throws_only_bind; auto.
Qed.

Lemma throws_only_total {A} (m : M A) (Q : Result A -> list Event -> Prop) :
  emits m Q -> (forall e evs, ~ Q (Thrown e) evs) -> throws_only O m.
Proof.
  intros Hm HQ w e He. destruct (Hm w) as (evs & _ & Hq).
  rewrite He in Hq. destruct (HQ e evs Hq).
Qed.
End ThrowsOnly.

Lemma throws_only_weaken {A} (O O' : JsError -> Prop) (m : M A) :
  throws_only O m -> (forall e, O e -> O' e) -> throws_only O' m.
Proof. intros Hm HO w e He. apply HO, (Hm w e He). Qed.

Lemma some_match_None str_match name texts :
  some_match str_match name texts = None ->
  exists text, text ∈ texts /\ str_match name text = None.
Proof.
  induction texts as [|text texts IH]; simpl; [discriminate|].
  destruct (str_match name text) as [[|]|] eqn:E.
  - discriminate.
  - intros H. destruct (IH H) as (text' & Hin & Hm). exists text'. split; [|exact Hm].
    right. exact Hin.
  - intros _. exists text. split; [left|exact E].
Qed.

Section Origins.
Context (cfg : Config) (remote : Remote) (str_match : jsstring -> jsstring -> option bool).

(** What the two fetchers throw: an error their endpoint raised, or the
    TypeError of an answer without data. *)
Let fetch_origin (e : JsError) : Prop :=
  fetch_error remote e \/ (e = TypeError /\ fetch_without_data remote).

(** What the lottery pipeline throws besides: the TypeError of a check
    answered without data, and the SyntaxError of a pattern. *)
Let lottery_origin (e : JsError) : Prop :=
  fetch_error remote e
  \/ (e = TypeError /\ (fetch_without_data remote \/ check_without_data remote))
  \/ (e = SyntaxError /\ ill_formed_pattern cfg str_match).

Lemma getLiveArea_throws : throws_only fetch_origin (getLiveArea remote).
Proof.
  intros w e. unfold getLiveArea. run.
  destruct (getArea remote (trace w)) as [r|e'] eqn:E; simpl.
  - destruct (decide (Res.code r ≠ 0)); simpl;
      destruct (Res.data r) as [| |data] eqn:Ed; simpl; try discriminate;
      intros [= <-]; right; (split; [reflexivity|]); left; exists (trace w), r;
      (split; [exact E|]); intros data; rewrite Ed; discriminate.
  - intros [= <-]. left. left. eauto.
Qed.

Lemma getLotteryRoomList_throws areaId parentId page lotType :
  throws_only fetch_origin (getLotteryRoomList remote areaId parentId page lotType).
Proof.
  intros w e. unfold getLotteryRoomList. run.
  destruct (getLiveRoom remote _ parentId areaId page) as [r|e'] eqn:E; simpl.
  - destruct (decide (Res.code r ≠ 0)); simpl;
      destruct (Res.data r) as [| |data] eqn:Ed; simpl; try discriminate;
      intros [= <-]; right; (split; [reflexivity|]); right;
      exists (trace w ++ [Delay 100]), parentId, areaId, page, r;
      (split; [exact E|]); intros data; rewrite Ed; discriminate.
  - intros [= <-]. left. right. eauto 6.
Qed.

Lemma checkLotteryRoom_throws room :
  throws_only lottery_origin (checkLotteryRoom cfg remote str_match room).
Proof.
  intros w e He.
  apply checkLotteryRoom_thrown in He as (_ & r & Hr & Hc & H).
  destruct H as [[Hd ->]|(data & Hd & -> & H)].
  - right. left. split; [reflexivity|]. right.
    exists (trace w), (LiveRoomList.roomid room), r. auto.
  - right. right. split; [reflexivity|].
    exists (LiveCheckLotteryDto.award_name data).
    destruct H as [H|H]; apply some_match_None in H as (text & Hin & Hm);
      exists text; (split; [|exact Hm]); apply elem_of_app; auto.
Qed.

Lemma fetch_origin_lottery e : fetch_origin e -> lottery_origin e.
Proof. intros [H|[-> H]]; [left; exact H|right; left; auto]. Qed.

Lemma doLotteryArea_throws areaId parentId num :
  throws_only lottery_origin (doLotteryArea cfg remote str_match areaId parentId num).
Proof.
  unfold doLotteryArea. apply throws_only_for_of. intros [] page.
  unfold doLotteryArea_page. apply throws_only_bind.
  - unfold checkLotteryRoomList. apply throws_only_bind.
    + eapply throws_only_weaken;
        [apply getLotteryRoomList_throws|apply fetch_origin_lottery].
    + intros rooms. apply throws_only_for_of. intros acc room.
      unfold checkLotteryRoomList_body. apply throws_only_bind.
      * apply checkLotteryRoom_throws.
      * intros [data|] w e; discriminate.
  - intros rooms. eapply throws_only_total; [apply doLotteryArea_rooms_emits|].
    intros e evs [? _]. discriminate.
Qed.

Lemma doRedPackArea_throws areaId parentId num :
  throws_only fetch_origin (doRedPackArea remote areaId parentId num).
Proof.
  unfold doRedPackArea. apply throws_only_for_of. intros [] page.
  unfold doRedPackArea_page. apply throws_only_bind.
  - unfold getRedPacketRoom. apply throws_only_bind.
    + apply getLotteryRoomList_throws.
    + intros rooms. eapply throws_only_total.
      * apply (getRedPacketRoom_loop_emits remote (fun _ _ _ => True)); auto.
      * intros e evs (l & ? & _). discriminate.
  - intros rooms. eapply throws_only_total; [apply doRedPackArea_rooms_emits|].
    intros e evs [? _]. discriminate.
Qed.

Lemma pipeline_throws (O : JsError -> Prop)
    (doArea : jsstring -> jsstring -> Z -> M unit) :
  (forall e, fetch_origin e -> O e) ->
  (forall areaId parentId num, throws_only O (doArea areaId parentId num)) ->
  throws_only O
    (l ← new_array;
     assign_newFollowUp l;;
     areaList ← getLiveArea remote;
     for_areas cfg doArea areaList;;
     get_newFollowUp).
Proof.
  intros HO Ha.
  apply throws_only_bind; [intros w e; discriminate|]. intros l.
  apply throws_only_bind; [intros w e; discriminate|]. intros _.
  apply throws_only_bind;
    [eapply throws_only_weaken; [apply getLiveArea_throws|exact HO]|].
  intros areaList.
  apply throws_only_bind; [|intros _ w e; discriminate].
  unfold for_areas. apply throws_only_for_of. intros _ areas.
  apply throws_only_for_of. intros _ area. apply Ha.
Qed.

(** X12: what a pipeline run throws has one of these origins: the category
    endpoint or the page endpoint raised it; it is the TypeError of a
    category answer or a page answer without data, or, in the lottery
    pipeline, of a draw check answered with code 0 and undefined data; or,
    in the lottery pipeline, it is the SyntaxError of a configured pattern
    that is not a regular expression. No error that a draw check, a
    red-packet check or a join raised leaves the run. *)
Theorem pipeline_errors_have_origins w e :
  (fst (liveLotteryService cfg remote str_match w) = Thrown e ->
   fetch_error remote e
   \/ (e = TypeError /\ (fetch_without_data remote \/ check_without_data remote))
   \/ (e = SyntaxError /\ ill_formed_pattern cfg str_match))
  /\ (fst (liveRedPackService cfg remote w) = Thrown e ->
      fetch_error remote e \/ (e = TypeError /\ fetch_without_data remote)).
Proof.
  split.
  - apply (pipeline_throws lottery_origin (doLotteryArea cfg remote str_match)
             fetch_origin_lottery doLotteryArea_throws).
  - apply (pipeline_throws fetch_origin (doRedPackArea remote)
             (fun e H => H) doRedPackArea_throws).
Qed.
End Origins.


(** ** When the accumulator changes *)

Section Recording.
Context (cfg : Config) (remote : Remote) (str_match : jsstring -> jsstring -> option bool).

(** Either [doLottery] leaves the arrays and the module-level variable as
    they were, or its join answered with code 0 for a draw that requires
    following. *)
Lemma doLottery_state_cases (c : CheckedLottery.t) w :
  let d := CheckedLottery.dto c in
  (heap (snd (doLottery remote c w)) = heap w
   /\ newFollowUp (snd (doLottery remote c w)) = newFollowUp w)
  \/ exists r,
      joinLottery remote (trace w) (LiveCheckLotteryDto.id d)
        (LiveCheckLotteryDto.gift_id d) (LiveCheckLotteryDto.gift_num d) = Answer r
      /\ Res.code r = 0
      /\ LiveCheckLotteryDto.require_type d = RequireType.Follow.
Proof.
  intros d. unfold doLottery. fold d.
  rewrite try_catch_run, !bind_logger_info, bind_run. unfold request. simpl.
  destruct (joinLottery remote (trace w) (LiveCheckLotteryDto.id d)
              (LiveCheckLotteryDto.gift_id d) (LiveCheckLotteryDto.gift_num d))
    as [r|e] eqn:Hr; simpl; [|auto].
  destruct (decide (Res.code r ≠ 0)) as [|Hc]; simpl; [auto|].
  rewrite bind_logger_info.
  destruct (decide (LiveCheckLotteryDto.require_type d = RequireType.Follow)) as [Hf|];
    simpl; [|auto].
  right. exists r. repeat split; [|exact Hf].
  destruct (decide (Res.code r = 0)); tauto.
Qed.

(** The module-level variable is never rebound by [doRedPacket], and the
    arrays change only after a join answered with code 0. *)
Lemma doRedPacket_state_cases (p : RedPacket.t) w :
  newFollowUp (snd (doRedPacket remote p w)) = newFollowUp w
  /\ (heap (snd (doRedPacket remote p w)) = heap w
      \/ exists r,
          joinRedPacket remote (trace w) (RedPacket.room_id p) (RedPacket.lot_id p)
            (RedPacket.uid p) = Answer r
          /\ Res.code r = 0).
Proof.
  unfold doRedPacket.
  rewrite try_catch_run, bind_logger_info, bind_run. unfold request. simpl.
  destruct (joinRedPacket remote (trace w) (RedPacket.room_id p) (RedPacket.lot_id p)
              (RedPacket.uid p)) as [r|e] eqn:Hr; simpl; [|auto].
  destruct (decide (Res.code r ≠ 0)) as [Hc|Hc]; simpl; [auto|].
  assert (Res.code r = 0) as Hc0 by (destruct (decide (Res.code r = 0)); tauto).
  rewrite bind_get_newFollowUp, bind_run. unfold push. simpl.
  destruct (newFollowUp w) as [l|] eqn:Hl; simpl; [|eauto].
  destruct (heap w !! l) as [xs|] eqn:Hxs; simpl; eauto.
Qed.

(** X13: [doLottery] touches the accumulator only after a join answered
    with code 0 of a draw that requires following: a join that throws, a
    failure code, or any other requirement type leaves every array and
    the module-level variable as they were. *)
Theorem doLottery_records_only_followed_success (c : CheckedLottery.t) w :
  let d := CheckedLottery.dto c in
  (forall r,
      joinLottery remote (trace w) (LiveCheckLotteryDto.id d)
        (LiveCheckLotteryDto.gift_id d) (LiveCheckLotteryDto.gift_num d) = Answer r ->
      Res.code r = 0 ->
      LiveCheckLotteryDto.require_type d ≠ RequireType.Follow) ->
  heap (snd (doLottery remote c w)) = heap w
  /\ newFollowUp (snd (doLottery remote c w)) = newFollowUp w.
Proof.
  intros d H. unfold doLottery. fold d.
  rewrite try_catch_run, !bind_logger_info, bind_run. unfold request. simpl.
  destruct (joinLottery remote (trace w) (LiveCheckLotteryDto.id d)
              (LiveCheckLotteryDto.gift_id d) (LiveCheckLotteryDto.gift_num d))
    as [r|e] eqn:Hr; simpl; [|auto].
  destruct (decide (Res.code r ≠ 0)) as [|Hc]; simpl; [auto|].
  rewrite bind_logger_info.
  destruct (decide (LiveCheckLotteryDto.require_type d = RequireType.Follow)) as [Hf|];
    simpl; [|auto].
  exfalso. apply (H r eq_refl); [|exact Hf].
  destruct (decide (Res.code r = 0)); tauto.
Qed.

(** X14: [doRedPacket] appends the streamer's id to the accumulator after
    a join answered with code 0, whether or not the id is already there;
    after a join that throws or answers with a failure code the arrays are
    as they were. *)
Theorem doRedPacket_records (p : RedPacket.t) w :
  (forall r l xs,
      joinRedPacket remote (trace w) (RedPacket.room_id p) (RedPacket.lot_id p)
        (RedPacket.uid p) = Answer r ->
      Res.code r = 0 ->
      newFollowUp w = Some l ->
      heap w !! l = Some xs ->
      heap (snd (doRedPacket remote p w))
      = <[l := xs ++ [Uid (RedPacket.uid p)]]> (heap w))
  /\ ((forall r,
          joinRedPacket remote (trace w) (RedPacket.room_id p) (RedPacket.lot_id p)
            (RedPacket.uid p) = Answer r ->
          Res.code r ≠ 0) ->
      heap (snd (doRedPacket remote p w)) = heap w)
  /\ newFollowUp (snd (doRedPacket remote p w)) = newFollowUp w.
Proof.
  unfold doRedPacket.
  rewrite try_catch_run, bind_logger_info, bind_run. unfold request. simpl.
  destruct (joinRedPacket remote (trace w) (RedPacket.room_id p) (RedPacket.lot_id p)
              (RedPacket.uid p)) as [r|e] eqn:Hr; simpl.
  - destruct (decide (Res.code r ≠ 0)) as [Hc|Hc]; simpl.
    + repeat split; auto. intros r0 l xs [= <-] Hc0. contradiction.
    + rewrite bind_get_newFollowUp, bind_run. unfold push. simpl.
      destruct (newFollowUp w) as [l|] eqn:Hl; simpl.
      * destruct (heap w !! l) as [xs|] eqn:Hxs; simpl.
        -- repeat split; auto.
           ++ intros r0 l0 xs0 _ _ [= <-] Hx. rewrite Hxs in Hx.
              injection Hx as <-. reflexivity.
           ++ intros H. destruct (H r eq_refl).
              destruct (decide (Res.code r = 0)); tauto.
        -- repeat split; auto. intros r0 l0 xs0 _ _ [= <-] Hx. congruence.
      * repeat split; auto. intros; discriminate.
  - repeat split; auto. intros; discriminate.
Qed.
End Recording.


(** ** What ends up in the returned list *)

Section Returned.
Context (cfg : Config) (remote : Remote) (str_match : jsstring -> jsstring -> option bool).
Context (J : list (list IdOrName) -> option nat -> Prop).

Ltac keep :=
  repeat match goal with
    | |- preserves _ (mret _) => apply preserves_ret
    | |- preserves _ (apiDelay _) => apply preserves_apiDelay
    | |- preserves _ (_ ≫= _) => apply preserves_bind; [|intros ?]
    | |- preserves _ (for_of _ _ _) => apply preserves_for_of; intros ? ?
    end.

(** The lottery pipeline keeps an invariant that the join of every
    joinable draw keeps. *)
Lemma lottery_body_keeps :
  (forall c, joinable cfg str_match c -> preserves (state_inv J) (doLottery remote c)) ->
  preserves (state_inv J)
    (areaList ← getLiveArea remote;
     for_areas cfg (doLotteryArea cfg remote str_match) areaList;;
     get_newFollowUp).
Proof.
  intros Hjoin.
  assert (forall rooms, Forall (joinable cfg str_match) rooms ->
            preserves (state_inv J) (for_of rooms (doLotteryArea_room remote) tt))
    as Hrooms.
  { induction 1 as [|c rooms Hc _ IH]; simpl; [apply preserves_ret|].
    apply preserves_bind; [|intros []; exact IH].
    unfold doLotteryArea_room. apply preserves_bind; [apply Hjoin, Hc|].
    intros _. apply preserves_apiDelay. }
  assert (forall areaId parentId page,
            preserves (state_inv J)
              (checkLotteryRoomList cfg remote str_match areaId parentId page))
    as Hcheck.
  { intros. unfold checkLotteryRoomList, checkLotteryRoomList_body. keep.
    - apply preserves_getLotteryRoomList.
    - apply preserves_checkLotteryRoom.
    - match goal with |- context [match ?x with _ => _ end] => destruct x end; keep. }
  apply preserves_bind; [apply preserves_getLiveArea|]. intros areaList.
  apply preserves_bind; [|intros _ w H; exact H].
  unfold for_areas, doLotteryArea. keep.
  match goal with
  | |- preserves _ (doLotteryArea_page _ _ _ ?areaId ?parentId _ ?page) =>
      intros w H; unfold doLotteryArea_page; rewrite bind_run;
      pose proof (Hcheck areaId parentId page w H) as H1;
      pose proof (checkLotteryRoomList_sound cfg remote str_match
                    areaId parentId page w) as Hs
  end.
  destruct (checkLotteryRoomList cfg remote str_match _ _ _ w) as [[l|e] w1];
    simpl in *; [|exact H1].
  apply (Hrooms l (Hs l eq_refl)), H1.
Qed.

(** The red-packet pipeline keeps an invariant that every join keeps. *)
Lemma redpack_body_keeps :
  (forall p, preserves (state_inv J) (doRedPacket remote p)) ->
  preserves (state_inv J)
    (areaList ← getLiveArea remote;
     for_areas cfg (doRedPackArea remote) areaList;;
     get_newFollowUp).
Proof.
  intros Hjoin.
  apply preserves_bind; [apply preserves_getLiveArea|]. intros areaList.
  apply preserves_bind; [|intros _ w H; exact H].
  unfold for_areas, doRedPackArea, doRedPackArea_page, doRedPackArea_room,
    getRedPacketRoom, getRedPacketRoom_body.
  keep.
  - apply preserves_getLotteryRoomList.
  - apply preserves_getRedPacketId.
  - destruct (truthy _); keep.
  - apply Hjoin.
Qed.
End Returned.

Section Unsuccessful.
Context (cfg : Config) (remote : Remote) (str_match : jsstring -> jsstring -> option bool).

(** [newFollowUp] is bound to an empty array. *)
Let J (h : list (list IdOrName)) (nf : option nat) : Prop :=
  exists l, nf = Some l /\ h !! l = Some [].

Lemma reset_empty w : state_inv J (reset w).
Proof.
  exists (length (heap w)). split; [reflexivity|]. simpl.
  apply list_lookup_middle. reflexivity.
Qed.

(** X15: a run in which no join succeeds (each join throws or answers with
    a failure code) returns an empty list, in either pipeline. *)
Theorem unsuccessful_run_returns_empty w a w1 :
  ((forall t id gift_id gift_num r,
       joinLottery remote t id gift_id gift_num = Answer r -> Res.code r ≠ 0) ->
   liveLotteryService cfg remote str_match w = (Ok a, w1) ->
   exists l, a = Some l /\ heap w1 !! l = Some [])
  /\ ((forall t room_id lot_id ruid r,
          joinRedPacket remote t room_id lot_id ruid = Answer r -> Res.code r ≠ 0) ->
      liveRedPackService cfg remote w = (Ok a, w1) ->
      exists l, a = Some l /\ heap w1 !! l = Some []).
Proof.
  split; intros Hfail Hrun.
  - rewrite liveLotteryService_reset in Hrun.
    assert (forall c, joinable cfg str_match c ->
              preserves (state_inv J) (doLottery remote c)) as Hjoin.
    { intros c _ w0 H0.
      destruct (doLottery_state_cases remote c w0) as [[Hh Hn]|(r & Hr & Hc & _)].
      - unfold state_inv. rewrite Hh, Hn. exact H0.
      - destruct (Hfail _ _ _ _ _ Hr Hc). }
    pose proof (lottery_body_keeps cfg remote str_match J Hjoin (reset w) (reset_empty w))
      as HJ.
    rewrite (body_returns_newFollowUp _ _ _ _ _ Hrun). rewrite Hrun in HJ. exact HJ.
  - rewrite liveRedPackService_reset in Hrun.
    assert (forall p, preserves (state_inv J) (doRedPacket remote p)) as Hjoin.
    { intros p w0 H0.
      destruct (doRedPacket_state_cases remote p w0) as (Hn & [Hh|(r & Hr & Hc)]).
      - unfold state_inv. rewrite Hh, Hn. exact H0.
      - destruct (Hfail _ _ _ _ _ Hr Hc). }
    pose proof (redpack_body_keeps cfg remote J Hjoin (reset w) (reset_empty w)) as HJ.
    rewrite (body_returns_newFollowUp _ _ _ _ _ Hrun). rewrite Hrun in HJ. exact HJ.
Qed.
End Unsuccessful.


Section Blacklist.
Context (cfg : Config) (remote : Remote) (str_match : jsstring -> jsstring -> option bool).

(** No entry is the id of a blacklisted streamer. *)
Let clean (xs : list IdOrName) : Prop :=
  Forall (fun x => forall n, x = Uid n -> n ∉ LOTTERY_UP_BLACKLIST cfg) xs.

Let J (h : list (list IdOrName)) (nf : option nat) : Prop :=
  exists l xs, nf = Some l /\ h !! l = Some xs /\ clean xs.

Lemma add_new_clean xs items :
  clean xs -> clean items -> clean (fold_left add_new items xs).
Proof.
  intros Hxs Hitems. revert xs Hxs.
  induction Hitems as [|item items Hitem _ IH]; intros xs Hxs; simpl; [exact Hxs|].
  apply IH. unfold add_new. destruct (bool_decide (item ∈ xs)); [exact Hxs|].
  apply Forall_app. split; [exact Hxs|]. constructor; [exact Hitem|constructor].
Qed.

Lemma doLottery_clean (c : CheckedLottery.t) :
  joinable cfg str_match c -> preserves (state_inv J) (doLottery remote c).
Proof.
  intros [Hb _] w (l & xs & Hl & Hxs & Hclean).
  set (d := CheckedLottery.dto c).
  destruct (doLottery_state_cases remote c w) as [[Hh Hn]|(r & Hr & Hc & Hf)].
  - exists l, xs. unfold state_inv in *. rewrite Hh, Hn. auto.
  - destruct (doLottery_follow_run remote c w r l xs Hf Hr Hc Hl Hxs)
      as (w' & -> & Hl' & Hxs').
    change (state_inv J w').
    exists l, (fold_left add_new
                 (Uid (CheckedLottery.uid c)
                  :: map Name (getRequireUp (LiveCheckLotteryDto.require_text d))) xs).
    split; [exact Hl'|]. split; [exact Hxs'|].
    apply add_new_clean; [exact Hclean|].
    constructor; [intros n [= <-]; exact Hb|].
    apply Forall_forall. intros x Hx n ->.
    apply list_elem_of_fmap in Hx as (s & ? & _). discriminate.
Qed.

(** X16: the list the lottery pipeline returns never holds the id of a
    streamer on the blacklist. *)
Theorem lottery_never_records_blacklisted w a w1 :
  liveLotteryService cfg remote str_match w = (Ok a, w1) ->
  exists l xs,
    a = Some l /\ heap w1 !! l = Some xs
    /\ forall n, Uid n ∈ xs -> n ∉ LOTTERY_UP_BLACKLIST cfg.
Proof.
  intros Hrun. rewrite liveLotteryService_reset in Hrun.
  assert (state_inv J (reset w)) as Hreset.
  { exists (length (heap w)), []. simpl. repeat split; [|constructor].
    apply list_lookup_middle. reflexivity. }
  pose proof (lottery_body_keeps cfg remote str_match J doLottery_clean (reset w) Hreset)
    as (l & xs & Hl & Hxs & Hclean).
  rewrite Hrun in Hl, Hxs. simpl in Hl, Hxs.
  exists l, xs. rewrite (body_returns_newFollowUp _ _ _ _ _ Hrun).
  repeat split; auto.
  intros n Hin. unfold clean in Hclean. rewrite Forall_forall in Hclean.
  apply (Hclean (Uid n)); [exact Hin|reflexivity].
Qed.
End Blacklist.


(** ** The parser of the requirement text *)

Lemma split_sep_step tok s :
  split_sep tok s
  = match s with
    | [] => [tok]
    | c :: s' =>
        match match_sep (c :: s') with
        | Some rest => tok :: split_sep [] rest
        | None => split_sep (tok ++ [c]) s'
        end
    end.
Proof.
  apply (split_sep_elim
           (fun tok s res =>
              res = match s with
                    | [] => [tok]
                    | c :: s' =>
                        match match_sep (c :: s') with
                        | Some rest => tok :: split_sep [] rest
                        | None => split_sep (tok ++ [c]) s'
                        end
                    end)).
  - reflexivity.
  - intros tok0 c s' rest Hm _ _. rewrite Hm. reflexivity.
  - intros tok0 c s' Hm _ _. rewrite Hm. reflexivity.
Qed.

Lemma plus_not_space c : (c =? plus_sign)%N = true -> is_space c = false.
Proof. intros H. apply N.eqb_eq in H. subst. reflexivity. Qed.

Lemma skip_spaces_plus_count s : plus_count (skip_spaces s) = plus_count s.
Proof.
  induction s as [|c s IH]; simpl; [reflexivity|].
  destruct (is_space c) eqn:E; [|reflexivity].
  unfold plus_count in *. simpl. rewrite IH.
  destruct (c =? plus_sign)%N eqn:Ep; [|reflexivity].
  rewrite (plus_not_space c Ep) in E. discriminate.
Qed.

Lemma match_sep_plus_count s rest :
  match_sep s = Some rest -> plus_count s = S (plus_count rest).
Proof.
  unfold match_sep. intros H. rewrite <- (skip_spaces_plus_count s).
  destruct (skip_spaces s) as [|c s']; [discriminate|].
  destruct (c =? plus_sign)%N eqn:E; [|discriminate].
  injection H as <-. unfold plus_count at 1. simpl. rewrite E.
  fold (plus_count s'). rewrite skip_spaces_plus_count. reflexivity.
Qed.

Lemma match_sep_at_plus c s :
  match_sep (c :: s) = None -> (c =? plus_sign)%N = false.
Proof.
  unfold match_sep. simpl. destruct (c =? plus_sign)%N eqn:E; [|reflexivity].
  rewrite (plus_not_space c E), E. discriminate.
Qed.

Lemma split_sep_length tok s : length (split_sep tok s) = S (plus_count s).
Proof.
  apply (split_sep_elim (fun tok s res => length res = S (plus_count s))).
  - reflexivity.
  - intros tok0 c s' rest Hm IH _. simpl. rewrite IH.
    rewrite (match_sep_plus_count _ _ Hm). reflexivity.
  - intros tok0 c s' Hm IH _. rewrite IH. unfold plus_count. simpl.
    rewrite (match_sep_at_plus c s' Hm). reflexivity.
Qed.

Lemma replace_marker_plus_count s :
  plus_count (replace follow_marker [] s) = plus_count s.
Proof.
  induction s as [|c s IH].
  - reflexivity.
  - change (replace follow_marker [] (c :: s))
      with (match strip_prefix follow_marker (c :: s) with
            | Some rest => [] ++ rest
            | None => c :: replace follow_marker [] s
            end).
    destruct (strip_prefix follow_marker (c :: s)) as [rest|] eqn:E.
    + rewrite (strip_prefix_Some _ _ _ E). reflexivity.
    + unfold plus_count in *. simpl. rewrite IH. reflexivity.
Qed.

(** X17: [getRequireUp] returns one name for each plus sign of the
    requirement text, whatever the text: none when the text has no plus
    sign, with or without the marker. *)
Theorem getRequireUp_length (requireText : jsstring) :
  length (getRequireUp requireText) = plus_count requireText.
Proof.
  unfold getRequireUp.
  pose proof (split_sep_length [] (replace follow_marker [] requireText)) as H.
  destruct (split_sep [] (replace follow_marker [] requireText)) as [|tok names];
    [discriminate|].
  simpl in *. injection H as ->. apply replace_marker_plus_count.
Qed.


Lemma skip_spaces_no_leading s : no_leading_space (skip_spaces s).
Proof.
  induction s as [|c s IH]; simpl; [exact I|].
  destruct (is_space c) eqn:E; [exact IH|exact E].
Qed.

Lemma match_sep_no_leading s rest : match_sep s = Some rest -> no_leading_space rest.
Proof.
  unfold match_sep. destruct (skip_spaces s) as [|c s']; [discriminate|].
  destruct (c =? plus_sign)%N; [|discriminate].
  intros [= <-]. apply skip_spaces_no_leading.
Qed.

(** Every token of a split is free of plus signs and starts with no
    whitespace, when the text before it is so. *)
Lemma split_sep_tokens tok s :
  plus_count tok = 0%nat -> no_leading_space (tok ++ s) ->
  Forall (fun t => plus_count t = 0%nat /\ no_leading_space t) (split_sep tok s).
Proof.
  apply (split_sep_elim
           (fun tok s res =>
              plus_count tok = 0%nat -> no_leading_space (tok ++ s) ->
              Forall (fun t => plus_count t = 0%nat /\ no_leading_space t) res)).
  - intros tok0 Hp Hl. rewrite app_nil_r in Hl. repeat constructor; assumption.
  - intros tok0 c s' rest Hm IH _ Hp Hl. constructor.
    + split; [exact Hp|]. destruct tok0; [exact I|exact Hl].
    + apply IH; [reflexivity|]. apply (match_sep_no_leading _ _ Hm).
  - intros tok0 c s' Hm IH _ Hp Hl. apply IH.
    + unfold plus_count in *. rewrite count_app, Hp. simpl.
      rewrite (match_sep_at_plus c s' Hm). reflexivity.
    + rewrite <- app_assoc. exact Hl.
Qed.

Lemma split_sep_tail_tokens tok s :
  Forall (fun t => plus_count t = 0%nat /\ no_leading_space t) (tail (split_sep tok s)).
Proof.
  apply (split_sep_elim
           (fun tok s res =>
              Forall (fun t => plus_count t = 0%nat /\ no_leading_space t) (tail res))).
  - intros. constructor.
  - intros tok0 c s' rest Hm _ _. simpl.
    apply split_sep_tokens; [reflexivity|]. apply (match_sep_no_leading _ _ Hm).
  - intros tok0 c s' Hm IH _. exact IH.
Qed.

(** X18: every name [getRequireUp] returns is free of plus signs and does
    not start with whitespace: the separator takes the whitespace around
    each plus sign with it. *)
Theorem getRequireUp_names (requireText : jsstring) :
  Forall (fun name => plus_count name = 0%nat /\ no_leading_space name)
         (getRequireUp requireText).
Proof. unfold getRequireUp. apply split_sep_tail_tokens. Qed.

(** *** Round trip *)

Lemma not_plus_eqb c : c ≠ plus_sign -> (c =? plus_sign)%N = false.
Proof. intros H. apply N.eqb_neq. exact H. Qed.

Lemma ends_plain_tail c v : v ≠ [] -> ends_plain (c :: v) -> ends_plain v.
Proof.
  intros Hv (x & Hx & Hs). exists x. split; [|exact Hs].
  destruct v as [|d v]; [contradiction|]. exact Hx.
Qed.

(** Inside a name the separator does not match. *)
Lemma match_sep_inside v rest :
  v ≠ [] -> Forall (fun c => c ≠ plus_sign) v -> ends_plain v ->
  match_sep (v ++ rest) = None.
Proof.
  intros Hne Hplus Hend. unfold match_sep.
  induction v as [|c v IH]; [contradiction|]. simpl.
  inversion Hplus as [|? ? Hc Hv]; subst.
  destruct (is_space c) eqn:E.
  - destruct v as [|d v].
    + destruct Hend as (x & [= <-] & Hs). congruence.
    + apply IH; [discriminate|exact Hv|].
      apply (ends_plain_tail c); [discriminate|exact Hend].
  - rewrite (not_plus_eqb c Hc). reflexivity.
Qed.

(** A name goes into the token as it is. *)
Lemma split_sep_name u tok rest :
  Forall (fun c => c ≠ plus_sign) u -> u = [] \/ ends_plain u ->
  split_sep tok (u ++ rest) = split_sep (tok ++ u) rest.
Proof.
  revert tok. induction u as [|c u IH]; intros tok Hplus Hend; simpl.
  - rewrite app_nil_r. reflexivity.
  - destruct Hend as [|Hend]; [discriminate|].
    rewrite split_sep_step.
    pose proof (match_sep_inside (c :: u) rest ltac:(discriminate) Hplus Hend) as Hm.
    simpl in Hm. rewrite Hm.
    inversion Hplus as [|? ? Hc Hu]; subst.
    rewrite IH; [rewrite <- app_assoc; reflexivity|exact Hu|].
    destruct u as [|d u]; [left; reflexivity|right].
    apply (ends_plain_tail c); [discriminate|exact Hend].
Qed.

(** The separator " + " before a name matches, and leaves the name. *)
Lemma match_sep_before_name name rest :
  plain_name name -> match_sep (js " + " ++ name ++ rest) = Some (name ++ rest).
Proof.
  intros (_ & (c & Hc & Hs) & _). destruct name as [|c' name]; [discriminate|].
  injection Hc as ->. unfold match_sep. simpl. rewrite Hs. reflexivity.
Qed.

Lemma plain_name_ends name : plain_name name -> ends_plain name.
Proof. intros (_ & _ & H). exact H. Qed.

Lemma split_sep_names tok (names : list jsstring) :
  Forall plain_name names ->
  split_sep tok (flat_map (fun n => js " + " ++ n) names) = tok :: names.
Proof.
  intros H. revert tok. induction H as [|name names Hn _ IH]; intros tok; simpl.
  - apply split_sep_equation_1.
  - change (split_sep tok (js " + " ++ name ++ flat_map (fun n => js " + " ++ n) names)
            = tok :: name :: names).
    rewrite split_sep_step.
    change (js " + " ++ name ++ flat_map (fun n => js " + " ++ n) names)
      with (32%N :: (js "+ " ++ name ++ flat_map (fun n => js " + " ++ n) names)).
    cbv beta iota.
    change (32%N :: (js "+ " ++ name ++ flat_map (fun n => js " + " ++ n) names))
      with (js " + " ++ name ++ flat_map (fun n => js " + " ++ n) names).
    rewrite (match_sep_before_name name _ Hn).
    rewrite split_sep_name; [|apply Hn|right; apply plain_name_ends, Hn].
    rewrite IH. reflexivity.
Qed.

(** X19: parsing the text '关注主播 first + name1 + ... + namek', built from
    plain names, gives back name1 ... namek: the streamer's own name, first
    in the text, is dropped and every further name is returned as it was
    written, in order. *)
Theorem getRequireUp_round_trip (first : jsstring) (names : list jsstring) :
  plain_name first ->
  Forall plain_name names ->
  getRequireUp (requirement_text first names) = names.
Proof.
  intros Hf Hn. unfold getRequireUp, requirement_text.
  assert (replace follow_marker []
            (follow_marker ++ js " " ++ first ++ flat_map (fun n => js " + " ++ n) names)
          = js " " ++ first ++ flat_map (fun n => js " + " ++ n) names) as ->.
  { set (rest := js " " ++ first ++ _).
    change (replace follow_marker [] (follow_marker ++ rest))
      with (match strip_prefix follow_marker (follow_marker ++ rest) with
            | Some r => [] ++ r
            | None => 0x5173%N :: replace follow_marker [] (tail (follow_marker ++ rest))
            end).
    rewrite strip_prefix_app. reflexivity. }
  rewrite (app_assoc (js " ") first).
  rewrite split_sep_name.
  - rewrite split_sep_names by exact Hn. reflexivity.
  - apply Forall_app. split; [repeat constructor; discriminate|apply Hf].
  - right. destruct Hf as (_ & _ & (c & Hc & Hs)). exists c. split; [|exact Hs].
    rewrite last_app, Hc. reflexivity.
Qed.


(** * The serverless entry point *)

Ltac fc_run :=
  unfold Fc.handler, Fc.runTasks, Fc.dailyMain, Fc.notice, Fc.callback,
    Fc.try_catch, Fc.pure, Fc.call, mbind, mret, Fc.FcM_bind, Fc.FcM_ret; simpl.

Section FcProofs.
Context (env : Fc.Env).

(** X20: [runTasks] never throws, whatever the import, the parse and the
    task do; it returns true exactly when the payload parses to a non-empty
    task that runs to its end, and it starts at most that one task. *)
Theorem runTasks_outcome (payload : jsstring) (t : list Fc.Op) :
  exists b ops,
    Fc.runTasks env payload t = (Ok b, t ++ ops)
    /\ (b = true <-> task_completes env payload t)
    /\ (ops = []
        \/ exists pj task,
             Fc.parse_payload env payload = Answer pj
             /\ Fc.truthy (Fc.task pj) = Some task
             /\ ops = [Fc.RunInputBiliTask task]).
Proof.
  unfold task_completes. fc_run.
  destruct (Fc.import_task env) as [[]|e1] eqn:Ei; simpl.
  2:{ exists false, []. rewrite app_nil_r. repeat split; auto; try discriminate.
      intros (u & pj & task & ? & _). discriminate. }
  destruct (Fc.parse_payload env payload) as [pj|e2] eqn:Ep; simpl.
  2:{ exists false, []. rewrite app_nil_r. repeat split; auto; try discriminate.
      intros (u & pj & task & _ & ? & _). discriminate. }
  destruct (Fc.truthy (Fc.task pj)) as [task|] eqn:Et; simpl.
  2:{ exists false, []. rewrite app_nil_r. repeat split; auto; try discriminate.
      intros (u & pj' & task & _ & [= <-] & ? & _). congruence. }
  destruct (Fc.runInputBiliTask env t task) as [[]|e3] eqn:Er; simpl.
  - exists true, [Fc.RunInputBiliTask task]. split; [reflexivity|].
    split; [|right; eauto]. split; [|reflexivity].
    intros _. exists tt, pj, task. auto.
  - exists false, [Fc.RunInputBiliTask task]. split; [reflexivity|].
    split; [|right; eauto]. split; [discriminate|].
    intros (u & pj' & task' & _ & [= <-] & Ht & Hr). congruence.
Qed.

Ltac fc_path :=
  eexists; split; [rewrite <- ?app_assoc; reflexivity|];
  split; [reflexivity|eexists _, _; reflexivity].

(** X21: [handler] never throws and reports through the callback exactly
    once, as the last thing it does, whatever the parses, the imports, the
    initialisation, the task and the daily run do. *)
Theorem handler_calls_back_once (event : jsstring) (context : Fc.FCContext)
    (t : list Fc.Op) :
  exists ops,
    Fc.handler env event context t = (Ok tt, t ++ ops)
    /\ count Fc.is_callback ops = 1%nat
    /\ exists error message, last ops = Some (Fc.Callback error message).
Proof.
  fc_run.
  destruct (Fc.parse_event env event) as [ev|e]; simpl; [|fc_path].
  destruct (Fc.import_serverless env) as [[]|e]; simpl; [|fc_path].
  destruct (Fc.dailyHandler_init env t ev context) as [[]|e]; simpl; [|fc_path].
  destruct (Fc.truthy (Fc.payload ev)) as [p|]; simpl.
  - destruct (Fc.import_task env) as [[]|e]; simpl.
    + destruct (Fc.parse_payload env p) as [pj|e]; simpl.
      * destruct (Fc.truthy (Fc.task pj)) as [task|]; simpl.
        -- destruct (Fc.runInputBiliTask env _ task) as [[]|e]; simpl; [fc_path|].
           destruct (Fc.dailyHandler_run env _) as [m|e']; simpl; fc_path.
        -- destruct (Fc.dailyHandler_run env _) as [m|e']; simpl; fc_path.
      * destruct (Fc.dailyHandler_run env _) as [m|e']; simpl; fc_path.
    + destruct (Fc.dailyHandler_run env _) as [m|e']; simpl; fc_path.
  - destruct (Fc.dailyHandler_run env _) as [m|e']; simpl; fc_path.
Qed.

(** X22: once the event is parsed and the daily handler is loaded and
    initialised, [handler] either answers "success" right after the task of
    the payload, without running the daily tasks, or announces and runs the
    daily tasks once: the first exactly when the event has a non-empty
    payload whose task runs to its end. *)
Theorem handler_task_or_daily (event : jsstring) (context : Fc.FCContext)
    (t : list Fc.Op) ev u u' :
  Fc.parse_event env event = Answer ev ->
  Fc.import_serverless env = Answer u ->
  Fc.dailyHandler_init env t ev context = Answer u' ->
  let completes :=
    exists p, Fc.truthy (Fc.payload ev) = Some p
              /\ task_completes env p (t ++ [Fc.Init ev context]) in
  (completes ->
   exists task,
     Fc.handler env event context t
     = (Ok tt, t ++ [Fc.Init ev context; Fc.RunInputBiliTask task;
                     Fc.Callback None (Some Fc.success)]))
  /\ (~ completes ->
      exists ops,
        Fc.handler env event context t = (Ok tt, t ++ ops)
        /\ count Fc.is_run ops = 1%nat
        /\ Fc.Notice Fc.default_notice ∈ ops).
Proof.
  intros Hev Himp Hinit completes. subst completes. unfold task_completes.
  fc_run. rewrite Hev, Himp. simpl. rewrite Hinit. simpl.
  destruct (Fc.truthy (Fc.payload ev)) as [p|]; simpl.
  2:{ split; [intros (p & ? & _); discriminate|]. intros _.
      destruct (Fc.dailyHandler_run env _) as [m|e']; simpl;
        (eexists; split; [rewrite <- ?app_assoc; reflexivity|];
         split; [reflexivity|]; right; left). }
  destruct (Fc.import_task env) as [[]|e] eqn:Ei; simpl.
  2:{ split; [intros (p' & _ & u0 & pj & task & ? & _); discriminate|]. intros _.
      destruct (Fc.dailyHandler_run env _) as [m|e']; simpl;
        (eexists; split; [rewrite <- ?app_assoc; reflexivity|];
         split; [reflexivity|]; right; left). }
  destruct (Fc.parse_payload env p) as [pj|e] eqn:Ep; simpl.
  2:{ split; [intros (p' & [= <-] & u0 & pj & task & _ & ? & _); congruence|].
      intros _.
      destruct (Fc.dailyHandler_run env _) as [m|e']; simpl;
        (eexists; split; [rewrite <- ?app_assoc; reflexivity|];
         split; [reflexivity|]; right; left). }
  destruct (Fc.truthy (Fc.task pj)) as [task|] eqn:Et; simpl.
  2:{ split; [intros (p' & [= <-] & u0 & pj' & task & _ & Hp & ? & _); congruence|].
      intros _.
      destruct (Fc.dailyHandler_run env _) as [m|e']; simpl;
        (eexists; split; [rewrite <- ?app_assoc; reflexivity|];
         split; [reflexivity|]; right; left). }
  destruct (Fc.runInputBiliTask env (t ++ [Fc.Init ev context]) task) as [[]|e] eqn:Er;
    simpl.
  - split.
    + intros _. exists task. rewrite <- !app_assoc. reflexivity.
    + intros H. exfalso. apply H. exists p. split; [reflexivity|].
      exists tt, pj, task. auto.
  - split.
    + intros (p' & [= <-] & u0 & pj' & task' & _ & Hp & Ht & Hr).
      rewrite Ep in Hp. injection Hp as <-. rewrite Et in Ht. injection Ht as <-.
      congruence.
    + intros _.
      destruct (Fc.dailyHandler_run env _) as [m|e']; simpl;
        (eexists; split; [rewrite <- ?app_assoc; reflexivity|];
         split; [reflexivity|]; right; right; left).
Qed.
End FcProofs.


(** * The red-packet check and its candidates *)

Section RedPacketCheck.
Context (remote : Remote).

(** X23: [getRedPacketId] swallows every failure: a check that throws, a
    failure code, an answer without data (which cannot be destructured), a
    null list, an empty list (whose first entry cannot be read) and a
    closed first entry all give undefined, without a log entry and without
    touching the accumulator; only the request is made. *)
Theorem getRedPacketId_undefined roomId w :
  ((exists e, checkRedPacket remote (trace w) roomId = Raise e)
   \/ exists r,
        checkRedPacket remote (trace w) roomId = Answer r
        /\ (Res.code r ≠ 0
            \/ (forall data, Res.data r ≠ Value data)
            \/ exists data,
                 Res.data r = Value data
                 /\ (RedPacketData.popularity_red_pocket data = None
                     \/ RedPacketData.popularity_red_pocket data = Some []
                     \/ exists e rest,
                          RedPacketData.popularity_red_pocket data = Some (e :: rest)
                          /\ RedPocket.lot_status e = 2))) ->
  getRedPacketId remote roomId w
  = (Ok None, add_event (Call (CheckRedPacket roomId)) w).
Proof.
  intros H. rewrite getRedPacketId_run. f_equal. f_equal. unfold lot_of.
  destruct H as [[e ->]|(r & -> & H)]; [reflexivity|].
  destruct (decide (Res.code r ≠ 0)) as [|Hc]; [reflexivity|].
  destruct H as [Hn|[Hn|(data & -> & H)]]; [contradiction| |].
  - destruct (Res.data r) as [| |data]; [reflexivity..|].
    destruct (Hn data eq_refl).
  - destruct H as [->|[->|(e & rest & -> & Hs)]]; [reflexivity..|].
    rewrite Hs. reflexivity.
Qed.

(** The triple a listing and a candidate share. *)
Let listing (room : LiveRoomList.t) : Z * jsstring * Z :=
  (LiveRoomList.uid room, LiveRoomList.uname room, LiveRoomList.roomid room).
Let owner (p : RedPacket.t) : Z * jsstring * Z :=
  (RedPacket.uid p, RedPacket.uname p, RedPacket.room_id p).

(** X24: when [getRedPacketRoom] returns, the page fetch has answered
    with data, and the candidates returned are rooms of that page that
    carry the red-packet badge, in listing order, each with the streamer
    id, the streamer name and the room id of its listing and with a lot id
    that a check of that room returned. *)
Theorem getRedPacketRoom_candidates areaId parentId page w l :
  fst (getRedPacketRoom remote areaId parentId page w) = Ok l ->
  exists a data,
    getLiveRoom remote (trace w ++ [Delay 100]) parentId areaId page = Answer a
    /\ Res.data a = Value data
    /\ sublist (map owner l)
               (map listing (snd (pendentLottery (RoomPage.list data))))
    /\ Forall (fun p => checked_lot remote (RedPacket.room_id p) (RedPacket.lot_id p)) l.
Proof.
  intros Hl.
  assert (exists rooms,
             fst (getLotteryRoomList remote areaId parentId page redPack w) = Ok rooms)
    as [rooms1 Hrooms].
  { unfold getRedPacketRoom in Hl. rewrite bind_run in Hl.
    destruct (getLotteryRoomList remote areaId parentId page redPack w)
      as [[rooms2|e] w0]; [eauto|discriminate]. }
  destruct (getLotteryRoomList_Ok remote areaId parentId page redPack w rooms1 Hrooms)
    as (a & data & Ha & Hd & _).
  exists a, data. split; [exact Ha|]. split; [exact Hd|].
  destruct (getLotteryRoomList_answer remote areaId parentId page redPack w a data
              Ha Hd) as (w1 & Hrun & _).
  revert Hl. unfold getRedPacketRoom. rewrite bind_run, Hrun.
  set (rooms := snd (pendentLottery (RoomPage.list data))).
  intros Hl.
  destruct (getRedPacketRoom_loop_emits remote
              (fun rooms l _ =>
                 sublist (map owner l) (map listing rooms)
                 /\ Forall (fun p => checked_lot remote (RedPacket.room_id p)
                                       (RedPacket.lot_id p)) l)
              ltac:(split; constructor)
              ltac:(intros room rooms0 t lotId l0 evs Ht [Hs Hf]; split;
                    [apply sublist_skip, Hs
                    |constructor; [eapply truthy_lot_checked, Ht|exact Hf]])
              ltac:(intros room rooms0 t l0 evs _ [Hs Hf]; split;
                    [apply sublist_cons, Hs|exact Hf])
              rooms [] w1) as (evs & _ & l' & Hres & H).
  rewrite Hl in Hres. injection Hres as ->. exact H.
Qed.
End RedPacketCheck.


(** * Blacklisted rooms *)

Section BlacklistedPage.
Context (cfg : Config) (remote : Remote) (str_match : jsstring -> jsstring -> option bool).

Lemma blacklisted_rooms_loop (rooms : list LiveRoomList.t) acc w :
  Forall (fun room => LiveRoomList.uid room ∈ LOTTERY_UP_BLACKLIST cfg) rooms ->
  exists w',
    for_of rooms (checkLotteryRoomList_body cfg remote str_match) acc w = (Ok acc, w')
    /\ trace w' = trace w /\ heap w' = heap w /\ newFollowUp w' = newFollowUp w.
Proof.
  intros H. revert w. induction H as [|room rooms Hb _ IH]; intros w; simpl.
  - exists w. auto.
  - rewrite bind_run. unfold checkLotteryRoomList_body at 1, checkLotteryRoom.
    rewrite bool_decide_eq_true_2 by exact Hb.
    rewrite bind_run, bind_logger_info. simpl.
    destruct (IH (add_log (Info (SkipBlacklist (LiveRoomList.uname room))) w))
      as (w' & -> & Ht & Hh & Hn).
    exists w'. auto.
Qed.

(** X25: a lottery page, fetched with data, on which every room with the
    time-lottery badge belongs to a blacklisted streamer costs the page
    fetch and nothing else: no draw is checked, no join is sent, the
    accumulator is left alone. *)
Theorem blacklisted_page_is_skipped areaId parentId page w a data :
  getLiveRoom remote (trace w ++ [Delay 100]) parentId areaId page = Answer a ->
  Res.data a = Value data ->
  Forall (fun room => LiveRoomList.uid room ∈ LOTTERY_UP_BLACKLIST cfg)
         (fst (pendentLottery (RoomPage.list data))) ->
  fst (doLotteryArea_page cfg remote str_match areaId parentId tt page w) = Ok tt
  /\ emitted (doLotteryArea_page cfg remote str_match areaId parentId tt page) w
     = [Delay 100; Call (GetLiveRoom parentId areaId page)]
  /\ heap (snd (doLotteryArea_page cfg remote str_match areaId parentId tt page w))
     = heap w.
Proof.
  intros Ha Hd Hb.
  destruct (getLotteryRoomList_answer remote areaId parentId page lottery w a data
              Ha Hd) as (w1 & Hrun & Ht1 & Hh1 & _).
  destruct (blacklisted_rooms_loop _ [] w1 Hb) as (w2 & Hloop & Ht2 & Hh2 & _).
  unfold emitted, doLotteryArea_page, checkLotteryRoomList.
  rewrite !bind_run, Hrun, Hloop. simpl.
  rewrite Ht2, Ht1, Hh2, Hh1, drop_app_length. auto.
Qed.
End BlacklistedPage.


(** * Concrete runs of the further properties *)

Import Examples MoreExamples.

Lemma pendentLottery_sorts_by_badge_witness :
  room7 PendentID.Time ∈ fst (pendentLottery [room7 PendentID.Time; room7 PendentID.RedPacket])
  /\ room7 PendentID.Time ∉ snd (pendentLottery [room7 PendentID.Time; room7 PendentID.RedPacket]).
Proof.
  pose proof (pendentLottery_sorts_by_badge [room7 PendentID.Time; room7 PendentID.RedPacket])
    as (Htime & _ & Hdisj & _).
  assert (room7 PendentID.Time
          ∈ fst (pendentLottery [room7 PendentID.Time; room7 PendentID.RedPacket])) as H.
  { apply Htime. split; [left|reflexivity]. }
  split; [exact H|apply Hdisj, H].
Defined.

Lemma category_failure_aborts_witness :
  getLiveArea area_down_platform start
  = (Thrown timeout, add_log (Error (AreaException timeout)) (add_event (Call GetArea) start))
  /\ liveLotteryService (config 2) area_down_platform literal_match start
     = (Thrown timeout,
        add_log (Error (AreaException timeout)) (add_event (Call GetArea) (reset start)))
  /\ liveRedPackService (config 2) area_down_platform start
     = (Thrown timeout,
        add_log (Error (AreaException timeout)) (add_event (Call GetArea) (reset start))).
Proof.
  apply (category_failure_aborts (config 2) area_down_platform literal_match start timeout).
  reflexivity.
Defined.

Lemma page_failure_aborts_witness :
  doLotteryArea_page (config 2) page_down_platform literal_match (js "21") (js "1") tt 1 start
  = (Thrown timeout,
     add_log (Error (RoomListException timeout))
       (add_event (Call (GetLiveRoom (js "1") (js "21") 1)) (add_event (Delay 100) start))).
Proof.
  apply (page_failure_aborts (config 2) page_down_platform literal_match
           (js "21") (js "1") 1 lottery start timeout).
  reflexivity.
Defined.

Lemma checkLotteryRoom_accepts_iff_witness :
  fst (checkLotteryRoom (level_config 10) level_platform literal_match
         (room7 PendentID.Time) start) = Ok (Some level_draw)
  <-> eligible (level_config 10) literal_match level_draw.
Proof.
  apply (proj1 (checkLotteryRoom_accepts_iff (level_config 10) level_platform
                  literal_match (room7 PendentID.Time) start
                  {| Res.code := 0; Res.message := js "0"; Res.data := Value level_draw |}
                  level_draw ltac:(intros H; inversion H) eq_refl eq_refl eq_refl)).
Defined.

Lemma lottery_joins_are_joinable_witness :
  exists c, Call (JoinLottery 900 0 0) = lottery_join_of c
            /\ joinable (config 1) literal_match c
            /\ checked_from follow_platform c.
Proof.
  pose proof (lottery_joins_are_joinable (config 1) follow_platform literal_match start) as H.
  rewrite Forall_forall in H.
  apply (H (Call (JoinLottery 900 0 0))); [|reflexivity].
  vm_compute. do 5 right. left.
Defined.

Lemma redpacket_joins_are_checked_witness : checked_lot open_platform 70 5.
Proof.
  pose proof (redpacket_joins_are_checked (config 1) open_platform start) as H.
  rewrite Forall_forall in H.
  apply (H (Call (JoinRedPacket 70 5 7)) ltac:(vm_compute; do 5 right; left) 70 5 7).
  reflexivity.
Defined.

Lemma area_fetches_every_page_witness :
  fst (doLotteryArea (config 2) throwing_platform literal_match (js "21") (js "1") 2 start)
  = Ok tt
  /\ fst (doRedPackArea open_platform (js "21") (js "1") 2 start) = Ok tt.
Proof.
  split.
  - apply (proj1 (proj2 (proj2 (area_fetches_every_page (config 2) throwing_platform
                                  literal_match (js "21") (js "1") 2 start))
                    ltac:(intros t page; eexists _, _; split; reflexivity))).
    intros t roomid r. discriminate.
  - apply (proj2 (proj2 (area_fetches_every_page (config 2) open_platform
                           literal_match (js "21") (js "1") 2 start))).
    intros t page. eexists _, _. split; reflexivity.
Defined.

Lemma nothing_to_scan_witness :
  emitted (liveLotteryService (config 0) follow_platform literal_match) start = [Call GetArea]
  /\ fst (liveLotteryService (config 0) follow_platform literal_match start) = Ok (Some 0%nat)
  /\ heap (snd (liveLotteryService (config 0) follow_platform literal_match start)) = [[]].
Proof.
  apply (nothing_to_scan (config 0) follow_platform literal_match start
           {| Res.code := 0; Res.message := js "0"; Res.data := Value one_area |}
           one_area).
  - reflexivity.
  - reflexivity.
  - left. simpl. lia.
Defined.

Lemma pipeline_errors_have_origins_witness :
  fetch_error area_down_platform timeout
  \/ (timeout = TypeError /\ fetch_without_data area_down_platform).
Proof.
  apply (proj2 (pipeline_errors_have_origins (config 2) area_down_platform
                  literal_match start timeout)).
  reflexivity.
Defined.

Lemma doLottery_records_only_followed_success_witness :
  heap (snd (doLottery throwing_platform follow_lottery (reset start))) = [[]]
  /\ newFollowUp (snd (doLottery throwing_platform follow_lottery (reset start))) = Some 0%nat.
Proof.
  apply (doLottery_records_only_followed_success throwing_platform follow_lottery
           (reset start)).
  intros r H. discriminate.
Defined.

Lemma doRedPacket_records_witness :
  heap (snd (doRedPacket open_platform follow_candidate
               (set_heap [[Uid 7]] (reset start))))
  = [[Uid 7; Uid 7]].
Proof.
  apply (proj1 (doRedPacket_records open_platform follow_candidate
                  (set_heap [[Uid 7]] (reset start)))
           {| Res.code := 0; Res.message := js "0"; Res.data := tt |} 0%nat [Uid 7]);
    reflexivity.
Defined.

Lemma unsuccessful_run_returns_empty_witness :
  exists l,
    Some 0%nat = Some l
    /\ heap (snd (liveRedPackService (config 2) refusing_platform start)) !! l = Some [].
Proof.
  apply (proj2 (unsuccessful_run_returns_empty (config 2) refusing_platform literal_match
                  start (Some 0%nat)
                  (snd (liveRedPackService (config 2) refusing_platform start)))).
  - intros t room_id lot_id ruid r [= <-]. discriminate.
  - reflexivity.
Defined.

Lemma lottery_never_records_blacklisted_witness :
  exists l xs,
    Some 0%nat = Some l
    /\ heap (snd (liveLotteryService blacklist_config follow_platform literal_match start))
       !! l = Some xs
    /\ forall n, Uid n ∈ xs -> n ∉ LOTTERY_UP_BLACKLIST blacklist_config.
Proof.
  apply (lottery_never_records_blacklisted blacklist_config follow_platform literal_match
           start (Some 0%nat)).
  reflexivity.
Defined.

Lemma getRequireUp_round_trip_witness :
  getRequireUp (requirement_text (js "A") [js "B"; js "C"]) = [js "B"; js "C"].
Proof.
  assert (forall c, is_space c = false -> c ≠ plus_sign -> plain_name [c]) as Hplain.
  { intros c Hs Hp. repeat split; [repeat constructor; exact Hp|exists c..]; auto. }
  apply (getRequireUp_round_trip (js "A") [js "B"; js "C"]).
  - apply Hplain; [reflexivity|discriminate].
  - constructor; [apply Hplain; [reflexivity|discriminate]|].
    constructor; [apply Hplain; [reflexivity|discriminate]|constructor].
Defined.

Lemma runTasks_outcome_witness :
  exists b ops,
    Fc.runTasks fc_env (js "p") [] = (Ok b, [] ++ ops)
    /\ (b = true <-> task_completes fc_env (js "p") [])
    /\ (ops = []
        \/ exists pj task,
             Fc.parse_payload fc_env (js "p") = Answer pj
             /\ Fc.truthy (Fc.task pj) = Some task
             /\ ops = [Fc.RunInputBiliTask task]).
Proof. exact (runTasks_outcome fc_env (js "p") []). Defined.

Lemma handler_task_or_daily_witness :
  exists task,
    Fc.handler fc_env (js "e") fc_ctx []
    = (Ok tt, [] ++ [Fc.Init {| Fc.payload := Some (js "p") |} fc_ctx;
                     Fc.RunInputBiliTask task;
                     Fc.Callback None (Some Fc.success)]).
Proof.
  apply (proj1 (handler_task_or_daily fc_env (js "e") fc_ctx []
                  {| Fc.payload := Some (js "p") |} tt tt eq_refl eq_refl eq_refl)).
  exists (js "p"). split; [reflexivity|].
  exists tt, {| Fc.task := Some (js "live") |}, (js "live"). repeat split.
Defined.

Lemma getRedPacketId_undefined_witness :
  getRedPacketId empty_list_platform 70 start
  = (Ok None, add_event (Call (CheckRedPacket 70)) start).
Proof.
  apply (getRedPacketId_undefined empty_list_platform 70 start).
  right. eexists. split; [reflexivity|]. right. right. eexists. split; [reflexivity|].
  right. left. reflexivity.
Defined.

Lemma getRedPacketRoom_candidates_witness :
  Forall (fun p => checked_lot open_platform (RedPacket.room_id p) (RedPacket.lot_id p))
         [follow_candidate].
Proof.
  destruct (getRedPacketRoom_candidates open_platform (js "21") (js "1") 1 start
              [follow_candidate] eq_refl) as (a & data & _ & _ & _ & H).
  exact H.
Defined.

Lemma blacklisted_page_is_skipped_witness :
  emitted (doLotteryArea_page blacklist_config follow_platform literal_match
             (js "21") (js "1") tt 1) start
  = [Delay 100; Call (GetLiveRoom (js "1") (js "21") 1)].
Proof.
  apply (blacklisted_page_is_skipped blacklist_config follow_platform literal_match
           (js "21") (js "1") 1 start
           {| Res.code := 0; Res.message := js "0";
              Res.data := Value {| RoomPage.list := [room7 PendentID.Time] |} |}
           {| RoomPage.list := [room7 PendentID.Time] |}).
  - reflexivity.
  - reflexivity.
  - repeat constructor.
Defined.

Lemma liveLotteryService_deduplicated_witness :
  exists l xs,
    Some 0%nat = Some l
    /\ heap (snd (liveLotteryService (config 2) follow_platform literal_match start)) !! l
       = Some xs
    /\ NoDup xs.
Proof.
  apply (liveLotteryService_deduplicated (config 2) follow_platform literal_match start
           (Some 0%nat)).
  reflexivity.
Defined.
